(** * Greylock: the merge operator, metadata and phrase re-verification

    A shallow embedding of [include/greylock/database.hpp] and of the
    request handlers of [src/server.cpp], with the properties the
    specification states about them.

    Conventions.  A [std::string] / [rocksdb::Slice] is a [string] (a list
    of 8-bit characters).  A [size_t] is an [N] and a [long] a [Z]; where
    the code does arithmetic on them the wrap-around is written out.  A C++
    function returning [bool] and filling an output string only on success
    is a function to [option string].  A [std::vector] is a [list]; a
    [std::set] is the list of its elements in iteration order. *)

From Stdlib Require Import ZArith NArith List String Ascii Bool Lia.
From Stdlib Require Import Sorted Permutation.
From stdpp Require Import gmap strings.
Import ListNotations.

Local Open Scope string_scope.
Local Open Scope list_scope.
Local Open Scope Z_scope.

(** ** Errors ([greylock/error.hpp]) *)

(** Modelled from the spec: [greylock::error_info] is declared in
    [greylock/error.hpp], which is not part of the sources at hand.  The
    callers only construct it empty, construct it with [create_error(code,
    format, ...)] and test it with [if (err)].  A message is kept to the
    fixed text of its format string. *)
Inductive error_info : Type :=
| no_error
| create_error (code : Z) (message : string).

Definition is_error (err : error_info) : bool :=
  match err with
  | no_error => false
  | create_error _ _ => true
  end.

(** ** Serialization ([greylock/utils.hpp])

    [serialize(t)] and [deserialize(t, data, size)] are templates of
    [greylock/utils.hpp] over msgpack: two interfaces here, with an
    instance per type.  Every call site of [deserialize] in the code
    below hands it an object that has just been default-constructed, so
    [deserialize data] returns the error together with the state of that
    object after the call. *)
Class Serialize (T : Type) : Type :=
  serialize : T -> string.

Class Deserialize (T : Type) : Type :=
  deserialize : string -> error_info * T.

(** What a call of [deserialize] hands to a caller that gives up on an
    error: the object, or nothing. *)
Definition decode {T : Type} `{Deserialize T} (data : string) : option T :=
  let (err, t) := deserialize data in
  if is_error err then None else Some t.

(** A list of serialized values, each handed to [deserialize] in turn:
    the objects when every call succeeds. *)
Fixpoint decode_all {T : Type} `{Deserialize T} (values : list string)
  : option (list T) :=
  match values with
  | [] => Some []
  | value :: rest =>
      match decode value with
      | None => None
      | Some t =>
          match decode_all rest with
          | None => None
          | Some ts => Some (t :: ts)
          end
      end
  end.

(** ** Document identifiers ([greylock/id.hpp]) *)

(** Modelled from the spec: [id_t] is declared in [greylock/id.hpp], which
    is not part of the sources at hand.  The spec gives it as
    [(tsec:int64, tnsec:int32, seq:int32)], "ordered lexicographically by
    timestamp first, then sequence". *)
Record id_t : Type := mk_id { tsec : Z; tnsec : Z; seq : Z }.

(** [id_t::operator<] *)
Definition id_lt (a b : id_t) : bool :=
  if tsec a <? tsec b then true
  else if tsec b <? tsec a then false
  else if tnsec a <? tnsec b then true
  else if tnsec b <? tnsec a then false
  else seq a <? seq b.

(** ** Persisted index structures *)

Record document_for_index : Type := mk_dfi { indexed_id : id_t }.

(** [document_for_index::operator<] *)
Definition dfi_lt (a b : document_for_index) : bool :=
  id_lt (indexed_id a) (indexed_id b).

Record disk_index : Type := mk_disk_index { ids : list document_for_index }.

Record disk_token : Type := mk_disk_token { shards : list N }.

(** ** [std::set]

    The elements of a [std::set<T>] in iteration order: ascending in the
    comparison [lt] of [T].  [insert] leaves the set as it is when it holds
    an element equivalent to the new one (neither is less than the
    other). *)
Section StdSet.
Context {T : Type} (lt : T -> T -> bool).

Fixpoint set_insert (x : T) (s : list T) : list T :=
  match s with
  | [] => [x]
  | y :: s' =>
      if lt x y then x :: y :: s'
      else if lt y x then y :: set_insert x s'
      else y :: s'
  end.

(** [s.insert(first, last)] *)
Fixpoint set_insert_range (xs : list T) (s : list T) : list T :=
  match xs with
  | [] => s
  | x :: xs' => set_insert_range xs' (set_insert x s)
  end.

(** Strictly ascending: every element is less than all the later ones. *)
Definition ascending (s : list T) : Prop :=
  StronglySorted (fun x y => lt x y = true) s.
End StdSet.

(** ** The merge operator [disk_index_merge_operator] *)

(** [rocksdb::Slice::starts_with]: [key] is at least as long as [prefix]
    and agrees with it over that length. *)
Fixpoint starts_with (key prefix : string) {struct prefix} : bool :=
  match prefix with
  | EmptyString => true
  | String c prefix' =>
      match key with
      | EmptyString => false
      | String d key' =>
          if Ascii.eqb c d then starts_with key' prefix' else false
      end
  end.

Section MergeOperator.
Context `{Deserialize disk_index, Serialize disk_index,
          Deserialize document_for_index,
          Deserialize disk_token, Serialize disk_token}.

(** The [for] loop of [merge_index] over [operand_list]: [None] is the
    [return false] inside the loop. *)
Fixpoint merge_index_operands (operand_list : list string)
    (unique_index : list document_for_index)
  : option (list document_for_index) :=
  match operand_list with
  | [] => Some unique_index
  | value :: rest =>
      let (err, did) := deserialize (T := document_for_index) value in
      if is_error err then None
      else merge_index_operands rest (set_insert dfi_lt did unique_index)
  end.

Definition merge_index (key : string) (old_value : option string)
    (operand_list : list string) : option string :=
  let start :=
    match old_value with
    | Some ov =>
        let (err, index) := deserialize (T := disk_index) ov in
        if is_error err then None
        else Some (set_insert_range dfi_lt (ids index) [])
    | None => Some []
    end in
  match start with
  | None => None
  | Some unique_index =>
      match merge_index_operands operand_list unique_index with
      | None => None
      | Some unique_index' =>
          Some (serialize {| ids := unique_index' |})
      end
  end.

(** The [for] loop of [merge_token_shards] over [operand_list]. *)
Fixpoint merge_token_shards_operands (operand_list : list string)
    (shards_set : list N) : option (list N) :=
  match operand_list with
  | [] => Some shards_set
  | value :: rest =>
      let (err, s) := deserialize (T := disk_token) value in
      if is_error err then None
      else merge_token_shards_operands rest
             (set_insert_range N.ltb (shards s) shards_set)
  end.

Definition merge_token_shards (key : string) (old_value : option string)
    (operand_list : list string) : option string :=
  let start :=
    match old_value with
    | Some ov =>
        let (err, dt) := deserialize (T := disk_token) ov in
        if is_error err then None
        else Some (set_insert_range N.ltb (shards dt) [])
    | None => Some []
    end in
  match start with
  | None => None
  | Some shards_set =>
      match merge_token_shards_operands operand_list shards_set with
      | None => None
      | Some shards_set' =>
          Some (serialize {| shards := shards_set' |})
      end
  end.

Definition FullMerge (key : string) (old_value : option string)
    (operand_list : list string) : option string :=
  if starts_with key "token_shards." then
    merge_token_shards key old_value operand_list
  else if starts_with key "index." then
    merge_index key old_value operand_list
  else None.

Definition PartialMerge (key left_operand right_operand : string)
  : option string := None.
End MergeOperator.

(** ** [struct options] *)

Record options : Type := mk_options {
  tokens_shard_size : N;
  ngram_index_size : N;
  document_prefix : string;
  token_shard_prefix : string;
  index_prefix : string;
  metadata_key : string
}.

(** The constructor [options()] with the default member initializers. *)
Definition default_options : options :=
  {| tokens_shard_size := (100000 * 40)%N;
     ngram_index_size := 0%N;
     document_prefix := "documents.";
     token_shard_prefix := "token_shards.";
     index_prefix := "index.";
     metadata_key := "greylock.meta.key" |}.

(** ** [class metadata] *)

Definition LONG_MAX : Z := 2 ^ 63 - 1.
Definition LONG_MIN : Z := - 2 ^ 63.
Definition INT_MAX : Z := 2 ^ 31 - 1.
Definition INT_MIN : Z := - 2 ^ 31.

(** A mathematical integer brought back into [long]: the value a 64-bit
    two's complement register holds.  [std::atomic_long] arithmetic is
    defined to wrap. *)
Definition wrap_long (z : Z) : Z := (z + 2 ^ 63) mod 2 ^ 64 - 2 ^ 63.

(** The conversion [(int)x] of a 32-bit unsigned size. *)
Definition cast_int (z : Z) : Z := (z + 2 ^ 31) mod 2 ^ 32 - 2 ^ 31.

Definition is_long (z : Z) : Prop := LONG_MIN <= z <= LONG_MAX.

Record metadata : Type := mk_metadata { m_dirty : bool; m_seq : Z }.

(** [metadata() : m_dirty(false), m_seq(0)] *)
Definition metadata_new : metadata := {| m_dirty := false; m_seq := 0 |}.

Definition dirty (m : metadata) : bool := m_dirty m.

Definition clear_dirty (m : metadata) : metadata :=
  {| m_dirty := false; m_seq := m_seq m |}.

(** [get_sequence]: the returned value and the object after the call.
    [m_seq++] on the atomic returns the old value and stores the
    incremented one. *)
Definition get_sequence (m : metadata) : Z * metadata :=
  (m_seq m, {| m_dirty := true; m_seq := wrap_long (m_seq m + 1) |}).

(** [n] calls of [get_sequence] in a row: the values returned, in call
    order, and the object after the last call. *)
Fixpoint get_sequence_calls (n : nat) (m : metadata) : list Z * metadata :=
  match n with
  | O => ([], m)
  | S n' =>
      let (v, m1) := get_sequence m in
      let (vs, m2) := get_sequence_calls n' m1 in
      (v :: vs, m2)
  end.

(** *** msgpack objects

    [msgpack::object] of the msgpack library, as [metadata] reads and
    writes it.  The payload of a floating point object is kept as its bit
    pattern. *)
#[warnings="-register-all"]
Inductive msgpack_object : Type :=
| NIL
| BOOLEAN (b : bool)
| POSITIVE_INTEGER (u64 : Z)
| NEGATIVE_INTEGER (i64 : Z)
| DOUBLE (bits : Z)
| RAW (bytes : string)
| ARRAY (array : list msgpack_object)
| MAP (map : list (msgpack_object * msgpack_object)).

Inductive exception : Type :=
| runtime_error (what : string)
| type_error.

(** A call that either returns or leaves through an exception. *)
Inductive outcome (A : Type) : Type :=
| Normal (a : A)
| Throw (e : exception).
Arguments Normal {A} a.
Arguments Throw {A} e.

(** [object::convert] into a signed integer type with the limits [lo] and
    [hi], as the msgpack library does it: an integer object out of the
    target's range and every other object type raise [type_error]
    ([None]). *)
Definition convert_integer (lo hi : Z) (o : msgpack_object) : option Z :=
  match o with
  | POSITIVE_INTEGER u64 => if hi <? u64 then None else Some u64
  | NEGATIVE_INTEGER i64 => if i64 <? lo then None else Some i64
  | _ => None
  end.

Definition convert_int : msgpack_object -> option Z :=
  convert_integer INT_MIN INT_MAX.
Definition convert_long : msgpack_object -> option Z :=
  convert_integer LONG_MIN LONG_MAX.

(** What the packer's [pack] of an [int] or a [long] leaves in the stream,
    read back as an object. *)
Definition pack_integer (v : Z) : msgpack_object :=
  if v <? 0 then NEGATIVE_INTEGER v else POSITIVE_INTEGER v.

Definition serialize_version_2 : Z := 2.

(** [metadata::msgpack_pack]: [pack_array(2)] followed by the two
    elements. *)
Definition msgpack_pack (m : metadata) : msgpack_object :=
  ARRAY [pack_integer serialize_version_2; pack_integer (m_seq m)].

(** [metadata::msgpack_unpack].  [p[i]] reads the array through its
    pointer without a bounds check: a read past the end ([p[0]] of an
    empty array) finds whatever object lies there, [junk].  The numbers the
    messages print are left out of the message text. *)
Definition msgpack_unpack (junk : msgpack_object) (o : msgpack_object)
    (m : metadata) : outcome metadata :=
  match o with
  | ARRAY p =>
      match convert_int (nth 0 p junk) with
      | None => Throw type_error
      | Some version =>
          if negb (version =? cast_int (Z.of_nat (length p))) then
            Throw (runtime_error "could not unpack document, invalid version")
          else if version =? serialize_version_2 then
            match convert_long (nth 1 p junk) with
            | None => Throw type_error
            | Some seq => Normal {| m_dirty := m_dirty m; m_seq := seq |}
            end
          else
            Throw (runtime_error "could not unpack metadata, invalid version")
      end
  | _ => Throw (runtime_error "could not unpack metadata, object type must be array")
  end.

(** ** The key-value engine

    rocksdb behind [m_db], as far as the code below drives it: [Get],
    [Put], [Merge] and [Write] of a batch, on column families, with the
    merge operator bound at open time.  A key holds the last value put and
    the merge operands that arrived since; [Get] runs the merge operator
    over them.  [health] is [kOk] for an engine that works; an engine in
    trouble refuses every call with the status it holds there and changes
    nothing. *)

Inductive Status : Type :=
| kOk
| kNotFound
| kCorruption
| kNotSupported
| kInvalidArgument
| kIOError.

Definition ok (s : Status) : bool :=
  match s with kOk => true | _ => false end.

Definition IsNotFound (s : Status) : bool :=
  match s with kNotFound => true | _ => false end.

(** [Status::code()] *)
Definition code_of (s : Status) : Z :=
  match s with
  | kOk => 0
  | kNotFound => 1
  | kCorruption => 2
  | kNotSupported => 3
  | kInvalidArgument => 4
  | kIOError => 5
  end.

(** Column family handles.  [default_column] is the engine's default
    family, which [Put(key, value)] and [Merge(key, value)] without a
    handle address. *)
Definition default_column : N := 0%N.
Definition documents_column : N := 1%N.
Definition document_ids_column : N := 2%N.

Record cell : Type := mk_cell { base : option string; operands : list string }.

Inductive batch_op : Type :=
| Put (column : N) (key value : string)
| Merge (column : N) (key value : string).

(** [rocksdb::WriteBatch]: the operations in the order they were added. *)
Definition WriteBatch : Type := list batch_op.

Record DB : Type := mk_DB {
  cells : gmap (N * string) cell;
  health : Status
}.

Definition apply_op (c : gmap (N * string) cell) (op : batch_op)
  : gmap (N * string) cell :=
  match op with
  | Put column key value =>
      <[(column, key) := {| base := Some value; operands := [] |}]> c
  | Merge column key value =>
      let old := default {| base := None; operands := [] |} (c !! (column, key)) in
      <[(column, key) := {| base := base old;
                            operands := operands old ++ [value] |}]> c
  end.

(** [DB::Write]: the whole batch or nothing. *)
Definition DB_Write (db : DB) (batch : WriteBatch) : Status * DB :=
  if ok (health db) then
    (kOk, {| cells := fold_left apply_op batch (cells db);
             health := health db |})
  else (health db, db).

(** [DB::Put] *)
Definition DB_Put (db : DB) (column : N) (key value : string) : Status * DB :=
  DB_Write db [Put column key value].

Section Engine.
Context `{Deserialize disk_index, Serialize disk_index,
          Deserialize document_for_index,
          Deserialize disk_token, Serialize disk_token}.

(** [DB::Get]: the status and the value read. *)
Definition DB_Get (db : DB) (column : N) (key : string) : Status * string :=
  if ok (health db) then
    match cells db !! (column, key) with
    | None => (kNotFound, "")
    | Some c =>
        match operands c with
        | [] =>
            match base c with
            | Some value => (kOk, value)
            | None => (kNotFound, "")
            end
        | _ :: _ =>
            match FullMerge key (base c) (operands c) with
            | Some value => (kOk, value)
            | None => (kCorruption, "")
            end
        end
    end
  else (health db, "").

(** ** [class read_only_database] *)

Record read_only_database : Type := mk_read_only_database {
  ro_m_db : DB;
  ro_m_opts : options
}.

Definition ro_read (d : read_only_database) (key : string)
  : error_info * string :=
  let (s, ret) := DB_Get (ro_m_db d) default_column key in
  if negb (ok s) then (create_error (- code_of s) "could not read key", ret)
  else (no_error, ret).

Definition ro_get_shards (d : read_only_database) (key : string) : list N :=
  let dt := {| shards := [] |} in
  let (err, ser_shards) := ro_read d key in
  if is_error err then shards dt
  else
    let (err, dt) := deserialize (T := disk_token) ser_shards in
    if is_error err then shards dt
    else shards dt.

(** ** [class database] *)

Record database : Type := mk_database {
  m_db : DB;
  m_opts : options;
  m_meta : metadata
}.

Definition read (d : database) (key : string) : error_info * string :=
  let (s, ret) := DB_Get (m_db d) default_column key in
  if negb (ok s) then (create_error (- code_of s) "could not read key", ret)
  else (no_error, ret).

Definition write (d : database) (batch : WriteBatch) : error_info * database :=
  let (s, db) := DB_Write (m_db d) batch in
  let d' := {| m_db := db; m_opts := m_opts d; m_meta := m_meta d |} in
  if negb (ok s) then (create_error (- code_of s) "could not write batch", d')
  else (no_error, d').

Definition get_shards (d : database) (key : string) : list N :=
  let dt := {| shards := [] |} in
  let (err, ser_shards) := read d key in
  if is_error err then shards dt
  else
    let (err, dt) := deserialize (T := disk_token) ser_shards in
    if is_error err then shards dt
    else shards dt.

Context `{Serialize metadata}.

(** [sync_metadata(batch)]: the error returned, the database object and
    the caller's batch after the call.  [batch = None] is the null
    pointer. *)
Definition sync_metadata (d : database) (batch : option WriteBatch)
  : error_info * database * option WriteBatch :=
  if negb (dirty (m_meta d)) then (no_error, d, batch)
  else
    let meta_serialized := serialize (m_meta d) in
    let '(s, db, batch') :=
      match batch with
      | Some b =>
          (kOk, m_db d,
           Some (b ++ [Put default_column (metadata_key (m_opts d)) meta_serialized]))
      | None =>
          let (s, db) := DB_Put (m_db d) default_column
                           (metadata_key (m_opts d)) meta_serialized in
          (s, db, None)
      end in
    if negb (ok s) then
      (create_error (- code_of s) "could not write metadata key",
       {| m_db := db; m_opts := m_opts d; m_meta := m_meta d |}, batch')
    else
      (no_error,
       {| m_db := db; m_opts := m_opts d; m_meta := clear_dirty (m_meta d) |},
       batch').
End Engine.

(** ** Documents and queries ([greylock/types.hpp], [greylock/intersection.hpp])

    Modelled from the spec: these structures are declared in headers that
    are not part of the sources at hand.  They carry the members
    [server.cpp] reads, under the names it reads them by; the spec gives a
    token's [positions] and [shards] as unsigned 32-bit numbers. *)

Module token.
Record t : Type := mk {
  name : string;
  positions : list N;
  shards : list N;
  key : string;
  shard_key : string
}.
End token.

Module attribute.
Record t : Type := mk { name : string; tokens : list token.t }.
End attribute.

Module indexes.
Record t : Type := mk {
  attributes : list attribute.t;
  exact : list attribute.t
}.
End indexes.

Module content.
Record t : Type := mk {
  content : string;
  title : string;
  links : list string;
  images : list string
}.
End content.

Module document.
Record t : Type := mk {
  mbox : string;
  id : string;
  author : string;
  indexed_id : id_t;
  ctx : content.t;
  idx : indexes.t
}.
End document.

Module mailbox_query.
Record t : Type := mk { mbox : string; idx : indexes.t }.
End mailbox_query.

Module intersection_query.
Record t : Type := mk { se : list mailbox_query.t }.
End intersection_query.

Module single_doc_result.
Record t : Type := mk { doc : document.t; relevance : Z }.
End single_doc_result.

(** ** [size_t] arithmetic and [std::string::find] *)

Definition size_t_add (a b : N) : N := ((a + b) mod 2 ^ 64)%N.

(** [s.find(needle)]: the position of the first occurrence of [needle] in
    [s]; [None] is [std::string::npos]. *)
Fixpoint find (s needle : string) : option nat :=
  if starts_with s needle then Some O
  else
    match s with
    | EmptyString => None
    | String _ s' => option_map S (find s' needle)
    end.

(** ** [struct on_search] *)

Module on_search.

(** The inner loop of [check_negation] over [content]. *)
Fixpoint negation_words (token_name : string) (content : list string) : bool :=
  match content with
  | [] => false
  | word :: rest =>
      if String.eqb token_name word then true
      else negation_words token_name rest
  end.

Fixpoint check_negation (tokens : list token.t) (content : list string)
  : bool :=
  match tokens with
  | [] => false
  | t :: rest =>
      if negation_words (token.name t) content then true
      else check_negation rest content
  end.

(** The lambda [check_token_positions]: its loop over [token.positions],
    from the position list that is left. *)
Fixpoint check_positions (token_name : string) (positions : list N)
    (content : list string) (content_offset : N) : bool :=
  match positions with
  | [] => true
  | pos :: rest =>
      let offset := size_t_add content_offset pos in
      if (N.of_nat (length content) <=? offset)%N then false
      else
        match nth_error content (N.to_nat offset) with
        | Some word =>
            if negb (String.eqb token_name word) then false
            else check_positions token_name rest content content_offset
        | None => false (* not reached: [offset < content.size()] here *)
        end
  end.

Definition check_token_positions (token : token.t) (content : list string)
    (content_offset : N) : bool :=
  check_positions (token.name token) (token.positions token)
    content content_offset.

(** The inner loop of [check_exact] over [tokens]: [match_] is the
    variable [match] on entry; the result is its value when the loop is
    left. *)
Fixpoint check_tokens (match_ : bool) (tokens : list token.t)
    (content : list string) (content_offset : N) : bool :=
  match tokens with
  | [] => match_
  | token :: rest =>
      let match_ := check_token_positions token content content_offset in
      if negb match_ then match_
      else check_tokens match_ rest content content_offset
  end.

(** The outer loop of [check_exact], with [remaining] iterations to go
    before [content_offset] reaches [content.size()]. *)
Fixpoint check_offsets (tokens : list token.t) (content : list string)
    (remaining : nat) (content_offset : N) : bool :=
  match remaining with
  | O => false
  | S remaining' =>
      if check_tokens true tokens content content_offset then true
      else check_offsets tokens content remaining'
             (size_t_add content_offset 1)
  end.

Definition check_exact (tokens : list token.t) (content : list string) : bool :=
  check_offsets tokens content (length content) 0%N.

Section Tokenizer.
(** [split_content] feeds the text to the HTML parser and the word
    splitter of the ribosome library: the tokenizer is a parameter. *)
Variable split_content : string -> list string.

(** The body of the loop over [ent.idx.exact]: the value of [match]. *)
Definition check_attribute (doc : document.t) (attr : attribute.t) : bool :=
  match find (attribute.name attr) "title" with
  | Some _ =>
      check_exact (attribute.tokens attr)
        (split_content (content.title (document.ctx doc)))
  | None =>
      check_exact (attribute.tokens attr)
        (split_content (content.content (document.ctx doc)))
  end.

Fixpoint check_attributes (doc : document.t) (attrs : list attribute.t)
  : bool :=
  match attrs with
  | [] => true
  | attr :: rest =>
      if negb (check_attribute doc attr) then false
      else check_attributes doc rest
  end.

(** The loop over [iq.se]; [true] when it runs to its end. *)
Fixpoint check_entries (doc : document.t) (se : list mailbox_query.t) : bool :=
  match se with
  | [] => true
  | ent :: rest =>
      if negb (check_attributes doc
                 (indexes.exact (mailbox_query.idx ent))) then false
      else check_entries doc rest
  end.

Definition check_result (iq : intersection_query.t)
    (sd : single_doc_result.t) : bool :=
  let doc := single_doc_result.doc sd in
  check_entries doc (intersection_query.se iq).
End Tokenizer.

End on_search.

(** ** [class http_server] and [struct on_index] *)

Inductive store : Type := docs_store | indexes_store.

(** One call of [database::write] made by a request handler: the database
    it went to, the batch, and whether the engine took it. *)
Record write_event : Type := mk_write_event {
  target : store;
  batch : WriteBatch;
  committed : bool
}.

(** The two databases of the server.  [history] is not a member of the
    class: it keeps the calls of [database::write] in the order in which
    they were made, so that the order of effects can be stated. *)
Record http_server : Type := mk_http_server {
  m_db_docs : database;
  m_db_indexes : database;
  history : list write_event
}.

(** [error_info::code()] *)
Definition code (err : error_info) : Z :=
  match err with
  | no_error => 0
  | create_error c _ => c
  end.

(** The status codes of [swarm::http_response] that the handlers use. *)
Module http_response.
Inductive status_type : Type := ok | bad_request.
End http_response.

(** What a handler sends to its client: [send_error(status, error, ...)]
    of [simple_request_stream_error], a JSON body with the error code, and
    [send_reply(status)], a reply without a body. *)
Inductive reply : Type :=
| send_error (status : http_response.status_type) (error : Z)
| send_reply (status : http_response.status_type).

Module on_index.
Section Handler.
Context `{Serialize document.t, Serialize id_t,
          Serialize document_for_index, Serialize disk_token}.
(** [document::generate_token_keys] ([greylock/types.hpp]) and
    [id_t::to_string] ([greylock/id.hpp]) are not part of the sources at
    hand: parameters. *)
Variable generate_token_keys : options -> document.t -> document.t.
Variable to_string : id_t -> string.

(** [server()->db_docs().write(&batch)] *)
Definition db_docs_write (srv : http_server) (b : WriteBatch)
  : error_info * http_server :=
  let (err, d) := write (m_db_docs srv) b in
  (err, {| m_db_docs := d;
           m_db_indexes := m_db_indexes srv;
           history := history srv ++
             [{| target := docs_store; batch := b;
                 committed := negb (is_error err) |}] |}).

(** [server()->db_indexes().write(&batch)] *)
Definition db_indexes_write (srv : http_server) (b : WriteBatch)
  : error_info * http_server :=
  let (err, d) := write (m_db_indexes srv) b in
  (err, {| m_db_docs := m_db_docs srv;
           m_db_indexes := d;
           history := history srv ++
             [{| target := indexes_store; batch := b;
                 committed := negb (is_error err) |}] |}).

(** The loop over [attr.tokens]: two merges per token. *)
Fixpoint merge_tokens (sdid : string) (tokens : list token.t)
    (indexes_batch : WriteBatch) : WriteBatch :=
  match tokens with
  | [] => indexes_batch
  | t :: rest =>
      let indexes_batch :=
        indexes_batch ++ [Merge default_column (token.key t) sdid] in
      let dt := {| shards := token.shards t |} in
      let dts := serialize dt in
      let indexes_batch :=
        indexes_batch ++ [Merge default_column (token.shard_key t) dts] in
      merge_tokens sdid rest indexes_batch
  end.

(** The loop over [doc.idx.attributes]. *)
Fixpoint merge_attributes (sdid : string) (attrs : list attribute.t)
    (indexes_batch : WriteBatch) : WriteBatch :=
  match attrs with
  | [] => indexes_batch
  | attr :: rest =>
      merge_attributes sdid rest
        (merge_tokens sdid (attribute.tokens attr) indexes_batch)
  end.

(** The batch [indexes_batch] that [process_one_document] builds for a
    document whose token keys are generated. *)
Definition build_indexes_batch (doc : document.t) : WriteBatch :=
  let did := {| indexed_id := document.indexed_id doc |} in
  let sdid := serialize did in
  merge_attributes sdid (indexes.attributes (document.idx doc)) [].

(** The batch [docs_batch] that [process_one_document] builds. *)
Definition build_docs_batch (doc : document.t) : WriteBatch :=
  let doc_serialized := serialize doc in
  let dkey := to_string (document.indexed_id doc) in
  let docs_batch := [Put documents_column dkey doc_serialized] in
  let doc_indexed_id_serialized := serialize (document.indexed_id doc) in
  docs_batch ++
    [Put document_ids_column (document.id doc) doc_indexed_id_serialized].

(** [process_one_document(doc)]: the error returned, the document (it is
    passed by reference) and the server after the call. *)
Definition process_one_document (srv : http_server) (doc : document.t)
  : error_info * document.t * http_server :=
  let doc := generate_token_keys (m_opts (m_db_indexes srv)) doc in
  let indexes_batch := build_indexes_batch doc in
  let docs_batch := build_docs_batch doc in
  let (err, srv) := db_docs_write srv docs_batch in
  if is_error err then
    (create_error (code err) "could not write docs batch", doc, srv)
  else
    let (err, srv) := db_indexes_write srv indexes_batch in
    if is_error err then
      (create_error (code err) "could not write indexes batch", doc, srv)
    else (no_error, doc, srv).

(** *** [parse_docs]

    The request arrives as a rapidjson document.  [rapidjson::Value] and
    the accessors of [greylock/json.hpp] are parameters, with the clock,
    [std::hash] and the members of [document] and [indexes] that
    [greylock/types.hpp] declares. *)
Variable Value : Type.
Variable IsObject : Value -> bool.
Variable IsArray : Value -> bool.
Variable IsString : Value -> bool.
(** [GetString] with [GetStringLength] *)
Variable GetString : Value -> string.
(** The elements from [Begin()] to [End()] *)
Variable elements : Value -> list Value.
(** [get_string(v, name)]: [None] is the null pointer. *)
Variable get_string : Value -> string -> option string.
(** [get_string(v, name, default)] *)
Variable get_string_or : Value -> string -> string -> string.
Variable get_object : Value -> string -> Value.
Variable get_array : Value -> string -> Value.
Variable get_int64 : Value -> string -> Z -> Z.
(** The readings of [clock_gettime(CLOCK_REALTIME)], [tv_sec] and
    [tv_nsec], in the order in which a call of [parse_docs] takes them. *)
Variable clock_gettime : nat -> Z * Z.
Variable hash : string -> N.
Variable assign_id : document.t -> string -> N -> Z -> Z -> document.t.
Variable get_indexes : options -> Value -> indexes.t.
(** A [document] as its constructor leaves it. *)
Variable new_document : document.t.

Definition EINVAL : Z := 22.
Definition ENOENT : Z := 2.

(** The loop of [get_string_vector] over the elements. *)
Fixpoint string_elements (a : list Value) (ret : list string) : list string :=
  match a with
  | [] => ret
  | it :: rest =>
      if IsString it then string_elements rest (ret ++ [GetString it])
      else string_elements rest ret
  end.

Definition get_string_vector (ctx : Value) (name : string) : list string :=
  let ret := [] in
  let a := get_array ctx name in
  if negb (IsArray a) then ret
  else string_elements (elements a) ret.

Definition parse_content (ctx : Value) (doc : document.t)
  : error_info * document.t :=
  let content := get_string_or ctx "content" "" in
  let title := get_string_or ctx "title" "" in
  let links := get_string_vector ctx "links" in
  let images := get_string_vector ctx "images" in
  (no_error,
   document.mk (document.mbox doc) (document.id doc) (document.author doc)
     (document.indexed_id doc)
     (content.mk content title links images)
     (document.idx doc)).

(** How one turn of the loop of [parse_docs] ends: with a [return], or at
    the end of the body with the variable [err] as it then is. *)
Inductive turn : Type :=
| Return (err : error_info)
| Next (err : error_info).

(** The body of the loop of [parse_docs] on the entry [it], the [n]-th of
    the request. *)
Definition parse_doc (mbox : string) (n : nat) (it : Value)
    (err : error_info) (srv : http_server) : turn * http_server :=
  if negb (IsObject it) then
    (Return (create_error (- EINVAL) "docs entries must be objects"), srv)
  else
    let id := get_string it "id" in
    let author := get_string it "author" in
    match id with
    | None => (Return (create_error (- EINVAL) "id must be string"), srv)
    | Some id =>
        let ts := clock_gettime n in
        let timestamp := get_object it "timestamp" in
        let (tsec, tnsec) :=
          if IsObject timestamp then
            (get_int64 timestamp "tsec" (fst ts),
             get_int64 timestamp "tnsec" (snd ts))
          else (fst ts, snd ts) in
        let doc := new_document in
        let doc :=
          document.mk mbox (document.id doc) (document.author doc)
            (document.indexed_id doc) (document.ctx doc) (document.idx doc) in
        let doc := assign_id doc id (hash id) tsec tnsec in
        let doc :=
          match author with
          | Some author =>
              document.mk (document.mbox doc) (document.id doc) author
                (document.indexed_id doc) (document.ctx doc)
                (document.idx doc)
          | None => doc
          end in
        let ctx := get_object it "content" in
        let (err, doc) :=
          if IsObject ctx then parse_content ctx doc else (err, doc) in
        if IsObject ctx && is_error err then (Return err, srv)
        else
          let idxs := get_object it "index" in
          if negb (IsObject idxs) then
            (Return (create_error (- EINVAL) "docs/index must be array"), srv)
          else
            let doc :=
              document.mk (document.mbox doc) (document.id doc)
                (document.author doc) (document.indexed_id doc)
                (document.ctx doc)
                (get_indexes (m_opts (m_db_indexes srv)) idxs) in
            let '(err, _, srv) := process_one_document srv doc in
            if is_error err then (Return err, srv)
            else (Next err, srv)
    end.

(** The document that the body of the loop hands to
    [process_one_document] for the entry [it], the [n]-th of the request:
    [None] for an entry on which the body returns before that call.
    [opts] are the options of the indexes database. *)
Definition entry_document (mbox : string) (n : nat) (it : Value)
    (opts : options) : option document.t :=
  if negb (IsObject it) then None
  else
    let id := get_string it "id" in
    let author := get_string it "author" in
    match id with
    | None => None
    | Some id =>
        let ts := clock_gettime n in
        let timestamp := get_object it "timestamp" in
        let (tsec, tnsec) :=
          if IsObject timestamp then
            (get_int64 timestamp "tsec" (fst ts),
             get_int64 timestamp "tnsec" (snd ts))
          else (fst ts, snd ts) in
        let doc := new_document in
        let doc :=
          document.mk mbox (document.id doc) (document.author doc)
            (document.indexed_id doc) (document.ctx doc) (document.idx doc) in
        let doc := assign_id doc id (hash id) tsec tnsec in
        let doc :=
          match author with
          | Some author =>
              document.mk (document.mbox doc) (document.id doc) author
                (document.indexed_id doc) (document.ctx doc)
                (document.idx doc)
          | None => doc
          end in
        let ctx := get_object it "content" in
        let doc := if IsObject ctx then snd (parse_content ctx doc) else doc in
        let idxs := get_object it "index" in
        if negb (IsObject idxs) then None
        else
          Some (document.mk (document.mbox doc) (document.id doc)
                  (document.author doc) (document.indexed_id doc)
                  (document.ctx doc) (get_indexes opts idxs))
    end.

(** The entries of a request with their places, counted from [n]. *)
Definition numbered (n : nat) (docs : list Value) : list (nat * Value) :=
  combine (List.seq n (length docs)) docs.

(** The two calls of [database::write] that [process_one_document] makes
    for a document when both engines take their batch. *)
Definition document_writes (opts : options) (doc : document.t)
  : list write_event :=
  let doc := generate_token_keys opts doc in
  [{| target := docs_store; batch := build_docs_batch doc;
      committed := true |};
   {| target := indexes_store; batch := build_indexes_batch doc;
      committed := true |}].

(** The server after its engines have taken the operations [docs_batch]
    and [indexes_batch], in calls of [database::write] recorded as
    [events]. *)
Definition written (srv : http_server) (docs_batch indexes_batch : WriteBatch)
    (events : list write_event) : http_server :=
  {| m_db_docs :=
       {| m_db := {| cells := fold_left apply_op docs_batch
                                (cells (m_db (m_db_docs srv)));
                     health := health (m_db (m_db_docs srv)) |};
          m_opts := m_opts (m_db_docs srv);
          m_meta := m_meta (m_db_docs srv) |};
     m_db_indexes :=
       {| m_db := {| cells := fold_left apply_op indexes_batch
                                (cells (m_db (m_db_indexes srv)));
                     health := health (m_db (m_db_indexes srv)) |};
          m_opts := m_opts (m_db_indexes srv);
          m_meta := m_meta (m_db_indexes srv) |};
     history := history srv ++ events |}.

(** The loop of [parse_docs] from the [n]-th entry on. *)
Fixpoint parse_docs_from (mbox : string) (n : nat) (docs : list Value)
    (err : error_info) (srv : http_server) : error_info * http_server :=
  match docs with
  | [] => (err, srv)
  | it :: rest =>
      match parse_doc mbox n it err srv with
      | (Return err, srv) => (err, srv)
      | (Next err, srv) => parse_docs_from mbox (S n) rest err srv
      end
  end.

(** [parse_docs(mbox, docs)], [docs] being the elements of the array. *)
Definition parse_docs (mbox : string) (docs : list Value)
    (srv : http_server) : error_info * http_server :=
  let err :=
    create_error (- ENOENT)
      "parse_docs: could not parse document, there are no valid index entries"
  in
  parse_docs_from mbox O docs err srv.

(** [doc.Parse<0>(data.c_str())] of rapidjson: [None] when
    [HasParseError()] holds after it. *)
Variable Parse : string -> option Value.

(** [on_index::on_request]: the replies sent, in the order of the calls,
    and the server after the request. *)
Definition on_request (data : string) (srv : http_server)
  : list reply * http_server :=
  match Parse data with
  | None => ([send_error http_response.bad_request (- EINVAL)], srv)
  | Some doc =>
      if negb (IsObject doc) then
        ([send_error http_response.bad_request (- EINVAL)], srv)
      else
        match get_string doc "mailbox" with
        | None =>
            ([send_error http_response.bad_request (- ENOENT);
              send_reply http_response.bad_request], srv)
        | Some mbox =>
            let docs := get_array doc "docs" in
            if negb (IsArray docs) then
              ([send_error http_response.bad_request (- ENOENT)], srv)
            else
              let (err, srv) := parse_docs mbox (elements docs) srv in
              if is_error err then
                ([send_error http_response.bad_request (code err)], srv)
              else ([send_reply http_response.ok], srv)
        end
  end.
End Handler.
End on_index.

(** ** Opening and closing a [database] *)

Section Lifecycle.
Context `{Deserialize disk_index, Serialize disk_index,
          Deserialize document_for_index,
          Deserialize disk_token, Serialize disk_token,
          Serialize metadata}.
(** [deserialize(m_meta, ...)] of [open] works on the member [m_meta], in
    whatever state it is: the template of [greylock/utils.hpp] at
    [metadata] takes the object it is handed and returns the error and the
    object after the call. *)
Variable deserialize_metadata : metadata -> string -> error_info * metadata.
(** The member [sync_metadata_timeout] of [options]. *)
Variable sync_metadata_timeout : Z.

(** [sync_metadata_callback]: the flush it makes.  The timer it arms to be
    called again is outside of this development. *)
Definition sync_metadata_callback (d : database) : database :=
  snd (fst (sync_metadata d None)).

(** [open(path)].  [s] and [db] are what [rocksdb::DB::Open] returns for
    [path]: its status and the engine it hands over. *)
Definition open (d : database) (s : Status) (db : DB)
  : error_info * database :=
  if negb (ok s) then
    (create_error (- code_of s) "failed to open rocksdb database", d)
  else
    let d := {| m_db := db; m_opts := m_opts d; m_meta := m_meta d |} in
    let (s, meta) :=
      DB_Get (m_db d) default_column (metadata_key (m_opts d)) in
    if negb (ok s) && negb (IsNotFound s) then
      (create_error (- code_of s) "could not read key", d)
    else
      let (err, d) :=
        if ok s then
          let (err, m) := deserialize_metadata (m_meta d) meta in
          (err, {| m_db := m_db d; m_opts := m_opts d; m_meta := m |})
        else (no_error, d) in
      if is_error err then
        (create_error (code err) "metadata deserialization failed", d)
      else
        let d :=
          if 0 <? sync_metadata_timeout then sync_metadata_callback d
          else d in
        (no_error, d).

(** [~database()]: the timer is stopped and the metadata flushed; the
    result of the flush is dropped. *)
Definition database_destructor (d : database) : database :=
  snd (fst (sync_metadata d None)).
End Lifecycle.

(** [n] calls of [metadata().get_sequence()] on a database: the values
    returned, in call order, and the database after the last call. *)
Definition database_get_sequence_calls (n : nat) (d : database)
  : list Z * database :=
  let (vs, m) := get_sequence_calls n (m_meta d) in
  (vs, {| m_db := m_db d; m_opts := m_opts d; m_meta := m |}).

(** ** The compaction tool ([src/compact.cpp]) *)

Module compact.

(** [rocksdb::Iterator] after [SeekToFirst()]: the entries of the column
    from the iterator on, key and value, and the status it reports.
    [Next()] drops the first of them. *)
Record iterator : Type := mk_iterator {
  entries : list (string * string);
  status : Status
}.

Definition Valid (it : iterator) : bool :=
  match entries it with
  | [] => false
  | _ :: _ => true
  end.

(** [rocksdb::Slice]: a pointer and a length, a view of bytes and no copy
    of them.  [it->key()] views the storage of the iterator, which keeps
    the key there until the iterator moves.  A view is kept as the place
    of the iterator at which it was taken, the number of calls of
    [Next()] made before; [Slice()] views no storage and reads as the
    empty string. *)
Inductive Slice : Type :=
| no_view
| key_view (place : nat).

(** One call [db.compact(column_id, start, end)]: the two views handed
    over, the size the loop had summed up, and the place of the iterator
    at the call. *)
Record compaction : Type := mk_compaction {
  start : Slice;
  end_ : Slice;
  current_size : Z;
  place_at_call : nat
}.

(** Whether the storage of a view still holds, at a call, the key it was
    taken from: the iterator has not moved since. *)
Definition holds (call : compaction) (s : Slice) : bool :=
  match s with
  | no_view => true
  | key_view place => Nat.eqb place (place_at_call call)
  end.

(** [long compact_size = csize_mb * 1024 * 1024]: the products of [long],
    with the wrap-around of the machine where they leave the 64 bits. *)
Definition compact_size_of (csize_mb : Z) : Z :=
  wrap_long (wrap_long (csize_mb * 1024) * 1024).

(** The inner [while]: it runs while the iterator is valid and
    [current_size < compact_size].  [current_size] is a [long] to which
    the [size_t] of the value is added; [place] is the place of the
    iterator. *)
Fixpoint fill (compact_size : Z) (entries : list (string * string))
    (place : nat) (current_size : Z) (end_ : Slice)
  : list (string * string) * nat * Z * Slice :=
  match entries with
  | [] => ([], place, current_size, end_)
  | (k, v) :: rest =>
      if current_size <? compact_size then
        fill compact_size rest (S place)
          (wrap_long (current_size + Z.of_nat (String.length v)))
          (key_view place)
      else (entries, place, current_size, end_)
  end.

(** The outer [while (it->Valid())], run for at most [fuel] turns:
    [None] when the turns are used up with the iterator still valid. *)
Fixpoint compact_loop (fuel : nat) (compact_size : Z)
    (entries : list (string * string)) (place : nat)
    (done : list compaction) : option (list compaction) :=
  match entries with
  | [] => Some done
  | _ :: _ =>
      match fuel with
      | O => None
      | S fuel' =>
          let start := key_view place in
          let '(rest, place', current_size, end_) :=
            fill compact_size entries place 0 no_view in
          compact_loop fuel' compact_size rest place'
            (done ++ [{| start := start; end_ := end_;
                         current_size := current_size;
                         place_at_call := place' |}])
      end
  end.

(** [main] from [it->SeekToFirst()] on: the value returned and the
    compactions made.  [csize_mb] is the option [--size]. *)
Definition compact_column (it : iterator) (csize_mb : Z) (fuel : nat)
  : option (Z * list compaction) :=
  if negb (Valid it) then Some (- code_of (status it), [])
  else
    let compact_size := compact_size_of csize_mb in
    match compact_loop fuel compact_size (entries it) O [] with
    | None => None
    | Some calls =>
        if negb (code_of (status it) =? 0) then
          Some (- code_of (status it), calls)
        else Some (0, calls)
    end.

(** The bytes of the values of a run of entries. *)
Fixpoint size_of (chunk : list (string * string)) : Z :=
  match chunk with
  | [] => 0
  | (_, v) :: rest => Z.of_nat (String.length v) + size_of rest
  end.

(** [call] is made for the run of entries [chunk] that begins at the place
    [first] of the column: its views were taken at the first and at the
    last entry of the run, the iterator stands behind the run at the call,
    and the run was cut as soon as its size reached [compact_size]. *)
Definition compacts (compact_size : Z) (first : nat)
    (chunk : list (string * string)) (call : compaction) : Prop :=
  chunk <> [] /\
  start call = key_view first /\
  end_ call = key_view (first + length chunk - 1) /\
  place_at_call call = (first + length chunk)%nat /\
  current_size call = size_of chunk /\
  size_of (List.removelast chunk) < compact_size.

(** The calls are made for the runs, one after the other, from the place
    [first] on. *)
Fixpoint covers (compact_size : Z) (first : nat)
    (chunks : list (list (string * string))) (calls : list compaction)
  : Prop :=
  match chunks, calls with
  | [], [] => True
  | chunk :: chunks', call :: calls' =>
      compacts compact_size first chunk call /\
      covers compact_size (first + length chunk) chunks' calls'
  | _, _ => False
  end.

End compact.

(** ** What a batch holds for a key *)

(** The operands that the merges of a batch bring to a key, in the order
    of the batch. *)
Definition merged_values (column : N) (key : string) (b : WriteBatch)
  : list string :=
  flat_map
    (fun op =>
       match op with
       | Merge c k v =>
           if N.eqb c column && String.eqb k key then [v] else []
       | Put _ _ _ => []
       end) b.

(** Whether an operation is a put. *)
Definition is_put (op : batch_op) : bool :=
  match op with
  | Put _ _ _ => true
  | Merge _ _ _ => false
  end.

(** The cell of a key, an empty one when the store has none. *)
Definition cell_of (c : gmap (N * string) cell) (column : N) (key : string)
  : cell :=
  default {| base := None; operands := [] |} (c !! (column, key)).

(** The tokens of a document, attribute after attribute. *)
Definition document_tokens (doc : document.t) : list token.t :=
  flat_map attribute.tokens (indexes.attributes (document.idx doc)).

(** ** A reference codec

    An instance of the serialization interfaces on which the definitions
    above run: a letter for the type, then one decimal digit per number.
    It accepts a value only under the letter of the type asked for, and on
    a value it rejects it leaves the object as constructed. *)

Module reference_codec.

Definition digit (n : N) : ascii := ascii_of_N (48 + n)%N.
Definition undigit (c : ascii) : N := (N_of_ascii c - 48)%N.

Definition digits (l : list N) : string :=
  string_of_list_ascii (List.map digit l).
Definition undigits (s : string) : list N :=
  List.map undigit (list_ascii_of_string s).

Definition id_numbers (i : id_t) : list N :=
  [Z.to_N (tsec i); Z.to_N (tnsec i); Z.to_N (seq i)].

Fixpoint numbers_ids (l : list N) : option (list document_for_index) :=
  match l with
  | [] => Some []
  | a :: b :: c :: rest =>
      match numbers_ids rest with
      | Some ds =>
          Some ({| indexed_id := mk_id (Z.of_N a) (Z.of_N b) (Z.of_N c) |} :: ds)
      | None => None
      end
  | _ => None
  end.

Definition EINVAL : Z := 22.

Definition rejected : error_info :=
  create_error (- EINVAL) "could not unpack data".

(** The body of a value under the letter [tag], when it has that letter. *)
Definition tagged (tag : ascii) (data : string) : option (list N) :=
  match data with
  | String c body => if Ascii.eqb c tag then Some (undigits body) else None
  | EmptyString => None
  end.

#[global] Instance serialize_id : Serialize id_t :=
  fun i => String "T" (digits (id_numbers i)).

#[global] Instance serialize_document_for_index : Serialize document_for_index :=
  fun d => String "D" (digits (id_numbers (indexed_id d))).

#[global] Instance deserialize_document_for_index
  : Deserialize document_for_index :=
  fun data =>
    match tagged "D" data with
    | Some [a; b; c] =>
        (no_error, {| indexed_id := mk_id (Z.of_N a) (Z.of_N b) (Z.of_N c) |})
    | _ => (rejected, {| indexed_id := mk_id 0 0 0 |})
    end.

#[global] Instance serialize_disk_index : Serialize disk_index :=
  fun index =>
    String "I" (digits (concat (List.map (fun d => id_numbers (indexed_id d))
                                  (ids index)))).

#[global] Instance deserialize_disk_index : Deserialize disk_index :=
  fun data =>
    match tagged "I" data with
    | Some l =>
        match numbers_ids l with
        | Some ds => (no_error, {| ids := ds |})
        | None => (rejected, {| ids := [] |})
        end
    | None => (rejected, {| ids := [] |})
    end.

#[global] Instance serialize_disk_token : Serialize disk_token :=
  fun dt => String "S" (digits (shards dt)).

#[global] Instance deserialize_disk_token : Deserialize disk_token :=
  fun data =>
    match tagged "S" data with
    | Some l => (no_error, {| shards := l |})
    | None => (rejected, {| shards := [] |})
    end.

#[global] Instance serialize_metadata : Serialize metadata :=
  fun m => String "M" (digits [Z.to_N (m_seq m)]).

#[global] Instance serialize_document : Serialize document.t :=
  fun doc =>
    String "d" (String.append (document.mbox doc)
                  (String "/" (document.id doc))).

End reference_codec.

(** ** Sample data *)

Module example.
Import reference_codec.

Definition hello : token.t :=
  token.mk "hello" [0%N] [0%N]
    "index.m1.title.hello.0" "token_shards.m1.title.hello".

Definition world : token.t :=
  token.mk "world" [1%N] [0%N]
    "index.m1.title.world.0" "token_shards.m1.title.world".

Definition d1 : document.t :=
  document.mk "m1" "d1" "" (mk_id 1 0 7)
    (content.mk "" "hello world" [] [])
    (indexes.mk [attribute.mk "title" [hello; world]] []).

Definition empty_engine : DB := {| cells := ∅; health := kOk |}.

Definition failing_engine : DB := {| cells := ∅; health := kIOError |}.

(** An engine whose shard-set key holds a value that is no shard set. *)
Definition corrupt_engine : DB :=
  {| cells := {[ (default_column, "token_shards.m1.title.hello") :=
                   {| base := Some "junk"; operands := [] |} ]};
     health := kOk |}.

Definition database_on (db : DB) : database :=
  {| m_db := db; m_opts := default_options; m_meta := metadata_new |}.

Definition read_only_database_on (db : DB) : read_only_database :=
  {| ro_m_db := db; ro_m_opts := default_options |}.

Definition server_docs_down : http_server :=
  {| m_db_docs := database_on failing_engine;
     m_db_indexes := database_on empty_engine;
     history := [] |}.

Definition server_up : http_server :=
  {| m_db_docs := database_on empty_engine;
     m_db_indexes := database_on empty_engine;
     history := [] |}.

(** A document that arrives with the keys of its tokens in place. *)
Definition keys_in_place (o : options) (doc : document.t) : document.t := doc.

Definition id_digits (i : id_t) : string := digits (id_numbers i).

(** A tokenizer that splits at single spaces. *)
Fixpoint split_spaces (word text : string) : list string :=
  match text with
  | EmptyString => [word]
  | String c text' =>
      if Ascii.eqb c " " then word :: split_spaces "" text'
      else split_spaces (String.append word (String c "")) text'
  end.

End example.

(** ** A codec that reads back all it writes

    A second instance of the serialization interfaces, for the properties
    that ask of the codec that [deserialize] undoes [serialize]: a letter
    for the type, then each number as a sign, as many strokes as its
    magnitude, and a comma. *)

Module tally_codec.

Fixpoint tally (n : nat) (rest : string) : string :=
  match n with
  | O => rest
  | S n' => String "1" (tally n' rest)
  end.

Fixpoint write_numbers (l : list Z) : string :=
  match l with
  | [] => EmptyString
  | z :: l' =>
      String (if z <? 0 then "-"%char else "+"%char)
        (tally (Z.abs_nat z) (String "," (write_numbers l')))
  end.

Definition signed (negative : bool) (n : nat) : Z :=
  if negative then - Z.of_nat n else Z.of_nat n.

(** [current] is the number being read: its sign and the strokes so
    far. *)
Fixpoint read_numbers (s : string) (current : option (bool * nat))
  : option (list Z) :=
  match s with
  | EmptyString =>
      match current with
      | None => Some []
      | Some _ => None
      end
  | String c s' =>
      match current with
      | None =>
          if Ascii.eqb c "+" then read_numbers s' (Some (false, O))
          else if Ascii.eqb c "-" then read_numbers s' (Some (true, O))
          else None
      | Some (negative, n) =>
          if Ascii.eqb c "1" then read_numbers s' (Some (negative, S n))
          else if Ascii.eqb c "," then
            match read_numbers s' None with
            | Some l => Some (signed negative n :: l)
            | None => None
            end
          else None
      end
  end.

Definition read_tagged (tag : ascii) (data : string) : option (list Z) :=
  match data with
  | String c body => if Ascii.eqb c tag then read_numbers body None else None
  | EmptyString => None
  end.

Definition id_numbers (i : id_t) : list Z := [tsec i; tnsec i; seq i].

Fixpoint numbers_ids (l : list Z) : option (list document_for_index) :=
  match l with
  | [] => Some []
  | a :: b :: c :: rest =>
      match numbers_ids rest with
      | Some ds => Some ({| indexed_id := mk_id a b c |} :: ds)
      | None => None
      end
  | _ => None
  end.

Definition rejected : error_info :=
  create_error (- 22) "could not unpack data".

#[export] Instance serialize_document_for_index
  : Serialize document_for_index :=
  fun d => String "D" (write_numbers (id_numbers (indexed_id d))).

#[export] Instance deserialize_document_for_index
  : Deserialize document_for_index :=
  fun data =>
    match read_tagged "D" data with
    | Some [a; b; c] => (no_error, {| indexed_id := mk_id a b c |})
    | _ => (rejected, {| indexed_id := mk_id 0 0 0 |})
    end.

#[export] Instance serialize_disk_index : Serialize disk_index :=
  fun index =>
    String "I"
      (write_numbers
         (concat (List.map (fun d => id_numbers (indexed_id d)) (ids index)))).

#[export] Instance deserialize_disk_index : Deserialize disk_index :=
  fun data =>
    match read_tagged "I" data with
    | Some l =>
        match numbers_ids l with
        | Some ds => (no_error, {| ids := ds |})
        | None => (rejected, {| ids := [] |})
        end
    | None => (rejected, {| ids := [] |})
    end.

#[export] Instance serialize_disk_token : Serialize disk_token :=
  fun dt => String "S" (write_numbers (List.map Z.of_N (shards dt))).

#[export] Instance deserialize_disk_token : Deserialize disk_token :=
  fun data =>
    match read_tagged "S" data with
    | Some l =>
        if forallb (fun z => 0 <=? z) l
        then (no_error, {| shards := List.map Z.to_N l |})
        else (rejected, {| shards := [] |})
    | None => (rejected, {| shards := [] |})
    end.

End tally_codec.

(** ** More sample data *)

Module sample.

(** The reader that goes with [reference_codec.serialize_metadata]. *)
Definition read_metadata (m : metadata) (data : string)
  : error_info * metadata :=
  match reference_codec.tagged "M" data with
  | Some [n] => (no_error, {| m_dirty := m_dirty m; m_seq := Z.of_N n |})
  | _ => (reference_codec.rejected, m)
  end.

(** A database that has handed out the sequence numbers up to 6 since its
    metadata were last flushed. *)
Definition used_database : database :=
  {| m_db := example.empty_engine; m_opts := default_options;
     m_meta := {| m_dirty := true; m_seq := 7 |} |}.

(** A JSON value, and the accessors over it, to run [parse_docs] on. *)
#[warnings="-register-all"]
Inductive json : Type :=
| JNull
| JString (s : string)
| JNumber (z : Z)
| JArray (a : list json)
| JObject (members : list (string * json)).

Fixpoint member (ms : list (string * json)) (name : string) : option json :=
  match ms with
  | [] => None
  | (k, v) :: rest => if String.eqb k name then Some v else member rest name
  end.

Definition json_member (v : json) (name : string) : option json :=
  match v with
  | JObject ms => member ms name
  | _ => None
  end.

Definition IsObject (v : json) : bool :=
  match v with JObject _ => true | _ => false end.
Definition IsArray (v : json) : bool :=
  match v with JArray _ => true | _ => false end.
Definition IsString (v : json) : bool :=
  match v with JString _ => true | _ => false end.
Definition GetString (v : json) : string :=
  match v with JString s => s | _ => EmptyString end.
Definition elements (v : json) : list json :=
  match v with JArray a => a | _ => [] end.
Definition get_string (v : json) (name : string) : option string :=
  match json_member v name with
  | Some (JString s) => Some s
  | _ => None
  end.
Definition get_string_or (v : json) (name default : string) : string :=
  match get_string v name with
  | Some s => s
  | None => default
  end.
Definition get_object (v : json) (name : string) : json :=
  match json_member v name with
  | Some (JObject ms) => JObject ms
  | _ => JNull
  end.
Definition get_array (v : json) (name : string) : json :=
  match json_member v name with
  | Some (JArray a) => JArray a
  | _ => JNull
  end.
Definition get_int64 (v : json) (name : string) (default : Z) : Z :=
  match json_member v name with
  | Some (JNumber z) => z
  | _ => default
  end.

Definition clock_gettime (n : nat) : Z * Z := (1 + Z.of_nat n, 0).
Definition hash (s : string) : N := N.of_nat (String.length s).
Definition assign_id (doc : document.t) (id : string) (seq : N)
    (tsec tnsec : Z) : document.t :=
  document.mk (document.mbox doc) id (document.author doc)
    (mk_id tsec tnsec (Z.of_N seq)) (document.ctx doc) (document.idx doc).
Definition get_indexes (o : options) (idxs : json) : indexes.t :=
  indexes.mk [attribute.mk "title" [example.hello]] [].
Definition new_document : document.t :=
  document.mk "" "" "" (mk_id 0 0 0) (content.mk "" "" [] [])
    (indexes.mk [] []).

(** [parse_docs] over these. *)
Definition parse_docs (mbox : string) (docs : list json)
    (srv : http_server) : error_info * http_server :=
  on_index.parse_docs example.keys_in_place example.id_digits json
    IsObject IsArray IsString GetString elements get_string get_string_or
    get_object get_array get_int64 clock_gettime hash assign_id get_indexes
    new_document mbox docs srv.

Definition request_d1 : json :=
  JObject [("id", JString "d1");
           ("content", JObject [("title", JString "hello world")]);
           ("index", JObject [])].

Definition request_d2 : json :=
  JObject [("id", JString "d2");
           ("author", JString "a2");
           ("index", JObject [])].

Definition entry_document (mbox : string) (n : nat) (it : json)
    (opts : options) : option document.t :=
  on_index.entry_document json IsObject IsArray IsString GetString elements
    get_string get_string_or get_object get_array get_int64 clock_gettime
    hash assign_id get_indexes new_document mbox n it opts.

(** A parser for the request bodies of the samples. *)
Definition Parse (data : string) : option json :=
  if String.eqb data "no mailbox" then
    Some (JObject [("docs", JArray [request_d1])])
  else if String.eqb data "one document" then
    Some (JObject [("mailbox", JString "m1");
                   ("docs", JArray [request_d1])])
  else if String.eqb data "two documents" then
    Some (JObject [("mailbox", JString "m1");
                   ("docs", JArray [request_d1; request_d2])])
  else None.

Definition on_request (data : string) (srv : http_server)
  : list reply * http_server :=
  on_index.on_request example.keys_in_place example.id_digits json
    IsObject IsArray IsString GetString elements get_string get_string_or
    get_object get_array get_int64 clock_gettime hash assign_id get_indexes
    new_document Parse data srv.

(** A server whose index store refuses every call. *)
Definition server_indexes_down : http_server :=
  {| m_db_docs := example.database_on example.empty_engine;
     m_db_indexes := example.database_on example.failing_engine;
     history := [] |}.

(** A server whose index store holds shard 3 for the token [hello]. *)
Definition indexed_before : http_server :=
  {| m_db_docs := example.database_on example.empty_engine;
     m_db_indexes :=
       example.database_on
         {| cells :=
              {[ (default_column, "token_shards.m1.title.hello") :=
                   {| base :=
                        Some (@serialize _ tally_codec.serialize_disk_token
                                {| shards := [3%N] |});
                      operands := [] |} ]};
            health := kOk |};
     history := [] |}.

End sample.

(** * Properties *)

(** ** [std::set] over a strict total order *)

Section StdSetFacts.
Context {T : Type} (lt : T -> T -> bool).
Hypothesis lt_irrefl : forall x, lt x x = false.
Hypothesis lt_trans :
  forall x y z, lt x y = true -> lt y z = true -> lt x z = true.
Hypothesis lt_total : forall x y, lt x y = false -> lt y x = false -> x = y.

Lemma In_set_insert (x z : T) (s : list T) :
  In z (set_insert lt x s) <-> z = x \/ In z s.
Proof.
  induction s as [|y s IH]; simpl.
  - intuition.
  - destruct (lt x y) eqn:Hxy; simpl.
    + intuition.
    + destruct (lt y x) eqn:Hyx; simpl.
      * rewrite IH. intuition.
      * assert (x = y) by (apply lt_total; assumption). subst. intuition.
Qed.

Lemma In_set_insert_range (xs : list T) (z : T) (s : list T) :
  In z (set_insert_range lt xs s) <-> In z xs \/ In z s.
Proof.
  revert s. induction xs as [|x xs IH]; intros s; simpl.
  - intuition.
  - rewrite IH, In_set_insert. intuition.
Qed.

Lemma set_insert_ascending (x : T) (s : list T) :
  ascending lt s -> ascending lt (set_insert lt x s).
Proof.
  unfold ascending. induction 1 as [|y s Hs IH Hy]; simpl.
  - repeat constructor.
  - destruct (lt x y) eqn:Hxy.
    + constructor; [constructor; assumption|].
      constructor; [assumption|].
      rewrite List.Forall_forall in *. intros z Hz. eauto.
    + destruct (lt y x) eqn:Hyx.
      * constructor; [assumption|].
        rewrite List.Forall_forall in *. intros z Hz.
        apply In_set_insert in Hz. destruct Hz as [->|Hz]; auto.
      * constructor; assumption.
Qed.

Lemma set_insert_range_ascending (xs s : list T) :
  ascending lt s -> ascending lt (set_insert_range lt xs s).
Proof.
  revert s. induction xs as [|x xs IH]; intros s Hs; simpl.
  - assumption.
  - apply IH, set_insert_ascending, Hs.
Qed.

Lemma ascending_NoDup (s : list T) : ascending lt s -> List.NoDup s.
Proof.
  unfold ascending. induction 1 as [|y s Hs IH Hy]; constructor; auto.
  intros Hin. rewrite List.Forall_forall in Hy. specialize (Hy _ Hin).
  rewrite lt_irrefl in Hy. discriminate.
Qed.

(** Two strictly ascending lists with the same elements are the same
    list: the iteration order of a set is fixed by its contents. *)
Lemma ascending_ext (s1 s2 : list T) :
  ascending lt s1 -> ascending lt s2 ->
  (forall z, In z s1 <-> In z s2) -> s1 = s2.
Proof.
  unfold ascending. intros H1. revert s2.
  induction H1 as [|x s1 Hs1 IH Hx]; intros s2 H2 Hin.
  - destruct s2 as [|y s2]; [reflexivity|].
    exfalso. apply (Hin y). left. reflexivity.
  - destruct H2 as [|y s2 Hs2 Hy].
    + exfalso. apply (Hin x). left. reflexivity.
    + rewrite List.Forall_forall in Hx, Hy.
      assert (Hxy : x = y).
      { destruct (proj1 (Hin x) (or_introl eq_refl)) as [E|Hxs2]; [auto|].
        destruct (proj2 (Hin y) (or_introl eq_refl)) as [E|Hys1]; [auto|].
        pose proof (Hy _ Hxs2) as A. pose proof (Hx _ Hys1) as B.
        pose proof (lt_trans _ _ _ A B) as C.
        rewrite lt_irrefl in C. discriminate. }
      subst y. f_equal. apply IH; [assumption|].
      intros z. split; intros Hz.
      * destruct (proj1 (Hin z) (or_intror Hz)) as [E|Hz2]; [|assumption].
        subst z. specialize (Hx _ Hz). rewrite lt_irrefl in Hx. discriminate.
      * destruct (proj2 (Hin z) (or_intror Hz)) as [E|Hz1]; [|assumption].
        subst z. specialize (Hy _ Hz). rewrite lt_irrefl in Hy. discriminate.
Qed.
End StdSetFacts.

(** ** The orders of the two kinds of set *)

Ltac split_ltb :=
  repeat match goal with
         | H : context [Z.ltb ?x ?y] |- _ => destruct (Z.ltb_spec x y)
         | |- context [Z.ltb ?x ?y] => destruct (Z.ltb_spec x y)
         end.

Lemma id_lt_irrefl (a : id_t) : id_lt a a = false.
Proof. unfold id_lt. split_ltb; try reflexivity; lia. Qed.

Lemma id_lt_trans (a b c : id_t) :
  id_lt a b = true -> id_lt b c = true -> id_lt a c = true.
Proof.
  unfold id_lt. intros Hab Hbc.
  split_ltb; try reflexivity; try discriminate; lia.
Qed.

Lemma id_lt_total (a b : id_t) :
  id_lt a b = false -> id_lt b a = false -> a = b.
Proof.
  destruct a as [a1 a2 a3], b as [b1 b2 b3]. unfold id_lt; simpl.
  intros Hab Hba.
  split_ltb; try discriminate; f_equal; lia.
Qed.

Lemma dfi_lt_irrefl (a : document_for_index) : dfi_lt a a = false.
Proof. apply id_lt_irrefl. Qed.

Lemma dfi_lt_trans (a b c : document_for_index) :
  dfi_lt a b = true -> dfi_lt b c = true -> dfi_lt a c = true.
Proof. apply id_lt_trans. Qed.

Lemma dfi_lt_total (a b : document_for_index) :
  dfi_lt a b = false -> dfi_lt b a = false -> a = b.
Proof.
  destruct a as [a], b as [b]. unfold dfi_lt; simpl.
  intros Hab Hba. f_equal. apply id_lt_total; assumption.
Qed.

Lemma N_ltb_irrefl (a : N) : N.ltb a a = false.
Proof. apply N.ltb_irrefl. Qed.

Lemma N_ltb_trans (a b c : N) :
  N.ltb a b = true -> N.ltb b c = true -> N.ltb a c = true.
Proof. rewrite !N.ltb_lt. lia. Qed.

Lemma N_ltb_total (a b : N) :
  N.ltb a b = false -> N.ltb b a = false -> a = b.
Proof. rewrite !N.ltb_ge. lia. Qed.

(** ** The key prefixes of [FullMerge] *)

Lemma append_cons (c : ascii) (p rest : string) :
  String.append (String c p) rest = String c (String.append p rest).
Proof. reflexivity. Qed.

Lemma starts_with_spec (key p : string) :
  starts_with key p = true <-> exists rest, key = String.append p rest.
Proof.
  revert key. induction p as [|c p IH]; intros key; simpl.
  - split; [intros _; exists key; reflexivity | reflexivity].
  - destruct key as [|d key].
    + split; [discriminate | intros [rest Hr]; discriminate].
    + destruct (Ascii.eqb_spec c d) as [->|Hcd].
      * rewrite IH.
        split; intros [rest Hr]; exists rest; rewrite append_cons in *;
          congruence.
      * split; [discriminate|].
        intros [rest Hr]. rewrite append_cons in Hr. congruence.
Qed.

(** ** Deserializing a list of operands *)

Section DecodeFacts.
Context {T : Type} `{Deserialize T}.

Lemma decode_all_None (values : list string) :
  decode_all (T := T) values = None <-> In None (map decode values).
Proof.
  induction values as [|v values IH]; simpl.
  - split; [discriminate | intros []].
  - destruct (decode v) as [t|] eqn:Hv.
    + destruct (decode_all values) as [ts|].
      * split; [discriminate|]. intros [E|Hin]; [discriminate|].
        apply IH in Hin. discriminate.
      * split; [intros _; right; apply IH; reflexivity | reflexivity].
    + split; [intros _; left; reflexivity | reflexivity].
Qed.

Lemma decode_all_In (values : list string) (ts : list T) :
  decode_all values = Some ts ->
  forall t, In t ts <-> In (Some t) (map decode values).
Proof.
  revert ts. induction values as [|v values IH]; intros ts; simpl.
  - intros [= <-] t. reflexivity.
  - destruct (decode v) as [t0|] eqn:Hv; [|discriminate].
    destruct (decode_all values) as [ts0|]; [|discriminate].
    intros [= <-] t. simpl. rewrite (IH ts0 eq_refl t).
    split; (intros [E|Hin]; [left; congruence | right; assumption]).
Qed.

Lemma decode_all_In_value (values : list string) (ts : list T) :
  decode_all values = Some ts ->
  forall t, In t ts <-> exists v, In v values /\ decode v = Some t.
Proof.
  intros Hall t. rewrite (decode_all_In _ _ Hall), in_map_iff.
  split; intros [v [A B]]; exists v; auto.
Qed.

Lemma decode_all_app (l1 l2 : list string) :
  decode_all (T := T) (l1 ++ l2) =
  match decode_all l1, decode_all l2 with
  | Some t1, Some t2 => Some (t1 ++ t2)
  | _, _ => None
  end.
Proof.
  induction l1 as [|v l1 IH]; simpl.
  - destruct (decode_all l2); reflexivity.
  - destruct (decode v); [|reflexivity]. rewrite IH.
    destruct (decode_all l1); [|reflexivity].
    destruct (decode_all l2); reflexivity.
Qed.
End DecodeFacts.

(** ** The merge operator *)

Section MergeFacts.
Context `{Deserialize disk_index, Serialize disk_index,
          Deserialize document_for_index,
          Deserialize disk_token, Serialize disk_token}.

Lemma merge_index_operands_decode (operand_list : list string)
    (unique_index : list document_for_index) :
  merge_index_operands operand_list unique_index =
  match decode_all operand_list with
  | Some dids => Some (set_insert_range dfi_lt dids unique_index)
  | None => None
  end.
Proof.
  revert unique_index.
  induction operand_list as [|v ops IH]; intros s; simpl; [reflexivity|].
  unfold decode. destruct (deserialize v) as [err did].
  destruct (is_error err); [reflexivity|].
  rewrite IH. destruct (decode_all ops); reflexivity.
Qed.

Lemma merge_index_decode (key : string) (old_value : option string)
    (operand_list : list string) :
  merge_index key old_value operand_list =
  match old_value with
  | Some ov =>
      match decode ov, decode_all operand_list with
      | Some index, Some dids =>
          Some (serialize
                  {| ids := set_insert_range dfi_lt dids
                              (set_insert_range dfi_lt (ids index) []) |})
      | _, _ => None
      end
  | None =>
      match decode_all operand_list with
      | Some dids =>
          Some (serialize {| ids := set_insert_range dfi_lt dids [] |})
      | None => None
      end
  end.
Proof.
  unfold merge_index. destruct old_value as [ov|].
  - unfold decode at 1. destruct (deserialize ov) as [err index].
    destruct (is_error err); [reflexivity|].
    rewrite merge_index_operands_decode.
    destruct (decode_all operand_list); reflexivity.
  - rewrite merge_index_operands_decode.
    destruct (decode_all operand_list); reflexivity.
Qed.

Lemma set_insert_range_app {T : Type} (lt : T -> T -> bool)
    (xs ys s : list T) :
  set_insert_range lt (xs ++ ys) s =
  set_insert_range lt ys (set_insert_range lt xs s).
Proof.
  revert s. induction xs as [|x xs IH]; intros s; simpl; auto.
Qed.

Lemma merge_token_shards_operands_decode (operand_list : list string)
    (shards_set : list N) :
  merge_token_shards_operands operand_list shards_set =
  match decode_all operand_list with
  | Some dts =>
      Some (set_insert_range N.ltb (concat (map shards dts)) shards_set)
  | None => None
  end.
Proof.
  revert shards_set.
  induction operand_list as [|v ops IH]; intros s; simpl; [reflexivity|].
  unfold decode. destruct (deserialize v) as [err dt].
  destruct (is_error err); [reflexivity|].
  rewrite IH. destruct (decode_all ops); [|reflexivity].
  simpl. rewrite set_insert_range_app. reflexivity.
Qed.

Lemma merge_token_shards_decode (key : string) (old_value : option string)
    (operand_list : list string) :
  merge_token_shards key old_value operand_list =
  match old_value with
  | Some ov =>
      match decode ov, decode_all operand_list with
      | Some dt, Some dts =>
          Some (serialize
                  {| shards := set_insert_range N.ltb (concat (map shards dts))
                                 (set_insert_range N.ltb (shards dt) []) |})
      | _, _ => None
      end
  | None =>
      match decode_all operand_list with
      | Some dts =>
          Some (serialize
                  {| shards := set_insert_range N.ltb
                                 (concat (map shards dts)) [] |})
      | None => None
      end
  end.
Proof.
  unfold merge_token_shards. destruct old_value as [ov|].
  - unfold decode at 1. destruct (deserialize ov) as [err dt].
    destruct (is_error err); [reflexivity|].
    rewrite merge_token_shards_operands_decode.
    destruct (decode_all operand_list); reflexivity.
  - rewrite merge_token_shards_operands_decode.
    destruct (decode_all operand_list); reflexivity.
Qed.

(** C1.  [FullMerge] dispatches on the prefix of the key: under
    ["token_shards."] it is the shard-set merge; otherwise, under
    ["index."], it is the posting-list merge; for every other key it fails
    and produces no value. *)
Theorem FullMerge_dispatches_by_prefix (key : string)
    (old_value : option string) (operand_list : list string) :
  ((exists rest, key = String.append "token_shards." rest) ->
   FullMerge key old_value operand_list =
   merge_token_shards key old_value operand_list) /\
  (~ (exists rest, key = String.append "token_shards." rest) ->
   (exists rest, key = String.append "index." rest) ->
   FullMerge key old_value operand_list =
   merge_index key old_value operand_list) /\
  (~ (exists rest, key = String.append "token_shards." rest) ->
   ~ (exists rest, key = String.append "index." rest) ->
   FullMerge key old_value operand_list = None).
Proof.
  unfold FullMerge. rewrite <- !starts_with_spec.
  destruct (starts_with key "token_shards.");
    destruct (starts_with key "index."); intuition congruence.
Qed.
End MergeFacts.

(** A key under ["token_shards."], merged by the shard-set merge. *)
Lemma FullMerge_dispatches_by_prefix_witness :
  (exists rest, "token_shards.m1.to.hello" = String.append "token_shards." rest) /\
  FullMerge "token_shards.m1.to.hello" (Some "S31") ["S2"; "S1"] =
  merge_token_shards "token_shards.m1.to.hello" (Some "S31") ["S2"; "S1"].
Proof.
  assert (Hp : exists rest,
             "token_shards.m1.to.hello" = String.append "token_shards." rest)
    by (exists "m1.to.hello"; reflexivity).
  split; [exact Hp|].
  exact (proj1 (FullMerge_dispatches_by_prefix
                  "token_shards.m1.to.hello" (Some "S31") ["S2"; "S1"]) Hp).
Defined.

(** ** The merges as set unions *)

Section MergeSetFacts.
Context `{Deserialize disk_index, Serialize disk_index,
          Deserialize document_for_index,
          Deserialize disk_token, Serialize disk_token}.

Lemma ascending_nil {T : Type} (lt : T -> T -> bool) : ascending lt [].
Proof. constructor. Qed.

Lemma index_set_ascending (dids ids0 : list document_for_index) :
  ascending dfi_lt
    (set_insert_range dfi_lt dids (set_insert_range dfi_lt ids0 [])).
Proof.
  do 2 apply (set_insert_range_ascending _ dfi_lt_trans dfi_lt_total).
  apply ascending_nil.
Qed.

Lemma index_set_In (dids ids0 : list document_for_index)
    (d : document_for_index) :
  In d (set_insert_range dfi_lt dids (set_insert_range dfi_lt ids0 [])) <->
  In d ids0 \/ In d dids.
Proof.
  rewrite !(In_set_insert_range _ dfi_lt_total). simpl. intuition.
Qed.

Lemma shard_set_ascending (xs ys : list N) :
  ascending N.ltb
    (set_insert_range N.ltb xs (set_insert_range N.ltb ys [])).
Proof.
  do 2 apply (set_insert_range_ascending _ N_ltb_trans N_ltb_total).
  apply ascending_nil.
Qed.

Lemma shard_set_In (xs ys : list N) (n : N) :
  In n (set_insert_range N.ltb xs (set_insert_range N.ltb ys [])) <->
  In n ys \/ In n xs.
Proof.
  rewrite !(In_set_insert_range _ N_ltb_total). simpl. intuition.
Qed.

Lemma In_concat_shards (dts : list disk_token) (n : N) :
  In n (concat (map shards dts)) <-> exists dt, In dt dts /\ In n (shards dt).
Proof.
  rewrite in_concat. split.
  - intros [l [Hl Hn]]. apply in_map_iff in Hl. destruct Hl as [dt [<- Hdt]].
    exists dt. auto.
  - intros [dt [Hdt Hn]]. exists (shards dt). split; [|assumption].
    apply in_map. assumption.
Qed.

(** C2.  A merge that succeeds emits a value that is strictly ascending
    and so free of duplicates.  [merge_index] emits the posting list whose
    ids are exactly those of the old value together with those of the
    operands, strictly ascending by [indexed_id]; [merge_token_shards]
    emits the shard set whose shards are exactly those of the old value
    together with those of the operands, strictly ascending.  This holds
    for every old value, present or absent, and every operand list. *)
Theorem merge_emits_ascending_union :
  (forall (key : string) (old_value : option string)
          (operand_list : list string) (new_value : string),
      merge_index key old_value operand_list = Some new_value ->
      exists unique_index : list document_for_index,
        new_value = serialize {| ids := unique_index |} /\
        ascending dfi_lt unique_index /\
        List.NoDup unique_index /\
        forall did : document_for_index,
          In did unique_index <->
          (exists ov index,
              old_value = Some ov /\ decode ov = Some index /\
              In did (ids index)) \/
          (exists value, In value operand_list /\ decode value = Some did)) /\
  (forall (key : string) (old_value : option string)
          (operand_list : list string) (new_value : string),
      merge_token_shards key old_value operand_list = Some new_value ->
      exists shards_set : list N,
        new_value = serialize {| shards := shards_set |} /\
        ascending N.ltb shards_set /\
        List.NoDup shards_set /\
        forall shard : N,
          In shard shards_set <->
          (exists ov dt,
              old_value = Some ov /\ decode ov = Some dt /\
              In shard (shards dt)) \/
          (exists value dt,
              In value operand_list /\ decode value = Some dt /\
              In shard (shards dt))).
Proof.
  split; intros key old_value operand_list new_value Hm.
  - rewrite merge_index_decode in Hm.
    destruct old_value as [ov|].
    + destruct (decode ov) as [index|] eqn:Hov; [|discriminate].
      destruct (decode_all operand_list) as [dids|] eqn:Hops; [|discriminate].
      injection Hm as <-.
      eexists. split; [reflexivity|].
      split; [apply index_set_ascending|].
      split; [apply (ascending_NoDup dfi_lt dfi_lt_irrefl),
                index_set_ascending|].
      intros did. rewrite index_set_In, (decode_all_In_value _ _ Hops).
      split.
      * intros [Hin|Hin]; [left; exists ov, index; auto | right; assumption].
      * intros [[ov' [index' [Hov' [Hd Hin]]]]|Hin]; [left | right; assumption].
        injection Hov' as <-. rewrite Hov in Hd. injection Hd as <-.
        assumption.
    + destruct (decode_all operand_list) as [dids|] eqn:Hops; [|discriminate].
      injection Hm as <-.
      exists (set_insert_range dfi_lt dids (set_insert_range dfi_lt [] [])).
      split; [reflexivity|].
      split; [apply index_set_ascending|].
      split; [apply (ascending_NoDup dfi_lt dfi_lt_irrefl),
                index_set_ascending|].
      intros did. rewrite index_set_In, (decode_all_In_value _ _ Hops).
      split.
      * intros [[]|Hin]. right; assumption.
      * intros [[ov' [index' [Hov' _]]]|Hin]; [discriminate | right; assumption].
  - rewrite merge_token_shards_decode in Hm.
    assert (Hall : forall dts, decode_all operand_list = Some dts ->
              forall n, In n (concat (map shards dts)) <->
                exists value dt, In value operand_list /\
                  decode value = Some dt /\ In n (shards dt)).
    { intros dts Hops n. rewrite In_concat_shards. split.
      - intros [dt [Hdt Hn]].
        apply (decode_all_In_value _ _ Hops) in Hdt.
        destruct Hdt as [v [Hv Hd]]. exists v, dt. auto.
      - intros [v [dt [Hv [Hd Hn]]]]. exists dt. split; [|assumption].
        apply (decode_all_In_value _ _ Hops). exists v. auto. }
    destruct old_value as [ov|].
    + destruct (decode ov) as [dt0|] eqn:Hov; [|discriminate].
      destruct (decode_all operand_list) as [dts|] eqn:Hops; [|discriminate].
      injection Hm as <-.
      eexists. split; [reflexivity|].
      split; [apply shard_set_ascending|].
      split; [apply (ascending_NoDup N.ltb N_ltb_irrefl),
                shard_set_ascending|].
      intros n. rewrite shard_set_In, (Hall dts eq_refl).
      split.
      * intros [Hin|Hin]; [left; exists ov, dt0; auto | right; assumption].
      * intros [[ov' [dt' [Hov' [Hd Hin]]]]|Hin]; [left | right; assumption].
        injection Hov' as <-. rewrite Hov in Hd. injection Hd as <-.
        assumption.
    + destruct (decode_all operand_list) as [dts|] eqn:Hops; [|discriminate].
      injection Hm as <-.
      exists (set_insert_range N.ltb (concat (map shards dts))
                (set_insert_range N.ltb [] [])).
      split; [reflexivity|].
      split; [apply shard_set_ascending|].
      split; [apply (ascending_NoDup N.ltb N_ltb_irrefl),
                shard_set_ascending|].
      intros n. rewrite shard_set_In, (Hall dts eq_refl).
      split.
      * intros [[]|Hin]. right; assumption.
      * intros [[ov' [dt' [Hov' _]]]|Hin]; [discriminate | right; assumption].
Qed.
End MergeSetFacts.

(** An old posting list of two ids merged with two operands, one of them
    already in the list. *)
Lemma merge_emits_ascending_union_witness :
  merge_index "index.m1.to.hello.0" (Some "I107208") ["D305"; "D107"] =
    Some "I107208305" /\
  exists unique_index : list document_for_index,
    "I107208305" = serialize {| ids := unique_index |} /\
    ascending dfi_lt unique_index /\
    List.NoDup unique_index /\
    forall did : document_for_index,
      In did unique_index <->
      (exists ov index,
          Some "I107208" = Some ov /\ decode ov = Some index /\
          In did (ids index)) \/
      (exists value, In value ["D305"; "D107"] /\ decode value = Some did).
Proof.
  split; [vm_compute; reflexivity|].
  apply (proj1 merge_emits_ascending_union
           "index.m1.to.hello.0" (Some "I107208") ["D305"; "D107"]).
  vm_compute; reflexivity.
Defined.

(** ** The posting-list merge does not depend on the order or the
       multiplicity of its operands *)

Section MergeIndexUnion.
Context `{Deserialize disk_index, Serialize disk_index,
          Deserialize document_for_index}.



End MergeIndexUnion.


(** ** Phrase re-verification *)

Section CheckExact.
Import on_search.

Lemma size_t_add_small (a b : N) :
  (a + b < 2 ^ 64)%N -> size_t_add a b = (a + b)%N.
Proof. intros Hs. unfold size_t_add. apply N.mod_small. assumption. Qed.

Lemma check_positions_true (token_name : string) (positions : list N)
    (content : list string) (content_offset : N) :
  (forall p, In p positions -> (content_offset + p < 2 ^ 64)%N) ->
  check_positions token_name positions content content_offset = true <->
  forall p, In p positions ->
    (content_offset + p < N.of_nat (length content))%N /\
    nth_error content (N.to_nat (content_offset + p)) = Some token_name.
Proof.
  induction positions as [|pos rest IH]; intros Hwrap; simpl.
  - split; [intros _ p [] | reflexivity].
  - rewrite (size_t_add_small content_offset pos)
      by (apply Hwrap; left; reflexivity).
    destruct (N.leb_spec (N.of_nat (length content)) (content_offset + pos))
      as [Hge|Hlt].
    + split; [discriminate|]. intros Hall.
      destruct (Hall pos (or_introl eq_refl)) as [Hlt _]. lia.
    + destruct (nth_error content (N.to_nat (content_offset + pos)))
        as [word|] eqn:Hnth.
      * destruct (String.eqb_spec token_name word) as [->|Hne]; simpl.
        -- rewrite IH by (intros p Hp; apply Hwrap; right; assumption).
           split.
           ++ intros Hall p [<-|Hp]; [split; assumption | apply Hall, Hp].
           ++ intros Hall p Hp. apply Hall. right. assumption.
        -- split; [discriminate|]. intros Hall.
           destruct (Hall pos (or_introl eq_refl)) as [_ Heq].
           rewrite Hnth in Heq. congruence.
      * split; [discriminate|]. intros Hall.
        destruct (Hall pos (or_introl eq_refl)) as [_ Heq].
        rewrite Hnth in Heq. discriminate.
Qed.

(** The guard of the lambda: a position that falls past the end of the
    content ends the check with [false]; the content is not read there. *)
Lemma check_positions_out_of_bounds (token_name : string)
    (positions : list N) (content : list string) (content_offset p : N) :
  (forall q, In q positions -> (content_offset + q < 2 ^ 64)%N) ->
  In p positions ->
  (N.of_nat (length content) <= content_offset + p)%N ->
  check_positions token_name positions content content_offset = false.
Proof.
  intros Hwrap Hp Hge.
  destruct (check_positions token_name positions content content_offset)
    eqn:Hc; [|reflexivity].
  pose proof (proj1 (check_positions_true _ _ _ _ Hwrap) Hc p Hp)
    as [Hlt _].
  lia.
Qed.

Lemma check_tokens_cons (match_ : bool) (token : token.t)
    (rest : list token.t) (content : list string) (content_offset : N) :
  check_tokens match_ (token :: rest) content content_offset =
  check_token_positions token content content_offset &&
  check_tokens true rest content content_offset.
Proof.
  simpl. destruct (check_token_positions token content content_offset);
    reflexivity.
Qed.

Lemma check_tokens_true (tokens : list token.t) (content : list string)
    (content_offset : N) :
  check_tokens true tokens content content_offset = true <->
  forall t, In t tokens ->
    check_token_positions t content content_offset = true.
Proof.
  induction tokens as [|token rest IH].
  - simpl. split; [intros _ t [] | reflexivity].
  - rewrite check_tokens_cons, andb_true_iff, IH. simpl. split.
    + intros [Ht Hall] t [<-|Hin]; auto.
    + intros Hall. split; [apply Hall; left; reflexivity|].
      intros t Hin. apply Hall. right. assumption.
Qed.

Lemma check_offsets_true (tokens : list token.t) (content : list string)
    (remaining : nat) (content_offset : N) :
  (content_offset + N.of_nat remaining < 2 ^ 64)%N ->
  check_offsets tokens content remaining content_offset = true <->
  exists o : N,
    (content_offset <= o < content_offset + N.of_nat remaining)%N /\
    check_tokens true tokens content o = true.
Proof.
  revert content_offset.
  induction remaining as [|n IH]; intros content_offset Hwrap; simpl.
  - split; [discriminate | intros [o [Ho _]]; lia].
  - destruct (check_tokens true tokens content content_offset) eqn:Hc.
    + split; [|reflexivity]. intros _. exists content_offset.
      split; [lia | assumption].
    + rewrite size_t_add_small by lia. rewrite IH by lia. split.
      * intros [o [Ho Ht]]. exists o. split; [lia | assumption].
      * intros [o [Ho Ht]]. exists o. split; [|assumption].
        assert (o <> content_offset) by congruence. lia.
Qed.
End CheckExact.

(** C4.  [check_exact(tokens, content)] returns true exactly when some
    offset [o] into the content, [0 <= o < content.size()], is such that
    for every pattern token [t] and every position [p] of [t] the place
    [o + p] lies inside the content and holds the word [t.name].  A place
    [o + p] outside the content makes the offset [o] fail; nothing is read
    there.  The positions are unsigned 32-bit numbers and the content has
    fewer than [2^63] words, as every vector has. *)
Theorem check_exact_iff (tokens : list token.t) (content : list string) :
  (forall t p, In t tokens -> In p (token.positions t) -> (p < 2 ^ 32)%N) ->
  (N.of_nat (length content) < 2 ^ 63)%N ->
  (on_search.check_exact tokens content = true <->
   exists o : N,
     (o < N.of_nat (length content))%N /\
     forall t, In t tokens -> forall p, In p (token.positions t) ->
       (o + p < N.of_nat (length content))%N /\
       nth_error content (N.to_nat (o + p)) = Some (token.name t)) /\
  (forall (o : N) t p,
      (o < N.of_nat (length content))%N ->
      In t tokens -> In p (token.positions t) ->
      (N.of_nat (length content) <= o + p)%N ->
      on_search.check_token_positions t content o = false /\
      on_search.check_tokens true tokens content o = false).
Proof.
  intros Hpos Hlen.
  assert (Hwrap : forall (o : N) t,
             (o < N.of_nat (length content))%N -> In t tokens ->
             forall p, In p (token.positions t) -> (o + p < 2 ^ 64)%N).
  { intros o t Ho Ht p Hp. specialize (Hpos t p Ht Hp).
    change (2 ^ 64)%N with 18446744073709551616%N.
    change (2 ^ 63)%N with 9223372036854775808%N in Hlen.
    change (2 ^ 32)%N with 4294967296%N in Hpos. lia. }
  split.
  - unfold on_search.check_exact.
    rewrite check_offsets_true
      by (change (2 ^ 64)%N with 18446744073709551616%N;
          change (2 ^ 63)%N with 9223372036854775808%N in Hlen; lia).
    split.
    + intros [o [Ho Hc]]. exists o. split; [lia|].
      intros t Ht. rewrite check_tokens_true in Hc.
      apply (proj1 (check_positions_true _ _ _ _
                      (Hwrap o t ltac:(lia) Ht))).
      apply Hc, Ht.
    + intros [o [Ho Hall]]. exists o. split; [lia|].
      apply check_tokens_true. intros t Ht.
      apply (proj2 (check_positions_true _ _ _ _ (Hwrap o t Ho Ht))).
      apply Hall, Ht.
  - intros o t p Ho Ht Hp Hge.
    assert (Hf : on_search.check_token_positions t content o = false).
    { apply (check_positions_out_of_bounds _ _ _ _ p);
        [apply (Hwrap o t Ho Ht) | assumption | assumption]. }
    split; [assumption|].
    destruct (on_search.check_tokens true tokens content o) eqn:Hc;
      [|reflexivity].
    rewrite check_tokens_true in Hc. rewrite (Hc t Ht) in Hf. discriminate.
Qed.

(** The pattern [quick(0) fox(1)] against the words [the quick fox]. *)
Lemma check_exact_iff_witness :
  on_search.check_exact
    [token.mk "quick" [0%N] [] "" ""; token.mk "fox" [1%N] [] "" ""]
    ["the"; "quick"; "fox"] = true <->
  exists o : N,
    (o < 3)%N /\
    forall t,
      In t [token.mk "quick" [0%N] [] "" ""; token.mk "fox" [1%N] [] "" ""] ->
      forall p, In p (token.positions t) ->
        (o + p < 3)%N /\
        nth_error ["the"; "quick"; "fox"] (N.to_nat (o + p)) =
        Some (token.name t).
Proof.
  refine (proj1 (check_exact_iff
            [token.mk "quick" [0%N] [] "" ""; token.mk "fox" [1%N] [] "" ""]
            ["the"; "quick"; "fox"] _ _)).
  - intros t p [<-|[<-|[]]] [<-|[]]; reflexivity.
  - reflexivity.
Defined.

(** ** Indexing one document *)

Section ProcessOneDocument.
Import on_index.
Context `{Serialize document.t, Serialize id_t,
          Serialize document_for_index, Serialize disk_token}.
Variable generate_token_keys : options -> document.t -> document.t.
Variable to_string : id_t -> string.

Lemma merge_tokens_appends (sdid : string) (tokens : list token.t)
    (b : WriteBatch) :
  merge_tokens sdid tokens b =
  b ++ flat_map
         (fun t =>
            [Merge default_column (token.key t) sdid;
             Merge default_column (token.shard_key t)
               (serialize {| shards := token.shards t |})])
         tokens.
Proof.
  revert b. induction tokens as [|t rest IH]; intros b; simpl.
  - rewrite app_nil_r. reflexivity.
  - rewrite IH, <- !app_assoc. reflexivity.
Qed.

Lemma merge_attributes_appends (sdid : string) (attrs : list attribute.t)
    (b : WriteBatch) :
  merge_attributes sdid attrs b =
  b ++ flat_map
         (fun attr =>
            flat_map
              (fun t =>
                 [Merge default_column (token.key t) sdid;
                  Merge default_column (token.shard_key t)
                    (serialize {| shards := token.shards t |})])
              (attribute.tokens attr))
         attrs.
Proof.
  revert b. induction attrs as [|a rest IH]; intros b; simpl.
  - rewrite app_nil_r. reflexivity.
  - rewrite IH, merge_tokens_appends, <- app_assoc. reflexivity.
Qed.

Lemma write_refused (d : database) (b : WriteBatch) :
  ok (health (m_db d)) = false ->
  is_error (fst (write d b)) = true /\ snd (write d b) = d.
Proof.
  intros Hh. unfold write, DB_Write. rewrite Hh. rewrite Hh. simpl.
  split; [reflexivity|]. destruct d; reflexivity.
Qed.

Lemma write_taken (d : database) (b : WriteBatch) :
  ok (health (m_db d)) = true ->
  fst (write d b) = no_error /\
  cells (m_db (snd (write d b))) = fold_left apply_op b (cells (m_db d)).
Proof.
  intros Hh. unfold write, DB_Write. rewrite Hh. simpl.
  split; reflexivity.
Qed.

(** C5.  [process_one_document] commits the docs batch, the document
    record and the mapping from the external id, to the docs store before
    it commits the indexes batch, a posting-list merge and a shard-set
    merge per token, to the indexes store.  When the docs engine takes its
    batch, the server goes through a state in which the docs store holds
    the batch and the indexes store is still as it was, and the indexes
    batch is written from that state: the docs store is not touched again,
    and the indexes store then holds its batch, unless its engine refuses
    it.  When the write of the docs batch fails it returns the error, the
    indexes batch is never written and the indexes store is as it was. *)
Theorem process_one_document_docs_before_indexes
    (srv : http_server) (doc : document.t) :
  let doc' := generate_token_keys (m_opts (m_db_indexes srv)) doc in
  let docs_batch := build_docs_batch to_string doc' in
  let indexes_batch := build_indexes_batch doc' in
  let result := process_one_document generate_token_keys to_string srv doc in
  let err := fst (fst result) in
  let srv' := snd result in
  docs_batch =
    [Put documents_column (to_string (document.indexed_id doc'))
       (serialize doc');
     Put document_ids_column (document.id doc')
       (serialize (document.indexed_id doc'))] /\
  indexes_batch =
    flat_map
      (fun attr =>
         flat_map
           (fun t =>
              [Merge default_column (token.key t)
                 (serialize {| indexed_id := document.indexed_id doc' |});
               Merge default_column (token.shard_key t)
                 (serialize {| shards := token.shards t |})])
           (attribute.tokens attr))
      (indexes.attributes (document.idx doc')) /\
  (ok (health (m_db (m_db_docs srv))) = false ->
   is_error err = true /\
   m_db_indexes srv' = m_db_indexes srv /\
   m_db_docs srv' = m_db_docs srv /\
   history srv' =
     history srv ++
     [{| target := docs_store; batch := docs_batch; committed := false |}]) /\
  (ok (health (m_db (m_db_docs srv))) = true ->
   let between := snd (db_docs_write srv docs_batch) in
   m_db (m_db_docs between) =
     {| cells := fold_left apply_op docs_batch (cells (m_db (m_db_docs srv)));
        health := health (m_db (m_db_docs srv)) |} /\
   m_db_indexes between = m_db_indexes srv /\
   history between =
     history srv ++
     [{| target := docs_store; batch := docs_batch; committed := true |}] /\
   srv' = snd (db_indexes_write between indexes_batch) /\
   m_db_docs srv' = m_db_docs between /\
   m_db (m_db_indexes srv') =
     (if ok (health (m_db (m_db_indexes srv))) then
        {| cells := fold_left apply_op indexes_batch
                      (cells (m_db (m_db_indexes srv)));
           health := health (m_db (m_db_indexes srv)) |}
      else m_db (m_db_indexes srv)) /\
   cells (m_db (m_db_docs srv')) =
     fold_left apply_op docs_batch (cells (m_db (m_db_docs srv))) /\
   history srv' =
     history srv ++
     [{| target := docs_store; batch := docs_batch; committed := true |};
      {| target := indexes_store; batch := indexes_batch;
         committed := ok (health (m_db (m_db_indexes srv))) |}] /\
   is_error err = negb (ok (health (m_db (m_db_indexes srv))))).
Proof.
  cbv zeta. split; [reflexivity|].
  split; [apply merge_attributes_appends|].
  set (doc' := generate_token_keys (m_opts (m_db_indexes srv)) doc).
  split; intros Hh.
  - unfold process_one_document, db_docs_write, db_indexes_write.
    fold doc'.
    destruct (write_refused (m_db_docs srv) (build_docs_batch to_string doc') Hh)
      as [He Hd].
    destruct (write (m_db_docs srv) (build_docs_batch to_string doc'))
      as [err d]. simpl in He, Hd. subst d. rewrite He. simpl.
    auto.
  - assert (Hw :
      db_docs_write srv (build_docs_batch to_string doc') =
      (no_error,
       {| m_db_docs :=
            {| m_db :=
                 {| cells := fold_left apply_op
                               (build_docs_batch to_string doc')
                               (cells (m_db (m_db_docs srv)));
                    health := health (m_db (m_db_docs srv)) |};
               m_opts := m_opts (m_db_docs srv);
               m_meta := m_meta (m_db_docs srv) |};
          m_db_indexes := m_db_indexes srv;
          history :=
            history srv ++
            [{| target := docs_store;
                batch := build_docs_batch to_string doc';
                committed := true |}] |})).
    { unfold db_docs_write, write, DB_Write. rewrite Hh. reflexivity. }
    unfold process_one_document. fold doc'. rewrite Hw.
    cbn [is_error fst snd m_db m_db_docs m_db_indexes history cells
         health].
    split; [reflexivity|]. split; [reflexivity|]. split; [reflexivity|].
    unfold db_indexes_write, write, DB_Write.
    cbn [is_error fst snd m_db m_db_docs m_db_indexes history cells
         health].
    destruct (ok (health (m_db (m_db_indexes srv)))) eqn:Hi;
      cbn [ok negb is_error fst snd m_db m_db_docs m_db_indexes history
           cells health];
      rewrite ?Hi;
      cbn [ok negb is_error fst snd m_db m_db_docs m_db_indexes history
           cells health];
      rewrite <- app_assoc; repeat split.
Qed.
End ProcessOneDocument.

(** ** The sequence counter *)

Ltac limits :=
  unfold is_long, wrap_long, cast_int,
    LONG_MIN, LONG_MAX, INT_MIN, INT_MAX in *;
  change (2 ^ 64) with 18446744073709551616 in *;
  change (2 ^ 63) with 9223372036854775808 in *;
  change (2 ^ 32) with 4294967296 in *;
  change (2 ^ 31) with 2147483648 in *.

Lemma wrap_long_small (z : Z) : is_long z -> wrap_long z = z.
Proof.
  intros Hz. limits. rewrite Z.mod_small by lia. lia.
Qed.

Lemma get_sequence_calls_S (n : nat) (m : metadata) :
  get_sequence_calls (S n) m =
  (m_seq m :: fst (get_sequence_calls n (snd (get_sequence m))),
   snd (get_sequence_calls n (snd (get_sequence m)))).
Proof.
  simpl. destruct (get_sequence_calls n _) as [vs m2]. reflexivity.
Qed.

Lemma get_sequence_calls_values (n : nat) (m : metadata) :
  is_long (m_seq m) ->
  m_seq m + Z.of_nat n <= LONG_MAX + 1 ->
  fst (get_sequence_calls n m) =
  map (fun i => m_seq m + Z.of_nat i) (List.seq 0 n).
Proof.
  revert m. induction n as [|n IH]; intros m Hl Hb; [reflexivity|].
  rewrite get_sequence_calls_S. cbn [fst List.seq map]. f_equal; [lia|].
  destruct n as [|n]; [reflexivity|].
  assert (Hm1 : m_seq (snd (get_sequence m)) = m_seq m + 1).
  { simpl. apply wrap_long_small. limits. lia. }
  rewrite IH.
  - rewrite <- seq_shift, map_map.
    apply map_ext. intros i. rewrite Hm1. lia.
  - rewrite Hm1. limits. lia.
  - rewrite Hm1. lia.
Qed.

Lemma get_sequence_calls_dirty (n : nat) (m : metadata) :
  m_dirty (snd (get_sequence_calls (S n) m)) = true.
Proof.
  revert m. induction n as [|n IH]; intros m.
  - reflexivity.
  - rewrite get_sequence_calls_S. cbn [snd]. apply IH.
Qed.

Lemma shifted_seq_increasing (a : Z) (start n : nat) :
  StronglySorted Z.lt (map (fun i => a + Z.of_nat i) (List.seq start n)).
Proof.
  revert start. induction n as [|n IH]; intros start; simpl.
  - constructor.
  - constructor; [apply IH|].
    apply List.Forall_forall. intros v Hv. apply in_map_iff in Hv.
    destruct Hv as [i [<- Hi]]. apply in_seq in Hi. lia.
Qed.

Lemma increasing_NoDup (l : list Z) : StronglySorted Z.lt l -> List.NoDup l.
Proof.
  induction 1 as [|v l Hs IH Hv]; constructor; [|assumption].
  intros Hin. rewrite List.Forall_forall in Hv. specialize (Hv v Hin). lia.
Qed.

(** Over a run of calls of [get_sequence] that does not take the counter
    past [LONG_MAX], the values returned are the consecutive numbers from
    the counter on. *)
Lemma get_sequence_calls_increasing (n : nat) (m : metadata) :
  is_long (m_seq m) ->
  m_seq m + Z.of_nat n <= LONG_MAX + 1 ->
  fst (get_sequence_calls n m) =
    map (fun i => m_seq m + Z.of_nat i) (List.seq 0 n) /\
  StronglySorted Z.lt (fst (get_sequence_calls n m)) /\
  List.NoDup (fst (get_sequence_calls n m)).
Proof.
  intros Hl Hb.
  rewrite (get_sequence_calls_values n m Hl Hb).
  split; [reflexivity|]. split; [apply shifted_seq_increasing|].
  apply increasing_NoDup, shifted_seq_increasing.
Qed.

Lemma get_sequence_calls_counter (n : nat) (m : metadata) :
  is_long (m_seq m) ->
  m_seq m + Z.of_nat n <= LONG_MAX ->
  m_seq (snd (get_sequence_calls n m)) = m_seq m + Z.of_nat n.
Proof.
  revert m. induction n as [|n IH]; intros m Hl Hb; [simpl; lia|].
  rewrite get_sequence_calls_S. cbn [snd].
  assert (Hm1 : m_seq (snd (get_sequence m)) = m_seq m + 1).
  { simpl. apply wrap_long_small. limits. lia. }
  rewrite IH; rewrite Hm1; limits; lia.
Qed.

(** ** Metadata on the wire *)

Lemma convert_long_pack_integer (v : Z) :
  is_long v -> convert_long (pack_integer v) = Some v.
Proof.
  intros Hv. unfold convert_long, convert_integer, pack_integer.
  destruct (Z.ltb_spec v 0) as [Hneg|Hpos].
  - destruct (Z.ltb_spec v LONG_MIN) as [Hlt|Hge]; [|reflexivity].
    limits. lia.
  - destruct (Z.ltb_spec LONG_MAX v) as [Hlt|Hge]; [|reflexivity].
    limits. lia.
Qed.

(** What [msgpack_unpack] accepts: an array of two elements that starts
    with the version 2 and goes on with an integer that fits a [long]. *)
Lemma msgpack_unpack_Normal (junk o : msgpack_object) (m m' : metadata) :
  match o with
  | ARRAY p => Z.of_nat (length p) < 2 ^ 32
  | _ => True
  end ->
  msgpack_unpack junk o m = Normal m' ->
  exists version payload seq,
    o = ARRAY [version; payload] /\
    convert_int version = Some (Z.of_nat (length [version; payload])) /\
    convert_int version = Some serialize_version_2 /\
    convert_long payload = Some seq /\
    m' = {| m_dirty := m_dirty m; m_seq := seq |}.
Proof.
  intros Hsize. unfold msgpack_unpack.
  destruct o as [ |b|u|i|d|r|p|mp]; try discriminate.
  destruct (convert_int (nth 0 p junk)) as [version|] eqn:Hv; [|discriminate].
  destruct (Z.eqb_spec version (cast_int (Z.of_nat (length p))))
    as [Harity|Harity]; [|discriminate]. simpl.
  destruct (Z.eqb_spec version serialize_version_2) as [H2|H2];
    [|discriminate].
  destruct (convert_long (nth 1 p junk)) as [seq|] eqn:Hs; [|discriminate].
  intros [= <-].
  assert (Hlen : length p = 2%nat).
  { unfold serialize_version_2 in H2. rewrite H2 in Harity. limits.
    assert (Hc : (Z.of_nat (length p) + 2147483648) mod 4294967296 =
                 2147483650) by lia.
    destruct (Z.lt_ge_cases (Z.of_nat (length p)) 2147483648) as [Hs1|Hs1].
    - rewrite Z.mod_small in Hc by lia. lia.
    - replace (Z.of_nat (length p) + 2147483648)
        with (Z.of_nat (length p) - 2147483648 + 1 * 4294967296) in Hc by lia.
      rewrite Z.mod_add in Hc by lia. rewrite Z.mod_small in Hc by lia. lia. }
  destruct p as [|version' [|payload [|x p]]]; try discriminate.
  simpl in Hv, Hs. exists version', payload, seq.
  subst version. auto.
Qed.

(** C8.  [msgpack_pack] writes an array of two elements, the version tag 2
    and then the sequence.  [msgpack_unpack] raises an error unless the
    object is an array whose first element equals its arity and is the
    known version 2; on such an object it restores the stored sequence
    exactly, and so reads back what [msgpack_pack] wrote. *)
Theorem metadata_msgpack_version (junk : msgpack_object) (m : metadata) :
  (forall m0 : metadata,
      msgpack_pack m0 = ARRAY [POSITIVE_INTEGER 2; pack_integer (m_seq m0)]) /\
  (forall o : msgpack_object,
      match o with
      | ARRAY p => Z.of_nat (length p) < 2 ^ 32
      | _ => True
      end ->
      ~ (exists p version,
            o = ARRAY p /\ nth_error p 0 = Some version /\
            convert_int version = Some (Z.of_nat (length p)) /\
            convert_int version = Some serialize_version_2) ->
      exists e, msgpack_unpack junk o m = Throw e) /\
  (forall (p : list msgpack_object) (version payload : msgpack_object)
          (seq : Z),
      nth_error p 0 = Some version ->
      convert_int version = Some (Z.of_nat (length p)) ->
      convert_int version = Some serialize_version_2 ->
      nth_error p 1 = Some payload ->
      convert_long payload = Some seq ->
      msgpack_unpack junk (ARRAY p) m =
      Normal {| m_dirty := m_dirty m; m_seq := seq |}) /\
  (forall m0 : metadata,
      is_long (m_seq m0) ->
      msgpack_unpack junk (msgpack_pack m0) m =
      Normal {| m_dirty := m_dirty m; m_seq := m_seq m0 |}).
Proof.
  split; [reflexivity|]. split; [|split].
  - intros o Hsize Hshape.
    destruct (msgpack_unpack junk o m) as [m'|e] eqn:Hu; [|exists e; reflexivity].
    exfalso. apply Hshape.
    destruct (msgpack_unpack_Normal junk o m m' Hsize Hu)
      as [version [payload [seq [Ho [Ha [Hv _]]]]]].
    exists [version; payload], version. auto.
  - intros p version payload seq H0 Ha Hv H1 Hs.
    assert (Hlen : length p = 2%nat).
    { rewrite Ha in Hv. injection Hv as Hv.
      unfold serialize_version_2 in Hv. lia. }
    destruct p as [|v0 [|v1 [|x p]]]; try discriminate.
    injection H0 as ->. injection H1 as ->.
    unfold msgpack_unpack. cbn [nth length]. rewrite Hv, Hs. reflexivity.
  - intros m0 Hl. unfold msgpack_pack, msgpack_unpack. simpl.
    rewrite (convert_long_pack_integer _ Hl). reflexivity.
Qed.

(** The metadata of a database that has handed out 41 sequence numbers,
    read back into a fresh object. *)
Lemma metadata_msgpack_version_witness :
  msgpack_unpack NIL (ARRAY [POSITIVE_INTEGER 2; POSITIVE_INTEGER 41])
    metadata_new =
  Normal {| m_dirty := false; m_seq := 41 |}.
Proof.
  exact (proj1 (proj2 (proj2 (metadata_msgpack_version NIL metadata_new)))
           [POSITIVE_INTEGER 2; POSITIVE_INTEGER 41]
           (POSITIVE_INTEGER 2) (POSITIVE_INTEGER 41) 41
           eq_refl eq_refl eq_refl eq_refl eq_refl).
Defined.

(** ** Flushing the metadata into a batch *)

(** C9.  With a batch and dirty metadata, [sync_metadata] appends the put
    of the metadata key to the caller's batch, clears the dirty flag and
    returns success; the engine is not called and the database is as it
    was, whatever state the engine is in.  The flag is thus cleared before
    the batch is written, and whether or not it ever is.  With metadata
    that is not dirty it returns success and changes nothing. *)
Theorem sync_metadata_batch `{Serialize metadata}
    (d : database) (b : WriteBatch) :
  (dirty (m_meta d) = true ->
   sync_metadata d (Some b) =
   (no_error,
    {| m_db := m_db d; m_opts := m_opts d;
       m_meta := {| m_dirty := false; m_seq := m_seq (m_meta d) |} |},
    Some (b ++ [Put default_column (metadata_key (m_opts d))
                  (serialize (m_meta d))]))) /\
  (dirty (m_meta d) = false ->
   forall batch : option WriteBatch,
     sync_metadata d batch = (no_error, d, batch)).
Proof.
  unfold sync_metadata. split; intros Hd.
  - rewrite Hd. reflexivity.
  - intros batch. rewrite Hd. reflexivity.
Qed.

(** ** Reading a shard set *)

Section GetShards.
Context `{Deserialize disk_index, Serialize disk_index,
          Deserialize document_for_index,
          Deserialize disk_token, Serialize disk_token}.

Lemma read_missing (d : database) (key : string) :
  ok (health (m_db d)) = true ->
  cells (m_db d) !! (default_column, key) = None ->
  read d key =
  (create_error (- code_of kNotFound) "could not read key", "").
Proof.
  intros Hh Hk. unfold read, DB_Get. rewrite Hh, Hk. reflexivity.
Qed.

Lemma ro_read_missing (d : read_only_database) (key : string) :
  ok (health (ro_m_db d)) = true ->
  cells (ro_m_db d) !! (default_column, key) = None ->
  ro_read d key =
  (create_error (- code_of kNotFound) "could not read key", "").
Proof.
  intros Hh Hk. unfold ro_read, DB_Get. rewrite Hh, Hk. reflexivity.
Qed.

(** C7 as the code has it.  [get_shards], of [database] and of
    [read_only_database] alike, returns a plain vector on every path.  A
    missing key, like every read that fails, yields the empty shard set.
    When the value is present it yields the shards that [deserialize]
    left in the [disk_token], whether [deserialize] reported an error or
    not: a deserialization failure is not passed on, and a failure that
    leaves the object as constructed yields the empty shard set. *)
Theorem get_shards_returns_on_every_path :
  (forall (d : database) (key : string),
      (ok (health (m_db d)) = true ->
       cells (m_db d) !! (default_column, key) = None ->
       get_shards d key = []) /\
      (is_error (fst (read d key)) = true -> get_shards d key = []) /\
      (forall value : string,
          read d key = (no_error, value) ->
          get_shards d key = shards (snd (deserialize value)) /\
          (forall err,
              deserialize value = (err, {| shards := [] |}) ->
              get_shards d key = []))) /\
  (forall (d : read_only_database) (key : string),
      (ok (health (ro_m_db d)) = true ->
       cells (ro_m_db d) !! (default_column, key) = None ->
       ro_get_shards d key = []) /\
      (is_error (fst (ro_read d key)) = true -> ro_get_shards d key = []) /\
      (forall value : string,
          ro_read d key = (no_error, value) ->
          ro_get_shards d key = shards (snd (deserialize value)) /\
          (forall err,
              deserialize value = (err, {| shards := [] |}) ->
              ro_get_shards d key = []))).
Proof.
  split; intros d key.
  - unfold get_shards. split; [|split].
    + intros Hh Hk. rewrite (read_missing d key Hh Hk). reflexivity.
    + destruct (read d key) as [err ser_shards]. simpl.
      intros ->. reflexivity.
    + intros value ->. simpl.
      destruct (deserialize value) as [err dt] eqn:Hd. simpl.
      split; [destruct (is_error err); reflexivity|].
      intros err' [= -> ->]. destruct (is_error err'); reflexivity.
  - unfold ro_get_shards. split; [|split].
    + intros Hh Hk. rewrite (ro_read_missing d key Hh Hk). reflexivity.
    + destruct (ro_read d key) as [err ser_shards]. simpl.
      intros ->. reflexivity.
    + intros value ->. simpl.
      destruct (deserialize value) as [err dt] eqn:Hd. simpl.
      split; [destruct (is_error err); reflexivity|].
      intros err' [= -> ->]. destruct (is_error err'); reflexivity.
Qed.
End GetShards.

(** The docs store refuses the batch of document [d1]: the handler
    returns the error, and the only write on record is the refused one. *)
(** The sample document on a server whose engines work, and on one whose
    docs engine refuses every call. *)
Lemma process_one_document_docs_before_indexes_witness :
  let docs_batch :=
    [Put documents_column "107" "dm1/d1";
     Put document_ids_column "d1" "T107"] in
  let indexes_batch :=
    [Merge default_column "index.m1.title.hello.0" "D107";
     Merge default_column "token_shards.m1.title.hello" "S0";
     Merge default_column "index.m1.title.world.0" "D107";
     Merge default_column "token_shards.m1.title.world" "S0"] in
  (let result :=
     on_index.process_one_document example.keys_in_place example.id_digits
       example.server_up example.d1 in
   let between := snd (on_index.db_docs_write example.server_up docs_batch) in
   m_db (m_db_docs between) =
     {| cells := fold_left apply_op docs_batch ∅; health := kOk |} /\
   m_db_indexes between = m_db_indexes example.server_up /\
   history between =
     [{| target := docs_store; batch := docs_batch; committed := true |}] /\
   snd result = snd (on_index.db_indexes_write between indexes_batch) /\
   m_db_docs (snd result) = m_db_docs between /\
   m_db (m_db_indexes (snd result)) =
     {| cells := fold_left apply_op indexes_batch ∅; health := kOk |} /\
   cells (m_db (m_db_docs (snd result))) =
     fold_left apply_op docs_batch ∅ /\
   history (snd result) =
     [{| target := docs_store; batch := docs_batch; committed := true |};
      {| target := indexes_store; batch := indexes_batch;
         committed := true |}] /\
   is_error (fst (fst result)) = false) /\
  (let result :=
     on_index.process_one_document example.keys_in_place example.id_digits
       example.server_docs_down example.d1 in
   is_error (fst (fst result)) = true /\
   m_db_indexes (snd result) = m_db_indexes example.server_docs_down /\
   m_db_docs (snd result) = m_db_docs example.server_docs_down /\
   history (snd result) =
     [{| target := docs_store; batch := docs_batch; committed := false |}]).
Proof.
  split.
  - exact (proj2 (proj2 (proj2
             (process_one_document_docs_before_indexes
                example.keys_in_place example.id_digits
                example.server_up example.d1))) eq_refl).
  - exact (proj1 (proj2 (proj2
             (process_one_document_docs_before_indexes
                example.keys_in_place example.id_digits
                example.server_docs_down example.d1))) eq_refl).
Defined.

(** Dirty metadata flushed into a batch that already holds a put. *)
Lemma sync_metadata_batch_witness :
  sync_metadata
    {| m_db := example.failing_engine; m_opts := default_options;
       m_meta := {| m_dirty := true; m_seq := 7 |} |}
    (Some [Put documents_column "107" "dm1/d1"]) =
  (no_error,
   {| m_db := example.failing_engine; m_opts := default_options;
      m_meta := {| m_dirty := false; m_seq := 7 |} |},
   Some [Put documents_column "107" "dm1/d1";
         Put default_column "greylock.meta.key" "M7"]).
Proof.
  exact (proj1 (sync_metadata_batch
                  {| m_db := example.failing_engine;
                     m_opts := default_options;
                     m_meta := {| m_dirty := true; m_seq := 7 |} |}
                  [Put documents_column "107" "dm1/d1"]) eq_refl).
Defined.

(** A key that is not in the store. *)
Lemma get_shards_returns_on_every_path_witness :
  get_shards (example.database_on example.empty_engine)
    "token_shards.m1.title.hello" = [].
Proof.
  exact (proj1 (proj1 get_shards_returns_on_every_path
                  (example.database_on example.empty_engine)
                  "token_shards.m1.title.hello") eq_refl eq_refl).
Defined.

(** C7 as stated fails: the value under the key is present and is not a
    shard set, [deserialize] reports the error, and [get_shards] returns
    the empty vector, the same as for a key that is missing. *)
Lemma get_shards_swallows_deserialization_failure :
  read (example.database_on example.corrupt_engine)
    "token_shards.m1.title.hello" = (no_error, "junk") /\
  is_error (fst (deserialize (T := disk_token) "junk")) = true /\
  get_shards (example.database_on example.corrupt_engine)
    "token_shards.m1.title.hello" = [] /\
  ro_get_shards (example.read_only_database_on example.corrupt_engine)
    "token_shards.m1.title.hello" = [] /\
  get_shards (example.database_on example.empty_engine)
    "token_shards.m1.title.hello" = [] /\
  ~ (forall (d : database) (key value : string),
        read d key = (no_error, value) ->
        is_error (fst (deserialize (T := disk_token) value)) = true ->
        get_shards d key <> []).
Proof.
  repeat (split; [vm_compute; reflexivity|]).
  intros Hclaim.
  apply (Hclaim (example.database_on example.corrupt_engine)
           "token_shards.m1.title.hello" "junk");
    vm_compute; reflexivity.
Qed.

(** ** Which text an exact attribute is checked against *)

Lemma find_Some (s needle : string) (n : nat) :
  find s needle = Some n ->
  exists before after,
    s = String.append before (String.append needle after).
Proof.
  revert n. induction s as [|c s IH]; intros n; simpl.
  - destruct (starts_with "" needle) eqn:Hp; [|discriminate].
    intros _. apply starts_with_spec in Hp. destruct Hp as [rest Hr].
    exists "", rest. exact Hr.
  - destruct (starts_with (String c s) needle) eqn:Hp.
    + intros _. apply starts_with_spec in Hp. destruct Hp as [rest Hr].
      exists "", rest. exact Hr.
    + destruct (find s needle) as [k|]; [|discriminate].
      intros _. destruct (IH k eq_refl) as [before [after Hs]].
      exists (String c before), after. rewrite append_cons, <- Hs.
      reflexivity.
Qed.

Lemma find_substring (before needle after : string) :
  exists n, find (String.append before (String.append needle after)) needle
            = Some n.
Proof.
  induction before as [|c before IH].
  - exists O. change (String.append "" (String.append needle after))
      with (String.append needle after).
    assert (Hp : starts_with (String.append needle after) needle = true)
      by (apply starts_with_spec; exists after; reflexivity).
    destruct (String.append needle after); simpl; rewrite Hp; reflexivity.
  - destruct IH as [n Hn]. rewrite append_cons. simpl.
    destruct (starts_with _ needle); [exists O; reflexivity|].
    rewrite Hn. exists (S n). reflexivity.
Qed.

(** [name.find(needle) != npos] says that [needle] occurs in [name]. *)
Lemma find_contains (s needle : string) :
  (exists n, find s needle = Some n) <->
  exists before after,
    s = String.append before (String.append needle after).
Proof.
  split.
  - intros [n Hn]. apply (find_Some _ _ _ Hn).
  - intros [before [after ->]]. apply find_substring.
Qed.

Section CheckResult.
Import on_search.
Variable split_content : string -> list string.

Lemma check_attribute_text (doc : document.t) (attr : attribute.t) :
  ((exists before after,
       attribute.name attr =
       String.append before (String.append "title" after)) ->
   check_attribute split_content doc attr =
   check_exact (attribute.tokens attr)
     (split_content (content.title (document.ctx doc)))) /\
  (~ (exists before after,
         attribute.name attr =
         String.append before (String.append "title" after)) ->
   check_attribute split_content doc attr =
   check_exact (attribute.tokens attr)
     (split_content (content.content (document.ctx doc)))).
Proof.
  unfold check_attribute. rewrite <- find_contains.
  destruct (find (attribute.name attr) "title") as [n|].
  - split; [reflexivity|]. intros Hno. exfalso. apply Hno. exists n.
    reflexivity.
  - split; [|reflexivity]. intros [n Hn]. discriminate.
Qed.

Lemma check_attributes_true (doc : document.t) (attrs : list attribute.t) :
  check_attributes split_content doc attrs = true <->
  forall attr, In attr attrs -> check_attribute split_content doc attr = true.
Proof.
  induction attrs as [|a rest IH]; simpl.
  - split; [intros _ attr [] | reflexivity].
  - destruct (check_attribute split_content doc a) eqn:Ha; simpl.
    + rewrite IH. split.
      * intros Hall attr [<-|Hin]; auto.
      * intros Hall attr Hin. apply Hall. right. assumption.
    + split; [discriminate|]. intros Hall.
      rewrite (Hall a (or_introl eq_refl)) in Ha. discriminate.
Qed.

Lemma check_entries_true (doc : document.t) (se : list mailbox_query.t) :
  check_entries split_content doc se = true <->
  forall ent, In ent se ->
    check_attributes split_content doc
      (indexes.exact (mailbox_query.idx ent)) = true.
Proof.
  induction se as [|e rest IH]; simpl.
  - split; [intros _ ent [] | reflexivity].
  - destruct (check_attributes split_content doc
                (indexes.exact (mailbox_query.idx e))) eqn:He; simpl.
    + rewrite IH. split.
      * intros Hall ent [<-|Hin]; auto.
      * intros Hall ent Hin. apply Hall. right. assumption.
    + split; [discriminate|]. intros Hall.
      rewrite (Hall e (or_introl eq_refl)) in He. discriminate.
Qed.

(** C10.  [check_result] accepts the document exactly when every exact
    attribute of every mailbox query matches.  An attribute is matched
    against the words of the document's title when its name contains
    ["title"] anywhere, ["subtitle"] for one, and against the words of the
    document's content otherwise. *)
Theorem check_result_title_or_content (iq : intersection_query.t)
    (sd : single_doc_result.t) :
  let doc := single_doc_result.doc sd in
  (check_result split_content iq sd = true <->
   forall ent, In ent (intersection_query.se iq) ->
   forall attr, In attr (indexes.exact (mailbox_query.idx ent)) ->
     ((exists before after,
          attribute.name attr =
          String.append before (String.append "title" after)) ->
      check_exact (attribute.tokens attr)
        (split_content (content.title (document.ctx doc))) = true) /\
     (~ (exists before after,
            attribute.name attr =
            String.append before (String.append "title" after)) ->
      check_exact (attribute.tokens attr)
        (split_content (content.content (document.ctx doc))) = true)) /\
  (forall (tokens : list token.t) (attributes : list attribute.t),
      check_result split_content
        (intersection_query.mk
           [mailbox_query.mk "m1"
              (indexes.mk attributes [attribute.mk "subtitle" tokens])])
        sd =
      check_exact tokens (split_content (content.title (document.ctx doc)))).
Proof.
  cbv zeta. split.
  - unfold check_result. rewrite check_entries_true.
    split; intros Hall ent Hent.
    + intros attr Hattr.
      specialize (Hall ent Hent). rewrite check_attributes_true in Hall.
      specialize (Hall attr Hattr).
      destruct (check_attribute_text (single_doc_result.doc sd) attr)
        as [Ht Hc].
      split; intros Hn.
      * rewrite <- (Ht Hn). assumption.
      * rewrite <- (Hc Hn). assumption.
    + apply check_attributes_true. intros attr Hattr.
      destruct (Hall ent Hent attr Hattr) as [At Ac].
      destruct (check_attribute_text (single_doc_result.doc sd) attr)
        as [Ht Hc].
      destruct (find_contains (attribute.name attr) "title") as [F1 F2].
      destruct (find (attribute.name attr) "title") as [n|] eqn:Hf.
      * assert (Hn : exists before after,
                   attribute.name attr =
                   String.append before (String.append "title" after))
          by (apply F1; exists n; reflexivity).
        rewrite (Ht Hn). apply At, Hn.
      * assert (Hn : ~ exists before after,
                   attribute.name attr =
                   String.append before (String.append "title" after)).
        { intros Hex. destruct (F2 Hex) as [n Hn]. discriminate. }
        rewrite (Hc Hn). apply Ac, Hn.
  - intros tokens attributes. unfold check_result. simpl.
    unfold check_attribute. simpl.
    destruct (check_exact tokens _); reflexivity.
Qed.
End CheckResult.

(** * Further properties of the code *)

(** ** [check_negation] *)

Lemma negation_words_true (token_name : string) (content : list string) :
  on_search.negation_words token_name content = true <-> In token_name content.
Proof.
  induction content as [|word rest IH]; simpl.
  - split; [discriminate | intros []].
  - destruct (String.eqb_spec token_name word) as [->|Hne].
    + split; [intros _; left; reflexivity | reflexivity].
    + rewrite IH. split; [right; assumption|].
      intros [E|Hin]; [congruence | assumption].
Qed.

(** X1.  [check_negation] returns true exactly when the name of one of
    the tokens is one of the words of the content; the positions of the
    tokens play no part. *)
Theorem check_negation_iff (tokens : list token.t) (content : list string) :
  on_search.check_negation tokens content = true <->
  exists t, In t tokens /\ In (token.name t) content.
Proof.
  induction tokens as [|t rest IH]; simpl.
  - split; [discriminate | intros [t [[] _]]].
  - destruct (on_search.negation_words (token.name t) content) eqn:Hw.
    + split; [|reflexivity]. intros _. exists t.
      split; [left; reflexivity | apply negation_words_true, Hw].
    + rewrite IH. split.
      * intros [t' [Hin Hw']]. exists t'. split; [right|]; assumption.
      * intros [t' [[<-|Hin] Hw']].
        -- apply negation_words_true in Hw'. congruence.
        -- exists t'. split; assumption.
Qed.

(** ** When the merges fail, and the shard-set merge as a union *)

Section MergeFailure.
Context `{Deserialize disk_index, Serialize disk_index,
          Deserialize document_for_index,
          Deserialize disk_token, Serialize disk_token}.

Lemma decode_all_None_value {T : Type} `{Deserialize T}
    (values : list string) :
  decode_all (T := T) values = None <->
  exists v, In v values /\ decode (T := T) v = None.
Proof.
  rewrite decode_all_None, in_map_iff.
  split; intros [v [A B]]; exists v; auto.
Qed.

(** X2.  A merge fails exactly when a value handed to it does not
    deserialize: the old value, when there is one, or one of the
    operands.  This holds for [merge_index] and for
    [merge_token_shards]. *)
Theorem merge_fails_iff_undecodable (key : string)
    (old_value : option string) (operand_list : list string) :
  (merge_index key old_value operand_list = None <->
   (exists ov, old_value = Some ov /\ decode (T := disk_index) ov = None) \/
   (exists value,
       In value operand_list /\
       decode (T := document_for_index) value = None)) /\
  (merge_token_shards key old_value operand_list = None <->
   (exists ov, old_value = Some ov /\ decode (T := disk_token) ov = None) \/
   (exists value,
       In value operand_list /\ decode (T := disk_token) value = None)).
Proof.
  split.
  - rewrite merge_index_decode, <- decode_all_None_value.
    destruct old_value as [ov|].
    + destruct (decode ov) as [index|] eqn:Hov.
      * destruct (decode_all operand_list) as [dids|].
        -- split; [discriminate|].
           intros [[ov' [[= <-] Hd]]|Hn]; congruence.
        -- split; [intros _; right; reflexivity | reflexivity].
      * split; [|reflexivity]. intros _. left. exists ov. auto.
    + destruct (decode_all operand_list) as [dids|].
      * split; [discriminate|].
        intros [[ov' [Hov' _]]|Hn]; discriminate.
      * split; [intros _; right; reflexivity | reflexivity].
  - rewrite merge_token_shards_decode, <- decode_all_None_value.
    destruct old_value as [ov|].
    + destruct (decode ov) as [dt|] eqn:Hov.
      * destruct (decode_all operand_list) as [dts|].
        -- split; [discriminate|].
           intros [[ov' [[= <-] Hd]]|Hn]; congruence.
        -- split; [intros _; right; reflexivity | reflexivity].
      * split; [|reflexivity]. intros _. left. exists ov. auto.
    + destruct (decode_all operand_list) as [dts|].
      * split; [discriminate|].
        intros [[ov' [Hov' _]]|Hn]; discriminate.
      * split; [intros _; right; reflexivity | reflexivity].
Qed.

Lemma shard_sets_equal (xs ys s : list N) :
  ascending N.ltb s ->
  (forall n, In n xs <-> In n ys) ->
  set_insert_range N.ltb xs s = set_insert_range N.ltb ys s.
Proof.
  intros Hs Hxy.
  apply (ascending_ext N.ltb N_ltb_irrefl N_ltb_trans);
    try (apply (set_insert_range_ascending _ N_ltb_trans N_ltb_total);
         assumption).
  intros z. rewrite !(In_set_insert_range _ N_ltb_total), Hxy.
  reflexivity.
Qed.

Lemma merge_token_shards_same_shards (key : string)
    (old_value : option string) (ops1 ops2 : list string)
    (dts1 dts2 : list disk_token) :
  decode_all ops1 = Some dts1 ->
  decode_all ops2 = Some dts2 ->
  (forall n, In n (concat (map shards dts1)) <->
             In n (concat (map shards dts2))) ->
  merge_token_shards key old_value ops1 =
  merge_token_shards key old_value ops2.
Proof.
  intros E1 E2 Hsame. rewrite !merge_token_shards_decode, E1, E2.
  destruct old_value as [ov|].
  - destruct (decode ov) as [dt|]; [|reflexivity].
    rewrite (shard_sets_equal _ _ _
               (set_insert_range_ascending _ N_ltb_trans N_ltb_total _ _
                  (ascending_nil _)) Hsame).
    reflexivity.
  - rewrite (shard_sets_equal _ _ _ (ascending_nil _) Hsame). reflexivity.
Qed.

Lemma decode_all_Permutation {T : Type} `{Deserialize T}
    (l1 l2 : list string) :
  Permutation l1 l2 ->
  match decode_all (T := T) l1, decode_all (T := T) l2 with
  | Some t1, Some t2 => Permutation t1 t2
  | None, None => True
  | _, _ => False
  end.
Proof.
  induction 1 as [|v l1 l2 Hp IH|v w l|l1 l2 l3 Hp1 IH1 Hp2 IH2]; simpl.
  - constructor.
  - destruct (decode v); [|exact I].
    destruct (decode_all l1), (decode_all l2); try assumption.
    constructor. assumption.
  - destruct (decode v), (decode w), (decode_all l);
      try exact I; try apply perm_swap.
  - destruct (decode_all l1), (decode_all l2), (decode_all l3);
      try assumption; try contradiction.
    etransitivity; eassumption.
Qed.

(** X3.  The shard-set merge is a union too.  Operand lists that
    deserialize, and whose shard sets hold the same shards all told, merge
    to the same value: so one operand that carries several shards can be
    replaced by one operand per shard.  Any permutation of the operands
    gives the same result, success or failure. *)
Theorem merge_token_shards_set_union (key : string)
    (old_value : option string) :
  (forall (ops1 ops2 : list string) (dts1 dts2 : list disk_token),
      decode_all ops1 = Some dts1 ->
      decode_all ops2 = Some dts2 ->
      (forall n, In n (concat (map shards dts1)) <->
                 In n (concat (map shards dts2))) ->
      merge_token_shards key old_value ops1 =
      merge_token_shards key old_value ops2) /\
  (forall ops1 ops2 : list string,
      Permutation ops1 ops2 ->
      merge_token_shards key old_value ops1 =
      merge_token_shards key old_value ops2).
Proof.
  split.
  - intros ops1 ops2 dts1 dts2. apply merge_token_shards_same_shards.
  - intros ops1 ops2 Hp.
    pose proof (decode_all_Permutation (T := disk_token) _ _ Hp) as Hd.
    destruct (decode_all ops1) as [dts1|] eqn:E1;
      destruct (decode_all ops2) as [dts2|] eqn:E2; try contradiction.
    + apply (merge_token_shards_same_shards _ _ _ _ dts1 dts2 E1 E2).
      intros n. rewrite !In_concat_shards.
      split; intros [dt [Hdt Hn]]; exists dt; (split; [|assumption]).
      * apply (Permutation_in _ Hd Hdt).
      * apply (Permutation_in _ (Permutation_sym Hd) Hdt).
    + rewrite !merge_token_shards_decode, E1, E2. reflexivity.
Qed.
End MergeFailure.

(** One operand with two shards against one operand per shard. *)
Lemma merge_token_shards_set_union_witness :
  merge_token_shards "token_shards.m1.to.hello" (Some "S3") ["S12"] =
  merge_token_shards "token_shards.m1.to.hello" (Some "S3") ["S2"; "S1"].
Proof.
  refine (proj1 (merge_token_shards_set_union
                   "token_shards.m1.to.hello" (Some "S3"))
            ["S12"] ["S2"; "S1"]
            [{| shards := [1; 2]%N |}]
            [{| shards := [2%N] |}; {| shards := [1%N] |}]
            eq_refl eq_refl _).
  intros n. simpl. intuition.
Defined.

(** ** The tally codec reads back what it writes *)

Lemma read_tally (negative : bool) (n k : nat) (rest : string) :
  tally_codec.read_numbers (tally_codec.tally n (String "," rest))
    (Some (negative, k)) =
  match tally_codec.read_numbers rest None with
  | Some l => Some (tally_codec.signed negative (k + n) :: l)
  | None => None
  end.
Proof.
  revert k. induction n as [|n IH]; intros k; simpl.
  - rewrite Nat.add_0_r. reflexivity.
  - rewrite IH, Nat.add_succ_r. reflexivity.
Qed.

Lemma read_write_numbers (l : list Z) :
  tally_codec.read_numbers (tally_codec.write_numbers l) None = Some l.
Proof.
  induction l as [|z l IH]; [reflexivity|].
  cbn [tally_codec.write_numbers].
  destruct (Z.ltb_spec z 0) as [Hneg|Hpos]; cbn [tally_codec.read_numbers];
    simpl Ascii.eqb; cbv iota; rewrite read_tally, IH;
    unfold tally_codec.signed; simpl Nat.add;
    rewrite Zabs2Nat.id_abs; do 2 f_equal; lia.
Qed.

Lemma numbers_ids_round_trip (l : list document_for_index) :
  tally_codec.numbers_ids
    (concat (map (fun d => tally_codec.id_numbers (indexed_id d)) l)) =
  Some l.
Proof.
  induction l as [|[[a b c]] l IH]; [reflexivity|].
  simpl. simpl in IH. rewrite IH. reflexivity.
Qed.

Lemma tally_disk_index_round_trip (index : disk_index) :
  @decode disk_index tally_codec.deserialize_disk_index
    (@serialize disk_index tally_codec.serialize_disk_index index) =
  Some index.
Proof.
  unfold decode, deserialize, serialize,
    tally_codec.deserialize_disk_index, tally_codec.serialize_disk_index,
    tally_codec.read_tagged.
  simpl Ascii.eqb. cbv iota.
  rewrite read_write_numbers, numbers_ids_round_trip.
  destruct index; reflexivity.
Qed.

Lemma tally_disk_token_round_trip (dt : disk_token) :
  @decode disk_token tally_codec.deserialize_disk_token
    (@serialize disk_token tally_codec.serialize_disk_token dt) =
  Some dt.
Proof.
  unfold decode, deserialize, serialize,
    tally_codec.deserialize_disk_token, tally_codec.serialize_disk_token,
    tally_codec.read_tagged.
  simpl Ascii.eqb. cbv iota.
  rewrite read_write_numbers.
  assert (Hnn : forallb (fun z => 0 <=? z) (map Z.of_N (shards dt)) = true).
  { apply forallb_forall. intros z Hz. apply in_map_iff in Hz.
    destruct Hz as [n [<- _]]. apply Z.leb_le. lia. }
  rewrite Hnn. simpl. rewrite map_map.
  rewrite (map_ext _ (fun n => n)) by (intros n; apply N2Z.id).
  rewrite map_id. destruct dt; reflexivity.
Qed.

(** ** Merging in steps *)

Section MergeSteps.
Context `{Deserialize disk_index, Serialize disk_index,
          Deserialize document_for_index,
          Deserialize disk_token, Serialize disk_token}.

Lemma set_insert_range_of_ascending {T : Type} (lt : T -> T -> bool)
    (s : list T) :
  (forall x, lt x x = false) ->
  (forall x y z, lt x y = true -> lt y z = true -> lt x z = true) ->
  (forall x y, lt x y = false -> lt y x = false -> x = y) ->
  ascending lt s -> set_insert_range lt s [] = s.
Proof.
  intros Hi Ht Hto Hs.
  apply (ascending_ext lt Hi Ht).
  - apply (set_insert_range_ascending lt Ht Hto), ascending_nil.
  - assumption.
  - intros z. rewrite (In_set_insert_range lt Hto). simpl. intuition.
Qed.

Lemma merge_index_two_steps (key : string) (old_value : option string)
    (ops1 ops2 : list string) (v1 : string) :
  (forall index : disk_index, decode (serialize index) = Some index) ->
  merge_index key old_value ops1 = Some v1 ->
  merge_index key (Some v1) ops2 = merge_index key old_value (ops1 ++ ops2).
Proof.
  intros Hrt Hm. rewrite merge_index_decode in Hm.
  rewrite (merge_index_decode key (Some v1)),
    (merge_index_decode key old_value (ops1 ++ ops2)), decode_all_app.
  assert (Hstep : forall dids1 s0,
             ascending dfi_lt s0 ->
             v1 = serialize {| ids := set_insert_range dfi_lt dids1 s0 |} ->
             match decode v1, decode_all ops2 with
             | Some index, Some dids =>
                 Some (serialize
                         {| ids := set_insert_range dfi_lt dids
                                     (set_insert_range dfi_lt (ids index) []) |})
             | _, _ => None
             end =
             match decode_all ops2 with
             | Some dids2 =>
                 Some (serialize
                         {| ids := set_insert_range dfi_lt (dids1 ++ dids2) s0 |})
             | None => None
             end).
  { intros dids1 s0 Hs0 ->. rewrite Hrt. cbn [ids].
    destruct (decode_all ops2) as [dids2|]; [|reflexivity].
    rewrite set_insert_range_app.
    rewrite (set_insert_range_of_ascending dfi_lt _
               dfi_lt_irrefl dfi_lt_trans dfi_lt_total)
      by (apply (set_insert_range_ascending _ dfi_lt_trans dfi_lt_total),
            Hs0).
    reflexivity. }
  destruct old_value as [ov|].
  - destruct (decode ov) as [index|]; [|discriminate].
    destruct (decode_all ops1) as [dids1|]; [|discriminate].
    injection Hm as Hv1.
    rewrite (Hstep dids1 (set_insert_range dfi_lt (ids index) []));
      [destruct (decode_all ops2); reflexivity | | auto].
    apply (set_insert_range_ascending _ dfi_lt_trans dfi_lt_total),
      ascending_nil.
  - destruct (decode_all ops1) as [dids1|]; [|discriminate].
    injection Hm as Hv1.
    rewrite (Hstep dids1 []);
      [destruct (decode_all ops2); reflexivity | apply ascending_nil | auto].
Qed.

Lemma merge_token_shards_two_steps (key : string)
    (old_value : option string) (ops1 ops2 : list string) (v1 : string) :
  (forall dt : disk_token, decode (serialize dt) = Some dt) ->
  merge_token_shards key old_value ops1 = Some v1 ->
  merge_token_shards key (Some v1) ops2 =
  merge_token_shards key old_value (ops1 ++ ops2).
Proof.
  intros Hrt Hm. rewrite merge_token_shards_decode in Hm.
  rewrite (merge_token_shards_decode key (Some v1)),
    (merge_token_shards_decode key old_value (ops1 ++ ops2)), decode_all_app.
  assert (Hstep : forall xs1 s0,
             ascending N.ltb s0 ->
             v1 = serialize {| shards := set_insert_range N.ltb xs1 s0 |} ->
             forall dts1,
             xs1 = concat (map shards dts1) ->
             match decode v1, decode_all ops2 with
             | Some dt, Some dts =>
                 Some (serialize
                         {| shards := set_insert_range N.ltb
                                        (concat (map shards dts))
                                        (set_insert_range N.ltb (shards dt) []) |})
             | _, _ => None
             end =
             match decode_all ops2 with
             | Some dts2 =>
                 Some (serialize
                         {| shards := set_insert_range N.ltb
                                        (concat (map shards (dts1 ++ dts2)))
                                        s0 |})
             | None => None
             end).
  { intros xs1 s0 Hs0 -> dts1 ->. rewrite Hrt. cbn [shards].
    destruct (decode_all ops2) as [dts2|]; [|reflexivity].
    rewrite map_app, concat_app, set_insert_range_app.
    rewrite (set_insert_range_of_ascending N.ltb _
               N_ltb_irrefl N_ltb_trans N_ltb_total)
      by (apply (set_insert_range_ascending _ N_ltb_trans N_ltb_total),
            Hs0).
    reflexivity. }
  destruct old_value as [ov|].
  - destruct (decode ov) as [dt|]; [|discriminate].
    destruct (decode_all ops1) as [dts1|]; [|discriminate].
    injection Hm as Hv1.
    rewrite (Hstep _ (set_insert_range N.ltb (shards dt) []) 
               (set_insert_range_ascending _ N_ltb_trans N_ltb_total _ _
                  (ascending_nil _)) (eq_sym Hv1) dts1 eq_refl).
    destruct (decode_all ops2); reflexivity.
  - destruct (decode_all ops1) as [dts1|]; [|discriminate].
    injection Hm as Hv1.
    rewrite (Hstep _ [] (ascending_nil _) (eq_sym Hv1) dts1 eq_refl).
    destruct (decode_all ops2); reflexivity.
Qed.

(** X4.  With a codec that reads back the posting lists and shard sets it
    writes, merging in two steps is merging once: when [FullMerge] of an
    old value with some operands succeeds, merging further operands into
    the value it emitted gives what one merge of all the operands into the
    old value gives.  So the value a merge emitted, merged again with no
    operands, comes back as it is. *)
Theorem FullMerge_in_steps (key : string) (old_value : option string)
    (ops1 ops2 : list string) (v1 : string) :
  (forall index : disk_index, decode (serialize index) = Some index) ->
  (forall dt : disk_token, decode (serialize dt) = Some dt) ->
  FullMerge key old_value ops1 = Some v1 ->
  FullMerge key (Some v1) ops2 = FullMerge key old_value (ops1 ++ ops2) /\
  FullMerge key (Some v1) [] = Some v1.
Proof.
  intros Hindex Htoken Hm.
  assert (Hgen : forall ops,
             FullMerge key (Some v1) ops =
             FullMerge key old_value (ops1 ++ ops)).
  { intros ops. unfold FullMerge in *.
    destruct (starts_with key "token_shards.").
    - apply merge_token_shards_two_steps; assumption.
    - destruct (starts_with key "index."); [|discriminate].
      apply merge_index_two_steps; assumption. }
  split; [apply Hgen|].
  rewrite Hgen, app_nil_r. assumption.
Qed.
End MergeSteps.

(** A posting list of one document, emitted by a first merge, merged with
    a second document. *)
Lemma FullMerge_in_steps_witness :
  @FullMerge tally_codec.deserialize_disk_index
    tally_codec.serialize_disk_index
    tally_codec.deserialize_document_for_index
    tally_codec.deserialize_disk_token tally_codec.serialize_disk_token
    "index.m1.to.hello.0" (Some "I+1,+,+11,") ["D+1,+,+1,"] =
  @FullMerge tally_codec.deserialize_disk_index
    tally_codec.serialize_disk_index
    tally_codec.deserialize_document_for_index
    tally_codec.deserialize_disk_token tally_codec.serialize_disk_token
    "index.m1.to.hello.0" None (["D+1,+,+11,"] ++ ["D+1,+,+1,"]) /\
  @FullMerge tally_codec.deserialize_disk_index
    tally_codec.serialize_disk_index
    tally_codec.deserialize_document_for_index
    tally_codec.deserialize_disk_token tally_codec.serialize_disk_token
    "index.m1.to.hello.0" (Some "I+1,+,+11,") [] = Some "I+1,+,+11,".
Proof.
  exact (@FullMerge_in_steps tally_codec.deserialize_disk_index
           tally_codec.serialize_disk_index
           tally_codec.deserialize_document_for_index
           tally_codec.deserialize_disk_token
           tally_codec.serialize_disk_token
           "index.m1.to.hello.0" None ["D+1,+,+11,"] ["D+1,+,+1,"]
           "I+1,+,+11,"
           tally_disk_index_round_trip tally_disk_token_round_trip
           eq_refl).
Defined.

(** ** Writing and reading back *)

Section DatabaseFacts.
Context `{Deserialize disk_index, Serialize disk_index,
          Deserialize document_for_index,
          Deserialize disk_token, Serialize disk_token,
          Serialize metadata}.

Lemma DB_Get_after_Put (db : DB) (b : WriteBatch) (column : N)
    (key value : string) :
  ok (health db) = true ->
  DB_Get (snd (DB_Write db (b ++ [Put column key value]))) column key =
  (kOk, value).
Proof.
  intros Hh. unfold DB_Write, DB_Get. rewrite Hh. cbn [snd cells health].
  rewrite Hh, fold_left_app. cbn [fold_left apply_op].
  rewrite lookup_insert_eq. reflexivity.
Qed.

Lemma DB_Get_other_key (db : DB) (column column' : N)
    (key key' value : string) :
  (column', key') <> (column, key) ->
  DB_Get (snd (DB_Write db [Put column key value])) column' key' =
  DB_Get db column' key'.
Proof.
  intros Hne. unfold DB_Write, DB_Get.
  destruct (ok (health db)) eqn:Hh; cbn [snd cells health]; rewrite Hh;
    [|reflexivity].
  cbn [fold_left apply_op]. rewrite lookup_insert_ne by congruence.
  reflexivity.
Qed.

(** X5.  A batch that [write] hands to a working engine is taken, and a
    key on which the batch ends with a put then reads as the value put,
    whatever the batch and the store held for it before.  With the engine
    in trouble
    [write] and [read] return an error that carries the negated status
    code, and [write] leaves the database as it was. *)
Theorem write_then_read (d : database) (b : WriteBatch)
    (key value : string) :
  (ok (health (m_db d)) = true ->
   fst (write d (b ++ [Put default_column key value])) = no_error /\
   read (snd (write d (b ++ [Put default_column key value]))) key =
   (no_error, value)) /\
  (ok (health (m_db d)) = false ->
   write d b =
     (create_error (- code_of (health (m_db d))) "could not write batch", d) /\
   read d key =
     (create_error (- code_of (health (m_db d))) "could not read key", "")).
Proof.
  split; intros Hh.
  - split.
    + unfold write, DB_Write. rewrite Hh. reflexivity.
    + pose proof (DB_Get_after_Put (m_db d) b default_column key value Hh)
        as Hg.
      unfold write, read.
      destruct (DB_Write (m_db d) (b ++ [Put default_column key value]))
        as [s db] eqn:Hw.
      assert (Hs : s = kOk)
        by (unfold DB_Write in Hw; rewrite Hh in Hw; congruence).
      subst s. cbn [ok negb snd m_db] in *. rewrite Hg. reflexivity.
  - split.
    + unfold write, DB_Write. rewrite Hh. cbn [fst snd]. rewrite Hh.
      destruct d; reflexivity.
    + unfold read, DB_Get. rewrite Hh. rewrite Hh. reflexivity.
Qed.

(** X6.  [sync_metadata] without a batch, on dirty metadata.  With a
    working engine it puts the serialized metadata under the metadata
    key, where it is then read, leaves every other key as it reads, and
    clears the dirty flag.  With the engine in trouble it returns the
    error with the negated status code and leaves the database as it was,
    the dirty flag still set, so that a later call tries again. *)
Theorem sync_metadata_direct (d : database) :
  dirty (m_meta d) = true ->
  (ok (health (m_db d)) = true ->
   fst (fst (sync_metadata d None)) = no_error /\
   m_meta (snd (fst (sync_metadata d None))) =
     {| m_dirty := false; m_seq := m_seq (m_meta d) |} /\
   read (snd (fst (sync_metadata d None))) (metadata_key (m_opts d)) =
     (no_error, serialize (m_meta d)) /\
   forall key, key <> metadata_key (m_opts d) ->
     read (snd (fst (sync_metadata d None))) key = read d key) /\
  (ok (health (m_db d)) = false ->
   sync_metadata d None =
     (create_error (- code_of (health (m_db d)))
        "could not write metadata key", d, None)).
Proof.
  intros Hd. unfold sync_metadata. rewrite Hd. cbn [negb].
  split; intros Hh.
  - pose proof (DB_Get_after_Put (m_db d) [] default_column
                  (metadata_key (m_opts d)) (serialize (m_meta d)) Hh) as Hg.
    pose proof (fun key (Hne : key <> metadata_key (m_opts d)) =>
                  DB_Get_other_key (m_db d) default_column default_column
                    (metadata_key (m_opts d)) key (serialize (m_meta d))
                    ltac:(congruence)) as Ho.
    unfold DB_Put. simpl app in Hg.
    destruct (DB_Write (m_db d)
                [Put default_column (metadata_key (m_opts d))
                   (serialize (m_meta d))]) as [s db] eqn:Hw.
    assert (Hs : s = kOk)
      by (unfold DB_Write in Hw; rewrite Hh in Hw; congruence).
    subst s. cbn [ok negb fst snd m_meta m_db] in *.
    repeat split.
    + unfold read. cbn [m_db]. rewrite Hg. reflexivity.
    + intros key Hne. unfold read. cbn [m_db]. rewrite (Ho key Hne).
      reflexivity.
  - unfold DB_Put, DB_Write. rewrite Hh. cbn [ok negb]. rewrite Hh.
    destruct d; reflexivity.
Qed.
End DatabaseFacts.

(** A put of the metadata key after another put in the same batch. *)
Lemma write_then_read_witness :
  fst (write sample.used_database
         ([Put default_column "greylock.meta.key" "M6"] ++
          [Put default_column "greylock.meta.key" "M7"])) = no_error /\
  read (snd (write sample.used_database
               ([Put default_column "greylock.meta.key" "M6"] ++
                [Put default_column "greylock.meta.key" "M7"])))
    "greylock.meta.key" = (no_error, "M7").
Proof.
  exact (proj1 (write_then_read sample.used_database
                  [Put default_column "greylock.meta.key" "M6"]
                  "greylock.meta.key" "M7") eq_refl).
Defined.

(** The flush of a database that has handed out numbers. *)
Lemma sync_metadata_direct_witness :
  fst (fst (sync_metadata sample.used_database None)) = no_error /\
  m_meta (snd (fst (sync_metadata sample.used_database None))) =
    {| m_dirty := false; m_seq := 7 |} /\
  read (snd (fst (sync_metadata sample.used_database None)))
    "greylock.meta.key" = (no_error, "M7") /\
  forall key, key <> "greylock.meta.key" ->
    read (snd (fst (sync_metadata sample.used_database None))) key =
    read sample.used_database key.
Proof.
  exact (proj1 (sync_metadata_direct sample.used_database eq_refl) eq_refl).
Defined.

(** ** Restarting a database *)

Section Restart.
Context `{Deserialize disk_index, Serialize disk_index,
          Deserialize document_for_index,
          Deserialize disk_token, Serialize disk_token,
          Serialize metadata}.
Variable deserialize_metadata : metadata -> string -> error_info * metadata.
Variable sync_metadata_timeout : Z.

Lemma sync_metadata_clean (d : database) (b : option WriteBatch) :
  dirty (m_meta d) = false -> sync_metadata d b = (no_error, d, b).
Proof. intros Hd. unfold sync_metadata. rewrite Hd. reflexivity. Qed.

Lemma database_destructor_flushes (d : database) :
  dirty (m_meta d) = true ->
  ok (health (m_db d)) = true ->
  database_destructor d =
  {| m_db := snd (DB_Write (m_db d)
                    ([] ++ [Put default_column (metadata_key (m_opts d))
                              (serialize (m_meta d))]));
     m_opts := m_opts d;
     m_meta := {| m_dirty := false; m_seq := m_seq (m_meta d) |} |}.
Proof.
  intros Hd Hh. unfold database_destructor, sync_metadata, DB_Put.
  rewrite Hd. cbn [negb app].
  unfold DB_Write. rewrite Hh. reflexivity.
Qed.

(** X7.  A database whose metadata were flushed, by [sync_metadata] or by
    the destructor, and that is opened again reads the counter back: the
    first sequence number it hands out is the one that was next at the
    flush.  The numbers the old object hands out after that flush start at
    the same value, so a process that ends without another flush hands
    them out again after the restart.  The codec is asked to read the
    flushed metadata back. *)
Theorem reopen_after_flush (d fresh : database) :
  ok (health (m_db d)) = true ->
  dirty (m_meta d) = true ->
  m_opts fresh = m_opts d ->
  dirty (m_meta fresh) = false ->
  deserialize_metadata (m_meta fresh) (serialize (m_meta d)) =
    (no_error, {| m_dirty := false; m_seq := m_seq (m_meta d) |}) ->
  let flushed := database_destructor d in
  let reopened :=
    open deserialize_metadata sync_metadata_timeout fresh kOk
      (m_db flushed) in
  flushed = snd (fst (sync_metadata d None)) /\
  fst reopened = no_error /\
  m_meta (snd reopened) = {| m_dirty := false; m_seq := m_seq (m_meta d) |} /\
  fst (get_sequence (m_meta (snd reopened))) = m_seq (m_meta d) /\
  forall n : nat,
    hd_error (fst (get_sequence_calls (S n) (m_meta flushed))) =
    Some (fst (get_sequence (m_meta (snd reopened)))).
Proof.
  intros Hh Hd Hopts Hfresh Hrt. cbv zeta.
  split; [reflexivity|].
  rewrite (database_destructor_flushes d Hd Hh). cbn [m_db m_meta].
  assert (Hopen :
    open deserialize_metadata sync_metadata_timeout fresh kOk
      (snd (DB_Write (m_db d)
              ([] ++ [Put default_column (metadata_key (m_opts d))
                        (serialize (m_meta d))]))) =
    (no_error,
     {| m_db := snd (DB_Write (m_db d)
                       ([] ++ [Put default_column (metadata_key (m_opts d))
                                 (serialize (m_meta d))]));
        m_opts := m_opts d;
        m_meta := {| m_dirty := false; m_seq := m_seq (m_meta d) |} |})).
  { unfold open. cbn [ok negb m_db m_opts m_meta]. rewrite Hopts.
    rewrite (DB_Get_after_Put (m_db d) [] default_column
               (metadata_key (m_opts d)) (serialize (m_meta d)) Hh).
    cbn [ok negb andb]. rewrite Hrt. cbn [is_error].
    unfold sync_metadata_callback.
    rewrite sync_metadata_clean by reflexivity.
    destruct (0 <? sync_metadata_timeout); reflexivity. }
  rewrite Hopen. cbn [fst snd m_meta].
  repeat split.
  intros n. rewrite get_sequence_calls_S. reflexivity.
Qed.
End Restart.

(** The sample database flushed and opened again. *)
Lemma reopen_after_flush_witness :
  let flushed := database_destructor sample.used_database in
  let reopened :=
    open sample.read_metadata 60000
      (example.database_on example.failing_engine) kOk (m_db flushed) in
  flushed = snd (fst (sync_metadata sample.used_database None)) /\
  fst reopened = no_error /\
  m_meta (snd reopened) = {| m_dirty := false; m_seq := 7 |} /\
  fst (get_sequence (m_meta (snd reopened))) = 7 /\
  forall n : nat,
    hd_error (fst (get_sequence_calls (S n) (m_meta flushed))) =
    Some (fst (get_sequence (m_meta (snd reopened)))).
Proof.
  exact (reopen_after_flush sample.read_metadata 60000
           sample.used_database
           (example.database_on example.failing_engine)
           eq_refl eq_refl eq_refl eq_refl eq_refl).
Defined.

(** ** The sequence counter in the life of a database *)

Section SequenceLife.
Context `{Deserialize disk_index, Serialize disk_index,
          Deserialize document_for_index,
          Deserialize disk_token, Serialize disk_token,
          Serialize metadata}.
Variable deserialize_metadata : metadata -> string -> error_info * metadata.
Variable sync_metadata_timeout : Z.

Lemma database_get_sequence_calls_meta (n : nat) (d : database) :
  fst (database_get_sequence_calls n d) =
    fst (get_sequence_calls n (m_meta d)) /\
  m_db (snd (database_get_sequence_calls n d)) = m_db d /\
  m_opts (snd (database_get_sequence_calls n d)) = m_opts d /\
  m_meta (snd (database_get_sequence_calls n d)) =
    snd (get_sequence_calls n (m_meta d)).
Proof.
  unfold database_get_sequence_calls.
  destruct (get_sequence_calls n (m_meta d)) as [vs m].
  repeat split.
Qed.

Lemma shifted_seq_from (a : Z) (n : nat) :
  forall s : nat,
    map (fun i => a + Z.of_nat s + Z.of_nat i) (List.seq 0 n) =
    map (fun i => a + Z.of_nat i) (List.seq s n).
Proof.
  induction n as [|n IH]; intros s; [reflexivity|].
  cbn [List.seq map]. f_equal; [lia|].
  rewrite <- seq_shift, map_map, <- IH.
  apply map_ext. intros i. lia.
Qed.

Lemma open_flushed (d fresh : database) :
  ok (health (m_db d)) = true ->
  dirty (m_meta d) = true ->
  m_opts fresh = m_opts d ->
  dirty (m_meta fresh) = false ->
  deserialize_metadata (m_meta fresh) (serialize (m_meta d)) =
    (no_error, {| m_dirty := false; m_seq := m_seq (m_meta d) |}) ->
  open deserialize_metadata sync_metadata_timeout fresh kOk
    (m_db (database_destructor d)) =
  (no_error,
   {| m_db := m_db (database_destructor d);
      m_opts := m_opts d;
      m_meta := {| m_dirty := false; m_seq := m_seq (m_meta d) |} |}).
Proof.
  intros Hh Hd Hopts Hfresh Hrt.
  rewrite (database_destructor_flushes d Hd Hh). cbn [m_db].
  unfold open. cbn [ok negb m_db m_opts m_meta]. rewrite Hopts.
  rewrite (DB_Get_after_Put (m_db d) [] default_column
             (metadata_key (m_opts d)) (serialize (m_meta d)) Hh).
  cbn [ok negb andb]. rewrite Hrt. cbn [is_error].
  unfold sync_metadata_callback.
  rewrite sync_metadata_clean by reflexivity.
  destruct (0 <? sync_metadata_timeout); reflexivity.
Qed.

(** C6 as the code has it.  Every call of [get_sequence] sets the dirty
    flag, returns the counter and advances it by one in 64-bit
    arithmetic.  Over any run of calls on one object that does not take
    the counter past [LONG_MAX], the values returned are the consecutive
    numbers from the counter on: each is strictly greater than all those
    returned before it, and none comes twice.  In the life of a database
    this goes on over a restart when the metadata are flushed after the
    last call, by the timer or by the destructor, and read back by
    [open]: the values handed out before the flush and those handed out
    after the reopening are, taken together, strictly increasing and
    without a repeat. *)
Theorem get_sequence_monotonic_while_flushed :
  (forall m : metadata,
      fst (get_sequence m) = m_seq m /\
      m_dirty (snd (get_sequence m)) = true /\
      m_seq (snd (get_sequence m)) = wrap_long (m_seq m + 1)) /\
  (forall (n : nat) (m : metadata),
      m_dirty (snd (get_sequence_calls (S n) m)) = true) /\
  (forall (n : nat) (m : metadata),
      is_long (m_seq m) ->
      m_seq m + Z.of_nat n <= LONG_MAX + 1 ->
      fst (get_sequence_calls n m) =
        map (fun i => m_seq m + Z.of_nat i) (List.seq 0 n) /\
      StronglySorted Z.lt (fst (get_sequence_calls n m)) /\
      List.NoDup (fst (get_sequence_calls n m))) /\
  (forall (d fresh : database) (n k : nat),
      ok (health (m_db d)) = true ->
      m_opts fresh = m_opts d ->
      dirty (m_meta fresh) = false ->
      is_long (m_seq (m_meta d)) ->
      m_seq (m_meta d) + Z.of_nat (S n) + Z.of_nat k <= LONG_MAX + 1 ->
      deserialize_metadata (m_meta fresh)
        (serialize (m_meta (snd (database_get_sequence_calls (S n) d)))) =
        (no_error,
         {| m_dirty := false;
            m_seq :=
              m_seq (m_meta (snd (database_get_sequence_calls (S n) d))) |}) ->
      let before := database_get_sequence_calls (S n) d in
      let flushed := database_destructor (snd before) in
      let reopened :=
        open deserialize_metadata sync_metadata_timeout fresh kOk
          (m_db flushed) in
      let after := database_get_sequence_calls k (snd reopened) in
      flushed = sync_metadata_callback (snd before) /\
      fst reopened = no_error /\
      fst before ++ fst after =
        map (fun i => m_seq (m_meta d) + Z.of_nat i)
          (List.seq 0 (S n + k)) /\
      StronglySorted Z.lt (fst before ++ fst after) /\
      List.NoDup (fst before ++ fst after)).
Proof.
  split; [intros m; repeat split|].
  split; [apply get_sequence_calls_dirty|].
  split; [apply get_sequence_calls_increasing|].
  intros d fresh n k Hh Hopts Hfresh Hl Hb Hrt. cbv zeta.
  destruct (database_get_sequence_calls_meta (S n) d)
    as [Hvs [Hdb [Ho Hm]]].
  set (d1 := snd (database_get_sequence_calls (S n) d)) in *.
  assert (Hd1 : dirty (m_meta d1) = true).
  { unfold dirty. rewrite Hm. apply get_sequence_calls_dirty. }
  assert (Hh1 : ok (health (m_db d1)) = true) by (rewrite Hdb; exact Hh).
  assert (Ho1 : m_opts fresh = m_opts d1) by (rewrite Ho; exact Hopts).
  rewrite (open_flushed d1 fresh Hh1 Hd1 Ho1 Hfresh Hrt).
  cbn [fst snd].
  split; [reflexivity|]. split; [reflexivity|].
  destruct (database_get_sequence_calls_meta k
              {| m_db := m_db (database_destructor d1);
                 m_opts := m_opts d1;
                 m_meta := {| m_dirty := false;
                              m_seq := m_seq (m_meta d1) |} |})
    as [Hvs2 _].
  rewrite Hvs, Hvs2. cbn [m_meta].
  assert (Hvalues :
    fst (get_sequence_calls (S n) (m_meta d)) ++
    fst (get_sequence_calls k
           {| m_dirty := false; m_seq := m_seq (m_meta d1) |}) =
    map (fun i => m_seq (m_meta d) + Z.of_nat i) (List.seq 0 (S n + k))).
  { rewrite (get_sequence_calls_values (S n) (m_meta d) Hl) by lia.
    destruct k as [|k].
    - rewrite Nat.add_0_r. apply app_nil_r.
    - assert (Hseq : m_seq (m_meta d1) = m_seq (m_meta d) + Z.of_nat (S n)).
      { rewrite Hm. apply get_sequence_calls_counter; [exact Hl | lia]. }
      rewrite get_sequence_calls_values; cbn [m_seq].
      + rewrite seq_app, map_app, Nat.add_0_l, Hseq. f_equal.
        apply shifted_seq_from.
      + rewrite Hseq. limits. lia.
      + rewrite Hseq. lia. }
  rewrite Hvalues.
  split; [reflexivity|]. split; [apply shifted_seq_increasing|].
  apply increasing_NoDup, shifted_seq_increasing.
Qed.
End SequenceLife.

(** Three calls on a fresh [metadata]; and the sample database, which
    hands out 7, 8 and 9, is flushed and opened again, and then hands out
    10 and 11. *)
Lemma get_sequence_monotonic_while_flushed_witness :
  (fst (get_sequence_calls 3 metadata_new) = [0; 1; 2] /\
   StronglySorted Z.lt (fst (get_sequence_calls 3 metadata_new)) /\
   List.NoDup (fst (get_sequence_calls 3 metadata_new))) /\
  (let before := database_get_sequence_calls 3 sample.used_database in
   let flushed := database_destructor (snd before) in
   let reopened :=
     open sample.read_metadata 60000
       (example.database_on example.failing_engine) kOk (m_db flushed) in
   let after := database_get_sequence_calls 2 (snd reopened) in
   flushed = sync_metadata_callback (snd before) /\
   fst reopened = no_error /\
   fst before ++ fst after = [7; 8; 9; 10; 11] /\
   StronglySorted Z.lt (fst before ++ fst after) /\
   List.NoDup (fst before ++ fst after)).
Proof.
  split.
  - refine (proj1 (proj2 (proj2
              (get_sequence_monotonic_while_flushed
                 sample.read_metadata 60000)))
              3%nat metadata_new _ _).
    + limits. simpl. lia.
    + limits. simpl. lia.
  - refine (proj2 (proj2 (proj2
              (get_sequence_monotonic_while_flushed
                 sample.read_metadata 60000)))
              sample.used_database
              (example.database_on example.failing_engine)
              2%nat 2%nat eq_refl eq_refl eq_refl _ _ eq_refl).
    + limits. simpl. lia.
    + limits. simpl. lia.
Defined.

(** C6 as stated fails in the life of a database in two ways.  The
    sample database is flushed by its timer with its counter at 7 and
    then hands out 7, 8 and 9; the process ends without another flush, and the database
    opened again on the store hands out 7, 8 and 9 once more.  And where
    the counter is at [LONG_MAX], the object read back from a stored
    [[2, LONG_MAX]] returns [LONG_MAX] and then [LONG_MIN], which is not
    greater. *)
Lemma get_sequence_repeats_after_restart :
  (let flushed := sync_metadata_callback sample.used_database in
   let old := database_get_sequence_calls 3 flushed in
   let reopened :=
     open sample.read_metadata 60000
       (example.database_on example.failing_engine) kOk
       (m_db (snd old)) in
   let new := database_get_sequence_calls 3 (snd reopened) in
   fst old = [7; 8; 9] /\
   fst reopened = no_error /\
   fst new = [7; 8; 9] /\
   ~ List.NoDup (fst old ++ fst new) /\
   ~ StronglySorted Z.lt (fst old ++ fst new)) /\
  msgpack_unpack NIL
    (ARRAY [POSITIVE_INTEGER 2; POSITIVE_INTEGER 9223372036854775807])
    metadata_new =
    Normal {| m_dirty := false; m_seq := 9223372036854775807 |} /\
  fst (get_sequence_calls 2
         {| m_dirty := false; m_seq := 9223372036854775807 |}) =
    [9223372036854775807; -9223372036854775808] /\
  ~ (forall (m : metadata) (v1 v2 : Z),
        is_long (m_seq m) ->
        fst (get_sequence_calls 2 m) = [v1; v2] -> v1 < v2).
Proof.
  split.
  { cbv zeta.
    assert (Hold :
      fst (database_get_sequence_calls 3
             (sync_metadata_callback sample.used_database)) = [7; 8; 9])
      by (vm_compute; reflexivity).
    assert (Hnew :
      fst (database_get_sequence_calls 3
             (snd (open sample.read_metadata 60000
                     (example.database_on example.failing_engine) kOk
                     (m_db (snd (database_get_sequence_calls 3
                                   (sync_metadata_callback
                                      sample.used_database))))))) =
      [7; 8; 9]) by (vm_compute; reflexivity).
    rewrite Hold, Hnew.
    split; [reflexivity|]. split; [vm_compute; reflexivity|].
    split; [reflexivity|]. split.
    - intros Hnd. inversion Hnd as [|v l Hnotin _]; subst.
      apply Hnotin. simpl. auto.
    - intros Hs. inversion Hs as [|v l _ Hall]; subst.
      rewrite List.Forall_forall in Hall.
      specialize (Hall 7 ltac:(simpl; auto)). lia. }
  split; [vm_compute; reflexivity|].
  split; [vm_compute; reflexivity|].
  intros Hmono.
  specialize (Hmono {| m_dirty := false; m_seq := 9223372036854775807 |}
                9223372036854775807 (-9223372036854775808)).
  assert (Hlt : 9223372036854775807 < -9223372036854775808).
  { apply Hmono; [|vm_compute; reflexivity]. limits. simpl. lia. }
  lia.
Qed.

(** ** More on [check_exact] *)

Lemma check_exact_offsets (tokens : list token.t) (content : list string) :
  (forall t p, In t tokens -> In p (token.positions t) -> (p < 2 ^ 32)%N) ->
  (N.of_nat (length content) < 2 ^ 63)%N ->
  on_search.check_exact tokens content = true <->
  exists o : N,
    (o < N.of_nat (length content))%N /\
    forall t, In t tokens -> forall p, In p (token.positions t) ->
      (o + p < N.of_nat (length content))%N /\
      nth_error content (N.to_nat (o + p)) = Some (token.name t).
Proof.
  intros Hpos Hlen.
  assert (Hwrap : forall (o : N) t,
             (o < N.of_nat (length content))%N -> In t tokens ->
             forall p, In p (token.positions t) -> (o + p < 2 ^ 64)%N).
  { intros o t Ho Ht p Hp. specialize (Hpos t p Ht Hp).
    change (2 ^ 64)%N with 18446744073709551616%N.
    change (2 ^ 63)%N with 9223372036854775808%N in Hlen.
    change (2 ^ 32)%N with 4294967296%N in Hpos. lia. }
  unfold on_search.check_exact.
  rewrite check_offsets_true
    by (change (2 ^ 64)%N with 18446744073709551616%N;
        change (2 ^ 63)%N with 9223372036854775808%N in Hlen; lia).
  split.
  - intros [o [Ho Hc]]. exists o. split; [lia|].
    intros t Ht. rewrite check_tokens_true in Hc.
    apply (proj1 (check_positions_true _ _ _ _ (Hwrap o t ltac:(lia) Ht))).
    apply Hc, Ht.
  - intros [o [Ho Hall]]. exists o. split; [lia|].
    apply check_tokens_true. intros t Ht.
    apply (proj2 (check_positions_true _ _ _ _ (Hwrap o t Ho Ht))).
    apply Hall, Ht.
Qed.

(** X8.  A pattern that [check_exact] finds in a content is found in
    every content that has it as a stretch: words put before or after do
    not undo a match.  The positions are unsigned 32-bit numbers and the
    longer content has fewer than [2^63] words. *)
Theorem check_exact_in_longer_content (tokens : list token.t)
    (before content after : list string) :
  (forall t p, In t tokens -> In p (token.positions t) -> (p < 2 ^ 32)%N) ->
  (N.of_nat (length (before ++ content ++ after)) < 2 ^ 63)%N ->
  on_search.check_exact tokens content = true ->
  on_search.check_exact tokens (before ++ content ++ after) = true.
Proof.
  intros Hpos Hlen Hc.
  rewrite !length_app in Hlen.
  apply check_exact_offsets in Hc; [|assumption|lia].
  apply check_exact_offsets;
    [assumption | rewrite !length_app; assumption |].
  destruct Hc as [o [Ho Hall]].
  exists (N.of_nat (length before) + o)%N. rewrite !length_app.
  split; [lia|]. intros t Ht p Hp.
  destruct (Hall t Ht p Hp) as [Hlt Hnth]. split; [lia|].
  replace (N.to_nat (N.of_nat (length before) + o + p))
    with (length before + N.to_nat (o + p))%nat by lia.
  rewrite nth_error_app2 by lia.
  replace (length before + N.to_nat (o + p) - length before)%nat
    with (N.to_nat (o + p)) by lia.
  rewrite nth_error_app1 by lia. assumption.
Qed.

(** The phrase [quick fox] inside a longer sentence. *)
Lemma check_exact_in_longer_content_witness :
  on_search.check_exact
    [token.mk "quick" [0%N] [] "" ""; token.mk "fox" [1%N] [] "" ""]
    (["the"] ++ ["quick"; "fox"] ++ ["jumps"]) = true.
Proof.
  refine (check_exact_in_longer_content
            [token.mk "quick" [0%N] [] "" ""; token.mk "fox" [1%N] [] "" ""]
            ["the"] ["quick"; "fox"] ["jumps"] _ _ _).
  - intros t p [<-|[<-|[]]] [<-|[]]; reflexivity.
  - reflexivity.
  - reflexivity.
Defined.

(** X9.  The edges of [check_exact].  In an empty content nothing is
    found, not even the empty pattern.  A pattern whose tokens carry no
    positions, the pattern without tokens among them, is found in every
    content that is not empty. *)
Theorem check_exact_edges (tokens : list token.t) :
  on_search.check_exact tokens [] = false /\
  ((forall t, In t tokens -> token.positions t = []) ->
   forall (word : string) (content : list string),
     on_search.check_exact tokens (word :: content) = true).
Proof.
  split; [reflexivity|].
  intros Hnone word content. unfold on_search.check_exact.
  cbn [length on_search.check_offsets].
  assert (Ht : on_search.check_tokens true tokens (word :: content) 0%N
               = true).
  { apply check_tokens_true. intros t Hin.
    unfold on_search.check_token_positions. rewrite (Hnone t Hin).
    reflexivity. }
  rewrite Ht. reflexivity.
Qed.

(** A token without positions against a single word. *)
Lemma check_exact_edges_witness :
  on_search.check_exact [token.mk "fox" [] [] "" ""] ("dog" :: []) = true.
Proof.
  refine (proj2 (check_exact_edges [token.mk "fox" [] [] "" ""]) _
            "dog" []).
  intros t [<-|[]]. reflexivity.
Defined.

(** ** The compaction tool *)

Section Compaction.
Import compact.

Lemma size_of_nonneg (chunk : list (string * string)) : 0 <= size_of chunk.
Proof. induction chunk as [|[k v] rest IH]; simpl; lia. Qed.

Lemma size_of_app (a b : list (string * string)) :
  size_of (a ++ b) = size_of a + size_of b.
Proof. induction a as [|[k v] a IH]; simpl; lia. Qed.

Lemma compact_size_of_small (csize_mb : Z) :
  - 8796093022208 <= csize_mb <= 8796093022207 ->
  compact_size_of csize_mb = csize_mb * 1048576.
Proof.
  intros Hc. unfold compact_size_of.
  rewrite (wrap_long_small (csize_mb * 1024)) by (limits; lia).
  rewrite wrap_long_small by (limits; lia). lia.
Qed.

Lemma fill_spec (compact_size : Z) (entries : list (string * string))
    (place : nat) (current_size : Z) (end_ : Slice) :
  0 <= current_size ->
  current_size + size_of entries <= LONG_MAX ->
  exists chunk rest,
    entries = chunk ++ rest /\
    fill compact_size entries place current_size end_ =
      (rest, (place + length chunk)%nat, current_size + size_of chunk,
       match chunk with
       | [] => end_
       | _ :: _ => key_view (place + length chunk - 1)
       end) /\
    (rest <> [] -> compact_size <= current_size + size_of chunk) /\
    (chunk <> [] ->
     current_size + size_of (List.removelast chunk) < compact_size) /\
    (current_size < compact_size -> entries <> [] -> chunk <> []).
Proof.
  revert place current_size end_.
  induction entries as [|[k v] entries IH]; intros place cur e Hcur Hfit.
  - exists [], []. simpl. repeat split; try congruence.
    rewrite Z.add_0_r, Nat.add_0_r. reflexivity.
  - cbn [fill]. destruct (Z.ltb_spec cur compact_size) as [Hlt|Hge].
    + cbn [size_of] in Hfit. pose proof (size_of_nonneg entries) as Hnn.
      rewrite wrap_long_small by (limits; lia).
      destruct (IH (S place) (cur + Z.of_nat (String.length v))
                  (key_view place) ltac:(lia) ltac:(lia))
        as [chunk [rest [He [Hf [Hrest [Hmin _]]]]]].
      exists ((k, v) :: chunk), rest. rewrite Hf.
      split; [simpl; congruence|].
      split.
      { cbn [size_of length]. f_equal; [f_equal; [f_equal; lia | lia]|].
        destruct chunk as [|kv chunk]; cbn [length]; f_equal; lia. }
      split; [cbn [size_of]; intros Hr; specialize (Hrest Hr); lia|].
      split; [|congruence].
      intros _. destruct chunk as [|kv chunk].
      * simpl. lia.
      * change (List.removelast ((k, v) :: kv :: chunk))
          with ((k, v) :: List.removelast (kv :: chunk)).
        cbn [size_of]. specialize (Hmin ltac:(congruence)). lia.
    + exists [], ((k, v) :: entries). simpl.
      split; [reflexivity|].
      split; [rewrite Z.add_0_r, Nat.add_0_r; reflexivity|].
      split; [intros _; lia|]. split; [congruence|]. intros Hlt. lia.
Qed.

Lemma covers_first_run (compact_size : Z) (first : nat)
    (chunks : list (list (string * string))) (calls : list compaction) :
  covers compact_size first chunks calls ->
  match chunks with
  | [] => True
  | chunk :: _ => chunk <> []
  end.
Proof.
  destruct chunks as [|chunk chunks]; [trivial|].
  destruct calls as [|call calls]; [intros []|].
  intros [[Hne _] _]. exact Hne.
Qed.

Lemma covers_views_moved (compact_size : Z)
    (chunks : list (list (string * string))) :
  forall (first : nat) (calls : list compaction),
    covers compact_size first chunks calls ->
    Forall (fun call =>
              holds call (start call) = false /\
              holds call (end_ call) = false) calls.
Proof.
  induction chunks as [|chunk chunks IH]; intros first calls Hc;
    destruct calls as [|call calls]; try (destruct Hc; fail);
    constructor.
  - destruct Hc as [[Hne [Hs [He [Hp _]]]] _].
    rewrite Hs, He. unfold holds. rewrite Hp.
    destruct chunk as [|kv chunk]; [congruence|]. cbn [length].
    split; apply Nat.eqb_neq; lia.
  - destruct Hc as [_ Hc]. exact (IH _ _ Hc).
Qed.

Lemma compact_loop_spec (compact_size : Z) (fuel : nat)
    (entries : list (string * string)) (place : nat)
    (done : list compaction) :
  0 < compact_size ->
  size_of entries <= LONG_MAX ->
  (length entries <= fuel)%nat ->
  exists calls chunks,
    compact_loop fuel compact_size entries place done =
      Some (done ++ calls) /\
    concat chunks = entries /\
    covers compact_size place chunks calls /\
    Forall (fun chunk => compact_size <= size_of chunk)
      (List.removelast chunks).
Proof.
  intros Hcs. revert entries place done.
  induction fuel as [|fuel IH]; intros entries place done Hfit Hfuel.
  - destruct entries as [|kv entries]; [|simpl in Hfuel; lia].
    exists [], []. simpl. rewrite app_nil_r.
    repeat split; constructor.
  - destruct entries as [|[k v] entries].
    { exists [], []. simpl. rewrite app_nil_r. repeat split; constructor. }
    cbn [compact_loop].
    destruct (fill_spec compact_size ((k, v) :: entries) place 0 no_view
                ltac:(lia) ltac:(lia))
      as [chunk [rest [He [Hf [Hrest [Hmin Hne]]]]]].
    specialize (Hne Hcs ltac:(congruence)). specialize (Hmin Hne).
    rewrite Hf.
    assert (Hlen : (length rest <= fuel)%nat).
    { apply (f_equal (@length _)) in He. rewrite length_app in He.
      simpl in He, Hfuel. destruct chunk; [congruence|]. simpl in He. lia. }
    assert (Hsz : size_of rest <= LONG_MAX).
    { rewrite He, size_of_app in Hfit.
      pose proof (size_of_nonneg chunk). lia. }
    destruct (IH rest (place + length chunk)%nat
                (done ++ [{| start := key_view place;
                             end_ := match chunk with
                                     | [] => no_view
                                     | _ :: _ =>
                                         key_view (place + length chunk - 1)
                                     end;
                             current_size := 0 + size_of chunk;
                             place_at_call := (place + length chunk)%nat |}])
                Hsz Hlen)
      as [calls [chunks [Hl [Hc [Hall Hbig]]]]].
    eexists (_ :: calls), (chunk :: chunks).
    split; [rewrite Hl, <- app_assoc; reflexivity|].
    split; [simpl; congruence|].
    split.
    + cbn [covers]. split; [|assumption].
      destruct chunk as [|kv chunk]; [congruence|].
      unfold compacts. cbn [start end_ current_size place_at_call].
      repeat split; [congruence | lia].
    + destruct chunks as [|chunk' chunks]; [constructor|].
      change (List.removelast (chunk :: chunk' :: chunks))
        with (chunk :: List.removelast (chunk' :: chunks)).
      constructor; [|assumption].
      assert (Hr : rest <> []).
      { rewrite <- Hc. pose proof (covers_first_run _ _ _ _ Hall) as Hn.
        destruct chunk' as [|kv chunk']; [congruence | discriminate]. }
      specialize (Hrest Hr). lia.
Qed.

(** X10.  With a chunk size that is positive the compaction loop comes to
    its end, in no more turns than the column has entries.  Its calls of
    [db.compact] go through the column in order and leave no entry out:
    the entries split into consecutive runs, one per call, whose views
    [start] and [end] were taken at the first and at the last entry of
    the run; a run is cut as soon as its values add up to the chunk size,
    so every run but the last reaches that size and no run reaches it
    before its last entry.  At every call the iterator has moved on from
    the entries of both views, so the storage they view is no longer held
    for them.  The value returned is minus the status code of the
    iterator, 0 when it is fine; on an empty column there is no call at
    all.  The chunk size is the product as the machine gives it, and the
    sizes of the values are taken to add up within a [long]. *)
Theorem compact_column_covers (it : iterator) (csize_mb : Z) (fuel : nat) :
  0 < compact_size_of csize_mb ->
  size_of (entries it) <= LONG_MAX ->
  (length (entries it) <= fuel)%nat ->
  exists calls chunks,
    compact_column it csize_mb fuel = Some (- code_of (status it), calls) /\
    concat chunks = entries it /\
    covers (compact_size_of csize_mb) 0 chunks calls /\
    Forall (fun chunk => compact_size_of csize_mb <= size_of chunk)
      (List.removelast chunks) /\
    Forall (fun call =>
              holds call (start call) = false /\
              holds call (end_ call) = false) calls.
Proof.
  intros Hpos Hfit Hfuel. unfold compact_column, Valid.
  destruct (entries it) as [|kv entries] eqn:He.
  - exists [], []. simpl. repeat split; constructor.
  - cbn [negb].
    destruct (compact_loop_spec (compact_size_of csize_mb) fuel
                (kv :: entries) 0 [] Hpos Hfit Hfuel)
      as [calls [chunks [Hl [Hc [Hall Hbig]]]]].
    exists calls, chunks. rewrite Hl. simpl app.
    split.
    { destruct (Z.eqb_spec (code_of (status it)) 0) as [E|E]; simpl.
      - rewrite E. reflexivity.
      - reflexivity. }
    split; [assumption|]. split; [assumption|]. split; [assumption|].
    exact (covers_views_moved _ _ _ _ Hall).
Qed.

Lemma compact_loop_stuck (compact_size : Z) (fuel : nat)
    (entries : list (string * string)) (place : nat)
    (done : list compaction) :
  compact_size <= 0 -> entries <> [] ->
  compact_loop fuel compact_size entries place done = None.
Proof.
  intros Hcs Hne. revert done.
  induction fuel as [|fuel IH]; intros done;
    destruct entries as [|[k v] entries]; try congruence.
  - reflexivity.
  - cbn [compact_loop fill].
    destruct (Z.ltb_spec 0 compact_size) as [Hlt|Hge]; [lia|].
    apply IH.
Qed.

(** X11.  With a chunk size that is zero or negative, as it is for every
    [--size] from [-8796093022208] to [0], and a column that is not empty
    the compaction loop never ends: the inner loop does not move the
    iterator, so every turn finds it where it was and calls [db.compact]
    with the view of the first key and the empty view.  No number of
    turns brings the tool to its end. *)
Theorem compact_column_never_ends (it : iterator) (csize_mb : Z) :
  compact_size_of csize_mb <= 0 ->
  entries it <> [] ->
  (- 8796093022208 <= csize_mb <= 0 ->
   compact_size_of csize_mb = csize_mb * 1048576) /\
  fill (compact_size_of csize_mb) (entries it) 0 0 no_view =
    (entries it, O, 0, no_view) /\
  forall fuel : nat, compact_column it csize_mb fuel = None.
Proof.
  intros Hcs Hne. split; [|split].
  - intros Hc. apply compact_size_of_small. lia.
  - destruct (entries it) as [|[k v] entries]; [congruence|].
    cbn [fill].
    destruct (Z.ltb_spec 0 (compact_size_of csize_mb)) as [Hlt|Hge];
      [lia | reflexivity].
  - intros fuel. unfold compact_column, Valid.
    destruct (entries it) as [|kv entries] eqn:He; [congruence|].
    cbn [negb]. rewrite compact_loop_stuck; [reflexivity | lia | congruence].
Qed.
End Compaction.

(** Three entries compacted in chunks of at least 1 MB: here one chunk. *)
Lemma compact_column_covers_witness :
  exists calls chunks,
    compact.compact_column
      {| compact.entries :=
           [("index.a", "I1"); ("index.b", "I2"); ("token_shards.a", "S0")];
         compact.status := kOk |} 1 3 =
      Some (- code_of kOk, calls) /\
    concat chunks =
      [("index.a", "I1"); ("index.b", "I2"); ("token_shards.a", "S0")] /\
    compact.covers (compact.compact_size_of 1) 0 chunks calls /\
    Forall (fun chunk => compact.compact_size_of 1 <= compact.size_of chunk)
      (List.removelast chunks) /\
    Forall (fun call =>
              compact.holds call (compact.start call) = false /\
              compact.holds call (compact.end_ call) = false) calls.
Proof.
  refine (compact_column_covers
            {| compact.entries :=
                 [("index.a", "I1"); ("index.b", "I2");
                  ("token_shards.a", "S0")];
               compact.status := kOk |} 1 3 _ _ _).
  - vm_compute. reflexivity.
  - limits. simpl. lia.
  - simpl. lia.
Defined.

(** A column of one entry and [--size 0]. *)
Lemma compact_column_never_ends_witness :
  (- 8796093022208 <= 0 <= 0 ->
   compact.compact_size_of 0 = 0 * 1048576) /\
  compact.fill (compact.compact_size_of 0) [("index.a", "I1")] 0 0
    compact.no_view =
    ([("index.a", "I1")], O, 0, compact.no_view) /\
  forall fuel : nat,
    compact.compact_column
      {| compact.entries := [("index.a", "I1")]; compact.status := kOk |}
      0 fuel = None.
Proof.
  refine (compact_column_never_ends
            {| compact.entries := [("index.a", "I1")];
               compact.status := kOk |} 0 _ _).
  - vm_compute. discriminate.
  - discriminate.
Defined.

(** A [--size] whose product leaves the 64 bits: the chunk size comes out
    positive, and the loop over a column of one entry ends after one
    turn. *)
Lemma compact_column_wrapped_size :
  compact.compact_size_of (- 8796093022209) = 9223372036853727232 /\
  compact.compact_column
    {| compact.entries := [("index.a", "I1")]; compact.status := kOk |}
    (- 8796093022209) 1 =
  Some (0, [{| compact.start := compact.key_view 0;
               compact.end_ := compact.key_view 0;
               compact.current_size := 2;
               compact.place_at_call := 1 |}]).
Proof. split; vm_compute; reflexivity. Qed.

(** ** A request of several documents *)

Section ParseDocs.
Import on_index.
Context `{Serialize document.t, Serialize id_t,
          Serialize document_for_index, Serialize disk_token}.
Variable generate_token_keys : options -> document.t -> document.t.
Variable to_string : id_t -> string.
Variable Value : Type.
Variables IsObject IsArray IsString : Value -> bool.
Variable GetString : Value -> string.
Variable elements : Value -> list Value.
Variable get_string : Value -> string -> option string.
Variable get_string_or : Value -> string -> string -> string.
Variables get_object get_array : Value -> string -> Value.
Variable get_int64 : Value -> string -> Z -> Z.
Variable clock_gettime : nat -> Z * Z.
Variable hash : string -> N.
Variable assign_id : document.t -> string -> N -> Z -> Z -> document.t.
Variable get_indexes : options -> Value -> indexes.t.
Variable new_document : document.t.

Local Abbreviation parse_doc' :=
  (parse_doc generate_token_keys to_string Value IsObject IsArray IsString
     GetString elements get_string get_string_or get_object get_array
     get_int64 clock_gettime hash assign_id get_indexes new_document).
Local Abbreviation parse_docs_from' :=
  (parse_docs_from generate_token_keys to_string Value IsObject IsArray
     IsString GetString elements get_string get_string_or get_object
     get_array get_int64 clock_gettime hash assign_id get_indexes
     new_document).
Local Abbreviation parse_docs' :=
  (parse_docs generate_token_keys to_string Value IsObject IsArray IsString
     GetString elements get_string get_string_or get_object get_array
     get_int64 clock_gettime hash assign_id get_indexes new_document).
Local Abbreviation process' :=
  (process_one_document generate_token_keys to_string).

(** What one document adds to the record of writes. *)
Lemma process_one_document_history (srv : http_server) (doc : document.t) :
  exists b1 b2,
    (is_error (fst (fst (process' srv doc))) = false /\
     history (snd (process' srv doc)) =
       history srv ++
       [{| target := docs_store; batch := b1; committed := true |};
        {| target := indexes_store; batch := b2; committed := true |}]) \/
    (is_error (fst (fst (process' srv doc))) = true /\
     (history (snd (process' srv doc)) =
        history srv ++
        [{| target := docs_store; batch := b1; committed := false |}] \/
      history (snd (process' srv doc)) =
        history srv ++
        [{| target := docs_store; batch := b1; committed := true |};
         {| target := indexes_store; batch := b2; committed := false |}])).
Proof.
  unfold process_one_document, db_docs_write, db_indexes_write.
  set (doc' := generate_token_keys (m_opts (m_db_indexes srv)) doc).
  exists (build_docs_batch to_string doc'), (build_indexes_batch doc').
  destruct (ok (health (m_db (m_db_docs srv)))) eqn:Hd.
  - destruct (write_taken (m_db_docs srv) (build_docs_batch to_string doc') Hd)
      as [He _].
    destruct (write (m_db_docs srv) (build_docs_batch to_string doc'))
      as [err d]. simpl in He. subst err. simpl.
    destruct (ok (health (m_db (m_db_indexes srv)))) eqn:Hi.
    + destruct (write_taken (m_db_indexes srv) (build_indexes_batch doc') Hi)
        as [He2 _].
      destruct (write (m_db_indexes srv) (build_indexes_batch doc'))
        as [err2 d2]. simpl in He2. subst err2. simpl.
      left. rewrite <- app_assoc. auto.
    + destruct (write_refused (m_db_indexes srv) (build_indexes_batch doc') Hi)
        as [He2 _].
      destruct (write (m_db_indexes srv) (build_indexes_batch doc'))
        as [err2 d2]. simpl in He2. rewrite He2. simpl.
      right. rewrite <- app_assoc. auto.
  - destruct (write_refused (m_db_docs srv) (build_docs_batch to_string doc') Hd)
      as [He _].
    destruct (write (m_db_docs srv) (build_docs_batch to_string doc'))
      as [err d]. simpl in He. rewrite He. simpl. right. auto.
Qed.

(** A turn that ends with [return] returns an error; a turn that runs to
    its end has written one document and leaves [err] empty. *)
Lemma parse_doc_turn (mbox : string) (n : nat) (it : Value)
    (err : error_info) (srv : http_server) :
  match parse_doc' mbox n it err srv with
  | (Return e, srv') =>
      is_error e = true /\
      (srv' = srv \/
       exists doc, is_error (fst (fst (process' srv doc))) = true /\
                   srv' = snd (process' srv doc))
  | (Next e, srv') =>
      e = no_error /\
      IsObject it = true /\
      (exists id, get_string it "id" = Some id) /\
      IsObject (get_object it "index") = true /\
      exists doc, is_error (fst (fst (process' srv doc))) = false /\
                  srv' = snd (process' srv doc)
  end.
Proof.
  unfold parse_doc.
  destruct (IsObject it) eqn:Hobj; cbn [negb]; [|auto].
  destruct (get_string it "id") as [id|] eqn:Hid; [|auto].
  destruct (if IsObject (get_object it "timestamp")
            then (get_int64 (get_object it "timestamp") "tsec"
                    (fst (clock_gettime n)),
                  get_int64 (get_object it "timestamp") "tnsec"
                    (snd (clock_gettime n)))
            else (fst (clock_gettime n), snd (clock_gettime n)))
    as [tsec tnsec].
  set (doc0 := match get_string it "author" with
               | Some _ => _
               | None => _
               end).
  destruct (IsObject (get_object it "content")) eqn:Hctx.
  - unfold parse_content at 1. cbn [andb is_error].
    destruct (IsObject (get_object it "index")) eqn:Hidx; cbn [negb]; [|auto].
    match goal with
    | |- context [process' srv ?d] =>
        set (doc := d);
        destruct (process' srv doc) as [[e doc'] srv'] eqn:Hp
    end.
    destruct (is_error e) eqn:He.
    + split; [assumption|]. right. exists doc. rewrite Hp. auto.
    + destruct e; [|discriminate].
      repeat split; eauto. exists doc. rewrite Hp. auto.
  - cbn [andb].
    destruct (IsObject (get_object it "index")) eqn:Hidx; cbn [negb]; [|auto].
    match goal with
    | |- context [process' srv ?d] =>
        set (doc := d);
        destruct (process' srv doc) as [[e doc'] srv'] eqn:Hp
    end.
    destruct (is_error e) eqn:He.
    + split; [assumption|]. right. exists doc. rewrite Hp. auto.
    + destruct e; [|discriminate].
      repeat split; eauto. exists doc. rewrite Hp. auto.
Qed.

Lemma parse_docs_from_app (mbox : string) (docs1 docs2 : list Value) :
  forall (n : nat) (err : error_info) (srv : http_server),
    docs1 <> [] ->
    is_error (fst (parse_docs_from' mbox n docs1 err srv)) = false ->
    parse_docs_from' mbox n (docs1 ++ docs2) err srv =
    parse_docs_from' mbox (n + length docs1) docs2 no_error
      (snd (parse_docs_from' mbox n docs1 err srv)).
Proof.
  induction docs1 as [|it rest IH]; intros n err srv Hne Hok;
    [congruence|].
  cbn [parse_docs_from app length] in *.
  pose proof (parse_doc_turn mbox n it err srv) as Ht.
  destruct (parse_doc' mbox n it err srv) as [[e|e] srv'].
  - destruct Ht as [He _]. cbn [fst] in Hok. congruence.
  - destruct Ht as [-> _].
    destruct rest as [|it' rest].
    + cbn [parse_docs_from app length snd]. rewrite Nat.add_1_r.
      reflexivity.
    + rewrite (IH (S n) no_error srv' ltac:(congruence) Hok).
      rewrite Nat.add_succ_r. reflexivity.
Qed.

Lemma parse_docs_from_success (mbox : string) (docs : list Value) :
  forall (n : nat) (err : error_info) (srv : http_server),
    docs <> [] ->
    is_error (fst (parse_docs_from' mbox n docs err srv)) = false ->
    Forall (fun it =>
              IsObject it = true /\
              (exists id, get_string it "id" = Some id) /\
              IsObject (get_object it "index") = true) docs /\
    exists batches : list (WriteBatch * WriteBatch),
      length batches = length docs /\
      history (snd (parse_docs_from' mbox n docs err srv)) =
      history srv ++
      flat_map
        (fun b =>
           [{| target := docs_store; batch := fst b; committed := true |};
            {| target := indexes_store; batch := snd b; committed := true |}])
        batches.
Proof.
  induction docs as [|it rest IH]; intros n err srv Hne Hok; [congruence|].
  cbn [parse_docs_from] in *.
  pose proof (parse_doc_turn mbox n it err srv) as Ht.
  destruct (parse_doc' mbox n it err srv) as [[e|e] srv'].
  - destruct Ht as [He _]. cbn [fst] in Hok. congruence.
  - destruct Ht as [-> [Hobj [Hid [Hidx [doc [Hp ->]]]]]].
    destruct (process_one_document_history srv doc)
      as [b1 [b2 [[_ Hh]|[Hbad _]]]]; [|congruence].
    destruct rest as [|it' rest].
    + cbn [parse_docs_from snd]. split; [repeat constructor; assumption|].
      exists [(b1, b2)]. split; [reflexivity|]. rewrite Hh. reflexivity.
    + destruct (IH (S n) no_error (snd (process' srv doc))
                  ltac:(congruence) Hok)
        as [Hall [batches [Hlen Hhist]]].
      split; [constructor; [repeat split|]; assumption|].
      exists ((b1, b2) :: batches).
      split; [cbn [length]; f_equal; exact Hlen|].
      rewrite Hhist, Hh, <- app_assoc. reflexivity.
Qed.

Local Abbreviation entry_document' :=
  (entry_document Value IsObject IsArray IsString GetString elements
     get_string get_string_or get_object get_array get_int64 clock_gettime
     hash assign_id get_indexes new_document).
Local Abbreviation document_writes' :=
  (document_writes generate_token_keys to_string).

(** The body of the loop is [process_one_document] on the document of the
    entry, when the entry has one. *)
Lemma parse_doc_entry (mbox : string) (n : nat) (it : Value)
    (err : error_info) (srv : http_server) :
  match entry_document' mbox n it (m_opts (m_db_indexes srv)) with
  | Some doc =>
      parse_doc' mbox n it err srv =
      (if is_error (fst (fst (process' srv doc)))
       then (Return (fst (fst (process' srv doc))), snd (process' srv doc))
       else (Next (fst (fst (process' srv doc))), snd (process' srv doc)))
  | None => exists e, parse_doc' mbox n it err srv = (Return e, srv)
  end.
Proof.
  unfold parse_doc, entry_document.
  destruct (IsObject it); cbn [negb]; [|eauto].
  destruct (get_string it "id") as [id|]; [|eauto].
  destruct (if IsObject (get_object it "timestamp")
            then (get_int64 (get_object it "timestamp") "tsec"
                    (fst (clock_gettime n)),
                  get_int64 (get_object it "timestamp") "tnsec"
                    (snd (clock_gettime n)))
            else (fst (clock_gettime n), snd (clock_gettime n)))
    as [tsec tnsec].
  destruct (IsObject (get_object it "content"));
    unfold parse_content; cbn [andb is_error fst snd];
    (destruct (IsObject (get_object it "index")); cbn [negb]; [|eauto]);
    match goal with
    | |- context [process' srv ?d] =>
        destruct (process' srv d) as [[e doc'] srv']
    end; reflexivity.
Qed.

Lemma process_one_document_taken (srv : http_server) (doc : document.t) :
  is_error (fst (fst (process' srv doc))) = false ->
  snd (process' srv doc) =
  written srv
    (build_docs_batch to_string
       (generate_token_keys (m_opts (m_db_indexes srv)) doc))
    (build_indexes_batch
       (generate_token_keys (m_opts (m_db_indexes srv)) doc))
    (document_writes' (m_opts (m_db_indexes srv)) doc).
Proof.
  unfold process_one_document, db_docs_write, db_indexes_write, write,
    DB_Write, written, document_writes.
  destruct (ok (health (m_db (m_db_docs srv)))) eqn:Hd;
    cbn [ok negb is_error fst snd m_db m_db_docs m_db_indexes history
         cells health];
    rewrite ?Hd;
    cbn [ok negb is_error fst snd m_db m_db_docs m_db_indexes history
         cells health]; [|discriminate].
  destruct (ok (health (m_db (m_db_indexes srv)))) eqn:Hi;
    cbn [ok negb is_error fst snd m_db m_db_docs m_db_indexes history
         cells health];
    rewrite ?Hi;
    cbn [ok negb is_error fst snd m_db m_db_docs m_db_indexes history
         cells health]; [|discriminate].
  intros _. rewrite <- app_assoc. reflexivity.
Qed.

(** A request that goes through has written the documents of its
    entries, one after the other. *)
Lemma parse_docs_from_written (mbox : string) (docs : list Value) :
  forall (n : nat) (err : error_info) (srv : http_server),
    docs <> [] ->
    is_error (fst (parse_docs_from' mbox n docs err srv)) = false ->
    exists documents : list document.t,
      map (fun e => entry_document' mbox (fst e) (snd e)
                      (m_opts (m_db_indexes srv)))
        (numbered Value n docs) = map Some documents /\
      snd (parse_docs_from' mbox n docs err srv) =
      written srv
        (flat_map
           (fun doc =>
              build_docs_batch to_string
                (generate_token_keys (m_opts (m_db_indexes srv)) doc))
           documents)
        (flat_map
           (fun doc =>
              build_indexes_batch
                (generate_token_keys (m_opts (m_db_indexes srv)) doc))
           documents)
        (flat_map (document_writes' (m_opts (m_db_indexes srv))) documents).
Proof.
  induction docs as [|it rest IH]; intros n err srv Hne Hok; [congruence|].
  cbn [parse_docs_from] in *.
  unfold numbered. cbn [length List.seq combine map fst snd].
  fold (numbered Value (S n) rest).
  pose proof (parse_doc_entry mbox n it err srv) as He.
  destruct (entry_document' mbox n it (m_opts (m_db_indexes srv)))
    as [doc|].
  2:{ destruct He as [e He]. rewrite He in Hok.
      pose proof (parse_doc_turn mbox n it err srv) as Ht.
      rewrite He in Ht. destruct Ht as [Hbad _].
      cbn [fst] in Hok. congruence. }
  rewrite He in Hok |- *.
  destruct (is_error (fst (fst (process' srv doc)))) eqn:Hp.
  { cbn [fst] in Hok. congruence. }
  rewrite (process_one_document_taken srv doc Hp) in Hok |- *.
  destruct rest as [|it' rest].
  - exists [doc]. cbn [parse_docs_from snd numbered length List.seq combine
                      map flat_map].
    rewrite !app_nil_r. split; reflexivity.
  - destruct (IH (S n) (fst (fst (process' srv doc))) _
                ltac:(congruence) Hok) as [documents [Hdocs Hsrv]].
    exists (doc :: documents). split.
    + cbn [map]. f_equal. exact Hdocs.
    + rewrite Hsrv. unfold written.
      cbn [m_db m_db_docs m_db_indexes m_opts m_meta cells health history
           flat_map].
      rewrite !fold_left_app, <- !app_assoc. reflexivity.
Qed.

Lemma numbered_length (n : nat) (docs : list Value) :
  length (numbered Value n docs) = length docs.
Proof.
  unfold numbered. rewrite length_combine, length_seq. apply Nat.min_id.
Qed.

(** X12.  [parse_docs] on an array without entries returns the error
    [-ENOENT] and writes nothing.  When it returns without an error, the
    array was not empty, every entry was an object with a string [id] and
    an object [index], and each entry made two writes, its docs batch and
    then its indexes batch, both taken, in the order of the entries: the
    batches are those of the document built from the entry at its place,
    the record of writes has grown by these two writes per entry, entry
    after entry, and the two stores hold what they held with the docs
    batches, and the indexes batches, of all entries applied in that
    order. *)
Theorem parse_docs_success (mbox : string) (docs : list Value)
    (srv : http_server) :
  let opts := m_opts (m_db_indexes srv) in
  let srv' := snd (parse_docs' mbox docs srv) in
  parse_docs' mbox [] srv =
    (create_error (- ENOENT)
       "parse_docs: could not parse document, there are no valid index entries",
     srv) /\
  (is_error (fst (parse_docs' mbox docs srv)) = false ->
   docs <> [] /\
   Forall (fun it =>
             IsObject it = true /\
             (exists id, get_string it "id" = Some id) /\
             IsObject (get_object it "index") = true) docs /\
   exists documents : list document.t,
     length documents = length docs /\
     map (fun e => entry_document' mbox (fst e) (snd e) opts)
       (numbered Value 0 docs) = map Some documents /\
     history srv' =
       history srv ++
       flat_map
         (fun doc =>
            [{| target := docs_store;
                batch := build_docs_batch to_string doc;
                committed := true |};
             {| target := indexes_store;
                batch := build_indexes_batch doc;
                committed := true |}])
         (map (generate_token_keys opts) documents) /\
     m_db (m_db_docs srv') =
       {| cells :=
            fold_left apply_op
              (flat_map (build_docs_batch to_string)
                 (map (generate_token_keys opts) documents))
              (cells (m_db (m_db_docs srv)));
          health := health (m_db (m_db_docs srv)) |} /\
     m_db (m_db_indexes srv') =
       {| cells :=
            fold_left apply_op
              (flat_map build_indexes_batch
                 (map (generate_token_keys opts) documents))
              (cells (m_db (m_db_indexes srv)));
          health := health (m_db (m_db_indexes srv)) |}).
Proof.
  cbv zeta. split; [reflexivity|]. unfold parse_docs. intros Hok.
  assert (Hne : docs <> []).
  { intros ->. discriminate. }
  split; [assumption|].
  split; [exact (proj1 (parse_docs_from_success mbox docs 0 _ srv Hne Hok))|].
  destruct (parse_docs_from_written mbox docs 0 _ srv Hne Hok)
    as [documents [Hdocs Hsrv]].
  exists documents. rewrite Hsrv. unfold written, document_writes.
  cbn [m_db m_db_docs m_db_indexes history].
  rewrite !flat_map_concat_map, !map_map.
  split; [|repeat split; assumption].
  rewrite <- (length_map Some documents), <- Hdocs, length_map.
  apply numbered_length.
Qed.

(** X13.  [parse_docs] does not undo what it has done.  When the entries
    up to some place of the array go through and the next entry is not an
    object, the call returns the error [-EINVAL] and leaves the server as
    the entries before that place left it: their documents stay written,
    and the entries after that place are not looked at. *)
Theorem parse_docs_keeps_earlier_documents (mbox : string)
    (good rest : list Value) (bad : Value) (srv : http_server) :
  IsObject bad = false ->
  is_error (fst (parse_docs' mbox good srv)) = false ->
  parse_docs' mbox (good ++ bad :: rest) srv =
  (create_error (- EINVAL) "docs entries must be objects",
   snd (parse_docs' mbox good srv)).
Proof.
  intros Hbad Hok. unfold parse_docs in *.
  assert (Hne : good <> []).
  { intros ->. discriminate. }
  rewrite (parse_docs_from_app mbox good (bad :: rest) _ _ _ Hne Hok).
  cbn [parse_docs_from]. unfold parse_doc. rewrite Hbad. reflexivity.
Qed.

Lemma parse_docs_from_history (mbox : string) (docs : list Value) :
  forall (srv : http_server) (err : error_info) (n : nat),
  exists events : list write_event,
    history (snd (parse_docs_from' mbox n docs err srv)) =
      history srv ++ events /\
    (length events <= 2 * length docs)%nat /\
    Forall (fun e => committed e = true) (List.removelast events).
Proof.
  induction docs as [|it rest IH]; intros srv err n.
  - exists []. simpl. rewrite app_nil_r.
    repeat split; [lia | constructor].
  - cbn [parse_docs_from].
    pose proof (parse_doc_turn mbox n it err srv) as Ht.
    destruct (parse_doc' mbox n it err srv) as [[e|e] srv'].
    + destruct Ht as [_ [->|[doc [Hp ->]]]].
      * exists []. simpl. rewrite app_nil_r.
        repeat split; [lia | constructor].
      * destruct (process_one_document_history srv doc)
          as [b1 [b2 [[Hgood _]|[_ [Hh|Hh]]]]]; [congruence| |];
          eexists; (split; [cbn [snd]; exact Hh|]); simpl;
          (split; [lia | repeat constructor]).
    + destruct Ht as [_ [_ [_ [_ [doc [Hp ->]]]]]].
      destruct (process_one_document_history srv doc)
        as [b1 [b2 [[_ Hh]|[Hbad _]]]]; [|congruence].
      destruct (IH (snd (process' srv doc)) e (S n))
        as [events [Hev [Hlen Hall]]].
      eexists (_ :: _ :: events).
      split; [rewrite Hev, Hh, <- app_assoc; reflexivity|].
      split; [simpl in *; lia|].
      destruct events as [|ev events].
      * simpl. repeat constructor.
      * change (List.removelast (?a :: ?b :: ev :: events))
          with (a :: b :: List.removelast (ev :: events)).
        repeat constructor; assumption.
Qed.

(** X14.  Whatever the request, [parse_docs] only adds to the record of
    writes, at most two per entry, and every write before the last one it
    makes was taken: a write that is refused ends the request. *)
Theorem parse_docs_stops_at_refused_write (mbox : string)
    (docs : list Value) (srv : http_server) :
  exists events : list write_event,
    history (snd (parse_docs' mbox docs srv)) = history srv ++ events /\
    (length events <= 2 * length docs)%nat /\
    Forall (fun e => committed e = true) (List.removelast events).
Proof. apply parse_docs_from_history. Qed.
End ParseDocs.

(** A request of one document. *)
Lemma parse_docs_success_witness :
  let docs := [sample.request_d1; sample.request_d2] in
  let srv' := snd (sample.parse_docs "m1" docs example.server_up) in
  docs <> [] /\
  Forall (fun it =>
            sample.IsObject it = true /\
            (exists id, sample.get_string it "id" = Some id) /\
            sample.IsObject (sample.get_object it "index") = true)
    docs /\
  exists documents : list document.t,
    length documents = length docs /\
    map (fun e => sample.entry_document "m1" (fst e) (snd e) default_options)
      (on_index.numbered sample.json 0 docs) = map Some documents /\
    history srv' =
      history example.server_up ++
      flat_map
        (fun doc =>
           [{| target := docs_store;
               batch := on_index.build_docs_batch example.id_digits doc;
               committed := true |};
            {| target := indexes_store;
               batch := on_index.build_indexes_batch doc;
               committed := true |}])
        (map (example.keys_in_place default_options) documents) /\
    m_db (m_db_docs srv') =
      {| cells :=
           fold_left apply_op
             (flat_map (on_index.build_docs_batch example.id_digits)
                (map (example.keys_in_place default_options) documents))
             ∅;
         health := kOk |} /\
    m_db (m_db_indexes srv') =
      {| cells :=
           fold_left apply_op
             (flat_map on_index.build_indexes_batch
                (map (example.keys_in_place default_options) documents))
             ∅;
         health := kOk |}.
Proof.
  exact (proj2 (parse_docs_success example.keys_in_place example.id_digits
                  sample.json sample.IsObject sample.IsArray sample.IsString
                  sample.GetString sample.elements sample.get_string
                  sample.get_string_or sample.get_object sample.get_array
                  sample.get_int64 sample.clock_gettime sample.hash
                  sample.assign_id sample.get_indexes sample.new_document
                  "m1" [sample.request_d1; sample.request_d2]
                  example.server_up) eq_refl).
Defined.

(** A request whose second entry is a string. *)
Lemma parse_docs_keeps_earlier_documents_witness :
  sample.parse_docs "m1"
    ([sample.request_d1] ++ sample.JString "d2" :: [sample.request_d1])
    example.server_up =
  (create_error (- on_index.EINVAL) "docs entries must be objects",
   snd (sample.parse_docs "m1" [sample.request_d1] example.server_up)).
Proof.
  exact (parse_docs_keeps_earlier_documents example.keys_in_place
           example.id_digits sample.json sample.IsObject sample.IsArray
           sample.IsString sample.GetString sample.elements
           sample.get_string sample.get_string_or sample.get_object
           sample.get_array sample.get_int64 sample.clock_gettime
           sample.hash sample.assign_id sample.get_indexes
           sample.new_document "m1" [sample.request_d1]
           [sample.request_d1] (sample.JString "d2") example.server_up
           eq_refl eq_refl).
Defined.

(** ** From indexing to reading *)

Lemma merged_values_app (column : N) (key : string) (b1 b2 : WriteBatch) :
  merged_values column key (b1 ++ b2) =
  merged_values column key b1 ++ merged_values column key b2.
Proof. apply flat_map_app. Qed.

Lemma merged_values_flat_map {A : Type} (column : N) (key : string)
    (f : A -> WriteBatch) (l : list A) :
  merged_values column key (flat_map f l) =
  flat_map (fun x => merged_values column key (f x)) l.
Proof.
  induction l as [|x l IH]; [reflexivity|].
  simpl. rewrite merged_values_app, IH. reflexivity.
Qed.

Lemma same_place (c column : N) (k key : string) :
  N.eqb c column && String.eqb k key = true <-> (c, k) = (column, key).
Proof.
  rewrite andb_true_iff, N.eqb_eq, String.eqb_eq.
  split; [intros [-> ->]; reflexivity | intros [= -> ->]; auto].
Qed.

Lemma fold_merges_elsewhere (column : N) (key : string) (b : WriteBatch) :
  forall c : gmap (N * string) cell,
    forallb (fun op => negb (is_put op)) b = true ->
    merged_values column key b = [] ->
    fold_left apply_op b c !! (column, key) = c !! (column, key).
Proof.
  induction b as [|op b IH]; intros c Hm Hv; [reflexivity|].
  destruct op as [c' k' v|c' k' v]; [discriminate|].
  simpl in Hm. cbn [merged_values flat_map] in Hv.
  destruct (N.eqb c' column && String.eqb k' key) eqn:Hsame;
    [discriminate|].
  cbn [fold_left apply_op]. rewrite (IH _ Hm Hv).
  apply lookup_insert_ne. intros E.
  apply same_place in E. congruence.
Qed.

Lemma cell_of_insert (c : gmap (N * string) cell) (column : N)
    (key : string) (x : cell) :
  cell_of (<[(column, key) := x]> c) column key = x.
Proof. unfold cell_of. rewrite lookup_insert_eq. reflexivity. Qed.

Lemma fold_merges_here (column : N) (key : string) (b : WriteBatch) :
  forall c : gmap (N * string) cell,
    forallb (fun op => negb (is_put op)) b = true ->
    merged_values column key b <> [] ->
    fold_left apply_op b c !! (column, key) =
    Some {| base := base (cell_of c column key);
            operands := operands (cell_of c column key) ++
                        merged_values column key b |}.
Proof.
  induction b as [|op b IH]; intros c Hm Hv;
    [exfalso; apply Hv; reflexivity|].
  destruct op as [c' k' v|c' k' v]; [discriminate|].
  simpl in Hm. cbn [merged_values flat_map] in Hv |- *.
  fold (merged_values column key b) in Hv |- *.
  cbn [fold_left apply_op].
  destruct (N.eqb c' column && String.eqb k' key) eqn:Hsame.
  - apply same_place in Hsame. injection Hsame as -> ->.
    fold (cell_of c column key).
    destruct (merged_values column key b) as [|w ws] eqn:Hrest.
    + rewrite (fold_merges_elsewhere column key b _ Hm Hrest).
      rewrite lookup_insert_eq. reflexivity.
    + rewrite (IH _ Hm ltac:(discriminate)), !cell_of_insert.
      cbn [base operands]. rewrite <- app_assoc. reflexivity.
  - simpl app in Hv |- *. rewrite (IH _ Hm Hv). unfold cell_of.
    rewrite lookup_insert_ne; [reflexivity|].
    intros E. apply same_place in E. congruence.
Qed.

Lemma prefixes_apart (key : string) :
  starts_with key "index." = true ->
  starts_with key "token_shards." = true -> False.
Proof.
  destruct key as [|d key]; [intros Hf; discriminate Hf|].
  change (starts_with (String d key) "index.")
    with (if Ascii.eqb "i" d then starts_with key "ndex." else false).
  change (starts_with (String d key) "token_shards.")
    with (if Ascii.eqb "t" d then starts_with key "oken_shards." else false).
  destruct (Ascii.eqb_spec "i" d) as [<-|Hi].
  - change (Ascii.eqb "t" "i") with false. intros _ Hf. discriminate Hf.
  - intros Hf. discriminate Hf.
Qed.

Section IndexThenRead.
Import on_index.
Context `{Deserialize disk_index, Serialize disk_index,
          Deserialize document_for_index,
          Deserialize disk_token, Serialize disk_token,
          Serialize document.t, Serialize id_t,
          Serialize document_for_index}.
Variable generate_token_keys : options -> document.t -> document.t.
Variable to_string : id_t -> string.

Lemma flat_map_twice {A B C : Type} (f : B -> list C) (g : A -> list B)
    (l : list A) :
  flat_map f (flat_map g l) = flat_map (fun x => flat_map f (g x)) l.
Proof.
  induction l as [|x l IH]; [reflexivity|].
  simpl. rewrite flat_map_app, IH. reflexivity.
Qed.

Lemma build_indexes_batch_tokens (doc : document.t) :
  build_indexes_batch doc =
  flat_map
    (fun t =>
       [Merge default_column (token.key t)
          (serialize {| indexed_id := document.indexed_id doc |});
        Merge default_column (token.shard_key t)
          (serialize {| shards := token.shards t |})])
    (document_tokens doc).
Proof.
  unfold build_indexes_batch, document_tokens.
  rewrite merge_attributes_appends, flat_map_twice. reflexivity.
Qed.

Lemma build_indexes_batch_merges (doc : document.t) :
  forallb (fun op => negb (is_put op)) (build_indexes_batch doc) = true.
Proof.
  rewrite build_indexes_batch_tokens.
  induction (document_tokens doc) as [|t l IH]; [reflexivity|].
  simpl. assumption.
Qed.

Lemma shard_key_values (doc : document.t) (shard_key : string) :
  starts_with shard_key "token_shards." = true ->
  (forall t, In t (document_tokens doc) ->
             starts_with (token.key t) "index." = true) ->
  merged_values default_column shard_key (build_indexes_batch doc) =
  map (fun t => serialize {| shards := token.shards t |})
    (List.filter (fun t => String.eqb (token.shard_key t) shard_key)
       (document_tokens doc)).
Proof.
  intros Hk Hkeys. rewrite build_indexes_batch_tokens.
  induction (document_tokens doc) as [|t l IH]; [reflexivity|].
  cbn [flat_map List.filter]. rewrite merged_values_app, IH
    by (intros t' Ht'; apply Hkeys; right; assumption).
  cbn [merged_values flat_map app]. change (N.eqb default_column default_column)
    with true. cbn [andb].
  destruct (String.eqb_spec (token.key t) shard_key) as [E|_].
  - exfalso. apply (prefixes_apart shard_key); [|assumption].
    rewrite <- E. apply Hkeys. left. reflexivity.
  - destruct (String.eqb (token.shard_key t) shard_key); reflexivity.
Qed.

Lemma decode_all_serialized (tokens : list token.t) :
  (forall dt : disk_token, decode (serialize dt) = Some dt) ->
  decode_all (map (fun t => serialize {| shards := token.shards t |}) tokens)
  = Some (map (fun t => {| shards := token.shards t |}) tokens).
Proof.
  intros Hrt. induction tokens as [|t l IH]; [reflexivity|].
  simpl. rewrite Hrt, IH. reflexivity.
Qed.

Lemma decode_snd {T : Type} `{Deserialize T} (data : string) (t : T) :
  decode data = Some t -> snd (deserialize data) = t.
Proof.
  unfold decode. destruct (deserialize data) as [err t'].
  destruct (is_error err); [discriminate|]. intros [= ->]. reflexivity.
Qed.

(** The indexes database after a document went through. *)
Lemma process_one_document_indexes (srv : http_server) (doc : document.t) :
  ok (health (m_db (m_db_docs srv))) = true ->
  ok (health (m_db (m_db_indexes srv))) = true ->
  m_db (m_db_indexes
          (snd (process_one_document generate_token_keys to_string srv doc)))
  = {| cells :=
         fold_left apply_op
           (build_indexes_batch
              (generate_token_keys (m_opts (m_db_indexes srv)) doc))
           (cells (m_db (m_db_indexes srv)));
       health := health (m_db (m_db_indexes srv)) |}.
Proof.
  intros Hd Hi.
  unfold process_one_document, db_docs_write, db_indexes_write, write,
    DB_Write.
  rewrite Hd. cbn [ok negb is_error fst snd m_db m_db_indexes health].
  rewrite Hi. reflexivity.
Qed.

Lemma get_shards_after_merges (d d' : database) (shard_key : string)
    (values : list string) (dts : list disk_token) :
  ok (health (m_db d)) = true ->
  health (m_db d') = health (m_db d) ->
  starts_with shard_key "token_shards." = true ->
  cells (m_db d') !! (default_column, shard_key) =
    Some {| base := base (cell_of (cells (m_db d)) default_column shard_key);
            operands :=
              operands (cell_of (cells (m_db d)) default_column shard_key)
              ++ values |} ->
  values <> [] ->
  decode_all values = Some dts ->
  (forall dt : disk_token, decode (serialize dt) = Some dt) ->
  cells (m_db d) !! (default_column, shard_key) = None \/
  (exists v0, read d shard_key = (no_error, v0) /\
              is_error (fst (deserialize (T := disk_token) v0)) = false) ->
  get_shards d' shard_key =
  set_insert_range N.ltb (concat (map shards dts))
    (set_insert_range N.ltb (get_shards d shard_key) []).
Proof.
  intros Hh Hh' Hk Hcell Hne Hdec Hrt Hprior.
  set (U := set_insert_range N.ltb (concat (map shards dts))
              (set_insert_range N.ltb (get_shards d shard_key) [])).
  assert (Hmerge :
    merge_token_shards shard_key
      (base (cell_of (cells (m_db d)) default_column shard_key))
      (operands (cell_of (cells (m_db d)) default_column shard_key)
       ++ values) = Some (serialize {| shards := U |})).
  { unfold U, get_shards, read, DB_Get, cell_of. rewrite Hh.
    destruct Hprior as [Hnone|[v0 [Hread Hv0]]].
    - rewrite Hnone. cbn [default base operands app].
      rewrite merge_token_shards_decode, Hdec. reflexivity.
    - unfold read, DB_Get in Hread. rewrite Hh in Hread.
      destruct (cells (m_db d) !! (default_column, shard_key))
        as [c|]; [|discriminate].
      cbn [default from_option id].
      assert (Hold : merge_token_shards shard_key (Some v0) values =
                     Some (serialize
                             {| shards :=
                                  set_insert_range N.ltb
                                    (concat (map shards dts))
                                    (set_insert_range N.ltb
                                       (shards (snd (deserialize v0))) []) |})).
      { rewrite merge_token_shards_decode, Hdec. unfold decode.
        destruct (deserialize v0) as [err dt0]. cbn [fst snd] in *.
        rewrite Hv0. reflexivity. }
      destruct (operands c) as [|o os] eqn:Hops.
      + destruct (base c) as [value|]; [|discriminate].
        cbn [ok negb] in Hread. injection Hread as ->.
        cbn [ok negb is_error app]. rewrite Hold.
        destruct (deserialize v0) as [err dt0].
        destruct (is_error err); reflexivity.
      + unfold FullMerge in Hread |- *. rewrite Hk in Hread |- *.
        destruct (merge_token_shards shard_key (base c) (o :: os))
          as [value|] eqn:Hm; [|discriminate].
        cbn [ok negb] in Hread. injection Hread as ->.
        cbn [ok negb is_error].
        rewrite <- (merge_token_shards_two_steps shard_key (base c)
                      (o :: os) values v0 Hrt Hm).
        rewrite Hold.
        destruct (deserialize v0) as [err dt0].
        destruct (is_error err); reflexivity. }
  unfold get_shards at 1, read, DB_Get. rewrite Hh', Hh, Hcell.
  cbn [base operands].
  destruct (operands (cell_of (cells (m_db d)) default_column shard_key)
            ++ values) as [|o os] eqn:Hops.
  { apply app_eq_nil in Hops. destruct Hops as [_ Hv]. congruence. }
  unfold FullMerge. rewrite Hk, Hmerge. cbn [ok negb is_error].
  pose proof (decode_snd _ _ (Hrt {| shards := U |})) as Hback.
  destruct (deserialize (serialize {| shards := U |})) as [err dt].
  cbn [snd] in Hback. subst dt.
  destruct (is_error err); reflexivity.
Qed.

Lemma get_shards_same_engine (d1 d2 : database) (key : string) :
  m_db d1 = m_db d2 -> get_shards d1 key = get_shards d2 key.
Proof.
  intros E. unfold get_shards, read. rewrite E. reflexivity.
Qed.

(** X15.  Indexing a document adds its shards to the shard sets of its
    tokens, and nothing else.  After a [process_one_document] whose two
    writes are taken, [get_shards] on the shard key of a token of the
    document returns, strictly ascending, the shards it returned before
    together with the shards of the tokens of the document that have this
    shard key.  This is for token keys that begin with ["index."] and
    shard keys that begin with ["token_shards."], a codec that reads back
    the shard sets it writes, and a shard key that was missing before or
    read as a value that deserializes. *)
Theorem get_shards_after_indexing (srv : http_server) (doc : document.t)
    (t0 : token.t) :
  let doc' := generate_token_keys (m_opts (m_db_indexes srv)) doc in
  let srv' :=
    snd (process_one_document generate_token_keys to_string srv doc) in
  ok (health (m_db (m_db_docs srv))) = true ->
  ok (health (m_db (m_db_indexes srv))) = true ->
  In t0 (document_tokens doc') ->
  (forall t, In t (document_tokens doc') ->
     starts_with (token.key t) "index." = true /\
     starts_with (token.shard_key t) "token_shards." = true) ->
  (forall dt : disk_token, decode (serialize dt) = Some dt) ->
  cells (m_db (m_db_indexes srv)) !! (default_column, token.shard_key t0)
    = None \/
  (exists v0,
      read (m_db_indexes srv) (token.shard_key t0) = (no_error, v0) /\
      is_error (fst (deserialize (T := disk_token) v0)) = false) ->
  ascending N.ltb (get_shards (m_db_indexes srv') (token.shard_key t0)) /\
  forall n : N,
    In n (get_shards (m_db_indexes srv') (token.shard_key t0)) <->
    In n (get_shards (m_db_indexes srv) (token.shard_key t0)) \/
    exists t, In t (document_tokens doc') /\
              token.shard_key t = token.shard_key t0 /\
              In n (token.shards t).
Proof.
  intros doc' srv' Hd Hi Ht0 Hkeys Hrt Hprior.
  set (K := token.shard_key t0) in *.
  set (mine := List.filter (fun t => String.eqb (token.shard_key t) K)
                 (document_tokens doc')).
  assert (Hmine : In t0 mine).
  { apply filter_In. split; [assumption | apply String.eqb_refl]. }
  assert (Hvalues :
    merged_values default_column K (build_indexes_batch doc') =
    map (fun t => serialize {| shards := token.shards t |}) mine).
  { apply shard_key_values.
    - apply (Hkeys t0 Ht0).
    - intros t Ht. apply (Hkeys t Ht). }
  assert (Hne : map (fun t => serialize {| shards := token.shards t |}) mine
                <> []).
  { destruct mine; [destruct Hmine | discriminate]. }
  pose proof (process_one_document_indexes srv doc Hd Hi) as Hdb.
  fold doc' srv' in Hdb.
  assert (Hshards :
    get_shards (m_db_indexes srv') K =
    set_insert_range N.ltb
      (concat (map shards
                 (map (fun t => {| shards := token.shards t |}) mine)))
      (set_insert_range N.ltb (get_shards (m_db_indexes srv) K) [])).
  { apply (get_shards_after_merges (m_db_indexes srv) (m_db_indexes srv') K
             (map (fun t => serialize {| shards := token.shards t |}) mine));
      try assumption.
    - rewrite Hdb. reflexivity.
    - apply (Hkeys t0 Ht0).
    - rewrite Hdb. cbn [cells]. rewrite <- Hvalues.
      apply fold_merges_here; [apply build_indexes_batch_merges|].
      rewrite Hvalues. assumption.
    - apply decode_all_serialized, Hrt. }
  rewrite Hshards. split; [apply shard_set_ascending|].
  intros n. rewrite shard_set_In, In_concat_shards.
  split; (intros [Hold|Hnew]; [left; assumption | right]).
  - destruct Hnew as [dt [Hdt Hn]]. apply in_map_iff in Hdt.
    destruct Hdt as [t [<- Ht]]. apply filter_In in Ht.
    destruct Ht as [Ht Hk]. apply String.eqb_eq in Hk.
    exists t. auto.
  - destruct Hnew as [t [Ht [Hk Hn]]].
    exists {| shards := token.shards t |}. split; [|assumption].
    apply in_map_iff. exists t. split; [reflexivity|].
    apply filter_In. split; [assumption|]. apply String.eqb_eq, Hk.
Qed.

(** X16.  A document whose docs batch is taken can be read back, whether
    or not the indexes batch is taken after it.  After
    [process_one_document] on a docs engine that works, the documents
    column holds the serialized document under its indexed id, the
    document-ids column holds the serialized indexed id under the
    document id, and no other key of the docs store has changed. *)
Theorem process_one_document_stores_document (srv : http_server)
    (doc : document.t) :
  let doc' := generate_token_keys (m_opts (m_db_indexes srv)) doc in
  let srv' :=
    snd (process_one_document generate_token_keys to_string srv doc) in
  ok (health (m_db (m_db_docs srv))) = true ->
  DB_Get (m_db (m_db_docs srv')) documents_column
    (to_string (document.indexed_id doc')) = (kOk, serialize doc') /\
  DB_Get (m_db (m_db_docs srv')) document_ids_column (document.id doc') =
    (kOk, serialize (document.indexed_id doc')) /\
  forall (column : N) (key : string),
    (column, key) <>
      (documents_column, to_string (document.indexed_id doc')) ->
    (column, key) <> (document_ids_column, document.id doc') ->
    cells (m_db (m_db_docs srv')) !! (column, key) =
    cells (m_db (m_db_docs srv)) !! (column, key).
Proof.
  intros doc' srv' Hd.
  assert (Hdb :
    m_db (m_db_docs srv') =
    {| cells := fold_left apply_op (build_docs_batch to_string doc')
                  (cells (m_db (m_db_docs srv)));
       health := health (m_db (m_db_docs srv)) |}).
  { unfold srv', process_one_document, db_docs_write, db_indexes_write,
      write, DB_Write.
    fold doc'. rewrite Hd.
    cbn [ok negb is_error fst snd m_db m_db_docs m_db_indexes health].
    destruct (ok (health (m_db (m_db_indexes srv)))) eqn:Hi;
      cbn [ok negb is_error fst snd m_db m_db_docs m_db_indexes health];
      rewrite ?Hi; reflexivity. }
  rewrite Hdb. unfold DB_Get. cbn [health cells]. rewrite Hd.
  unfold build_docs_batch.
  cbn [app fold_left apply_op].
  split; [|split].
  - rewrite lookup_insert_ne by discriminate.
    rewrite lookup_insert_eq. reflexivity.
  - rewrite lookup_insert_eq. reflexivity.
  - intros column key Hdoc Hid.
    rewrite lookup_insert_ne by congruence.
    rewrite lookup_insert_ne by congruence. reflexivity.
Qed.
End IndexThenRead.

Lemma get_shards_after_indexing_witness :
  let srv' :=
    snd (@on_index.process_one_document
           reference_codec.serialize_document reference_codec.serialize_id
           tally_codec.serialize_document_for_index
           tally_codec.serialize_disk_token
           example.keys_in_place example.id_digits
           sample.indexed_before example.d1) in
  ascending N.ltb
    (@get_shards tally_codec.deserialize_disk_index
       tally_codec.serialize_disk_index
       tally_codec.deserialize_document_for_index
       tally_codec.deserialize_disk_token tally_codec.serialize_disk_token
       (m_db_indexes srv') (token.shard_key example.hello)) /\
  forall n : N,
    In n (@get_shards tally_codec.deserialize_disk_index
            tally_codec.serialize_disk_index
            tally_codec.deserialize_document_for_index
            tally_codec.deserialize_disk_token
            tally_codec.serialize_disk_token
            (m_db_indexes srv') (token.shard_key example.hello)) <->
    In n (@get_shards tally_codec.deserialize_disk_index
            tally_codec.serialize_disk_index
            tally_codec.deserialize_document_for_index
            tally_codec.deserialize_disk_token
            tally_codec.serialize_disk_token
            (m_db_indexes sample.indexed_before)
            (token.shard_key example.hello)) \/
    exists t, In t (document_tokens example.d1) /\
              token.shard_key t = token.shard_key example.hello /\
              In n (token.shards t).
Proof.
  apply (@get_shards_after_indexing tally_codec.deserialize_disk_index
           tally_codec.serialize_disk_index
           tally_codec.deserialize_document_for_index
           tally_codec.deserialize_disk_token
           tally_codec.serialize_disk_token
           reference_codec.serialize_document reference_codec.serialize_id
           tally_codec.serialize_document_for_index
           example.keys_in_place example.id_digits
           sample.indexed_before example.d1 example.hello).
  - reflexivity.
  - reflexivity.
  - left. reflexivity.
  - intros t [<-|[<-|[]]]; split; reflexivity.
  - exact tally_disk_token_round_trip.
  - right. exists "S+111,". split; vm_compute; reflexivity.
Defined.


Lemma process_one_document_stores_document_witness :
  let srv' :=
    snd (on_index.process_one_document example.keys_in_place
           example.id_digits sample.server_indexes_down example.d1) in
  fst (on_index.process_one_document example.keys_in_place
         example.id_digits sample.server_indexes_down example.d1) <>
    (no_error, example.d1) /\
  DB_Get (m_db (m_db_docs srv')) documents_column
    (example.id_digits (document.indexed_id example.d1)) =
    (kOk, serialize example.d1) /\
  DB_Get (m_db (m_db_docs srv')) document_ids_column
    (document.id example.d1) =
    (kOk, serialize (document.indexed_id example.d1)) /\
  forall (column : N) (key : string),
    (column, key) <>
      (documents_column,
       example.id_digits (document.indexed_id example.d1)) ->
    (column, key) <> (document_ids_column, document.id example.d1) ->
    cells (m_db (m_db_docs srv')) !! (column, key) =
    cells (m_db (m_db_docs sample.server_indexes_down)) !! (column, key).
Proof.
  split; [discriminate|].
  exact (process_one_document_stores_document example.keys_in_place
           example.id_digits sample.server_indexes_down example.d1
           eq_refl).
Defined.

(** ** The replies to an index request *)

Section IndexRequest.
Import on_index.
Context `{Serialize document.t, Serialize id_t,
          Serialize document_for_index, Serialize disk_token}.
Variable generate_token_keys : options -> document.t -> document.t.
Variable to_string : id_t -> string.
Variable Value : Type.
Variables IsObject IsArray IsString : Value -> bool.
Variable GetString : Value -> string.
Variable elements : Value -> list Value.
Variable get_string : Value -> string -> option string.
Variable get_string_or : Value -> string -> string -> string.
Variables get_object get_array : Value -> string -> Value.
Variable get_int64 : Value -> string -> Z -> Z.
Variable clock_gettime : nat -> Z * Z.
Variable hash : string -> N.
Variable assign_id : document.t -> string -> N -> Z -> Z -> document.t.
Variable get_indexes : options -> Value -> indexes.t.
Variable new_document : document.t.
Variable Parse : string -> option Value.

Local Abbreviation parse_docs' :=
  (parse_docs generate_token_keys to_string Value IsObject IsArray IsString
     GetString elements get_string get_string_or get_object get_array
     get_int64 clock_gettime hash assign_id get_indexes new_document).
Local Abbreviation entry_document' :=
  (entry_document Value IsObject IsArray IsString GetString elements
     get_string get_string_or get_object get_array get_int64 clock_gettime
     hash assign_id get_indexes new_document).
Local Abbreviation on_request' :=
  (on_request generate_token_keys to_string Value IsObject IsArray IsString
     GetString elements get_string get_string_or get_object get_array
     get_int64 clock_gettime hash assign_id get_indexes new_document Parse).

(** X17.  The reply [ok] to an index request means that all of it is
    written.  When [on_request] sends [send_reply(ok)], that is its only
    reply, the body parsed to an object with a string [mailbox] and an
    array [docs] that is not empty, and every entry of [docs] made two
    writes, its docs batch and then its indexes batch, both taken, in the
    order of the entries: the batches are those of the document built
    from the entry at its place, the record of writes has grown by these
    two writes per entry, entry after entry, and the two stores hold what
    they held with the docs batches, and the indexes batches, of all
    entries applied in that order. *)
Theorem on_request_ok_means_written (data : string) (srv : http_server) :
  let opts := m_opts (m_db_indexes srv) in
  let srv' := snd (on_request' data srv) in
  In (send_reply http_response.ok) (fst (on_request' data srv)) ->
  fst (on_request' data srv) = [send_reply http_response.ok] /\
  exists (doc : Value) (mbox : string) (documents : list document.t),
    Parse data = Some doc /\
    IsObject doc = true /\
    get_string doc "mailbox" = Some mbox /\
    IsArray (get_array doc "docs") = true /\
    elements (get_array doc "docs") <> [] /\
    length documents = length (elements (get_array doc "docs")) /\
    map (fun e => entry_document' mbox (fst e) (snd e) opts)
      (numbered Value 0 (elements (get_array doc "docs"))) =
      map Some documents /\
    history srv' =
      history srv ++
      flat_map
        (fun doc =>
           [{| target := docs_store;
               batch := build_docs_batch to_string doc;
               committed := true |};
            {| target := indexes_store;
               batch := build_indexes_batch doc;
               committed := true |}])
        (map (generate_token_keys opts) documents) /\
    m_db (m_db_docs srv') =
      {| cells :=
           fold_left apply_op
             (flat_map (build_docs_batch to_string)
                (map (generate_token_keys opts) documents))
             (cells (m_db (m_db_docs srv)));
         health := health (m_db (m_db_docs srv)) |} /\
    m_db (m_db_indexes srv') =
      {| cells :=
           fold_left apply_op
             (flat_map build_indexes_batch
                (map (generate_token_keys opts) documents))
             (cells (m_db (m_db_indexes srv)));
         health := health (m_db (m_db_indexes srv)) |}.
Proof.
  cbv zeta. unfold on_request.
  destruct (Parse data) as [doc|] eqn:Hparse;
    [|intros [E|[]]; discriminate].
  destruct (IsObject doc) eqn:Hobj; cbn [negb];
    [|intros [E|[]]; discriminate].
  destruct (get_string doc "mailbox") as [mbox|] eqn:Hmbox;
    [|intros [E|[E|[]]]; discriminate].
  destruct (IsArray (get_array doc "docs")) eqn:Harr; cbn [negb];
    [|intros [E|[]]; discriminate].
  pose proof (parse_docs_from_written generate_token_keys to_string Value
                IsObject IsArray IsString GetString elements get_string
                get_string_or get_object get_array get_int64 clock_gettime
                hash assign_id get_indexes new_document mbox
                (elements (get_array doc "docs")) O
                (create_error (- ENOENT)
                   "parse_docs: could not parse document, there are no valid index entries")
                srv) as Hs.
  pose proof (numbered_length Value 0 (elements (get_array doc "docs")))
    as Hlen.
  unfold parse_docs.
  destruct (elements (get_array doc "docs")) as [|it rest] eqn:Hdocs.
  { cbn. intros [E|[]]; discriminate. }
  specialize (Hs ltac:(discriminate)).
  destruct (parse_docs_from generate_token_keys to_string Value IsObject
              IsArray IsString GetString elements get_string get_string_or
              get_object get_array get_int64 clock_gettime hash assign_id
              get_indexes new_document mbox 0 (it :: rest)
              (create_error (- ENOENT)
                 "parse_docs: could not parse document, there are no valid index entries")
              srv) as [err srv'].
  cbn [fst snd] in Hs |- *.
  destruct (is_error err); [intros [E|[]]; discriminate|].
  intros _. split; [reflexivity|].
  destruct (Hs eq_refl) as [documents [Hdocuments Hsrv]].
  exists doc, mbox, documents. cbn [fst snd]. rewrite Hsrv.
  unfold written, document_writes.
  cbn [m_db m_db_docs m_db_indexes history].
  rewrite !flat_map_concat_map, !map_map, ?Hdocs.
  split; [reflexivity|]. split; [assumption|]. split; [assumption|].
  split; [assumption|]. split; [discriminate|].
  split; [|repeat split; assumption].
  rewrite <- (length_map Some documents), <- Hdocuments, length_map.
  exact Hlen.
Qed.

(** X18.  An index request is answered once, but for one case: a body
    that parses to an object without a string [mailbox] is answered
    twice, with [send_error] and then a bare [send_reply(bad_request)],
    and leaves the server as it was.  Every reply other than the single
    [ok] carries the status [bad_request]. *)
Theorem on_request_number_of_replies (data : string) (srv : http_server) :
  let replies := fst (on_request' data srv) in
  (length replies = 1%nat \/ length replies = 2%nat) /\
  (length replies = 2%nat <->
   exists doc, Parse data = Some doc /\ IsObject doc = true /\
               get_string doc "mailbox" = None) /\
  (length replies = 2%nat ->
   replies = [send_error http_response.bad_request (- ENOENT);
              send_reply http_response.bad_request] /\
   snd (on_request' data srv) = srv) /\
  (replies = [send_reply http_response.ok] \/
   forall r, In r replies ->
     r = send_reply http_response.bad_request \/
     exists e, r = send_error http_response.bad_request e).
Proof.
  unfold on_request.
  destruct (Parse data) as [doc|].
  2:{ cbn. repeat split; auto; try discriminate.
      - intros [doc [E _]]. discriminate.
      - right. intros r [<-|[]]. right. eauto. }
  destruct (IsObject doc) eqn:Hobj; cbn [negb].
  2:{ cbn. repeat split; auto; try discriminate.
      - intros [doc' [[= <-] [E _]]]. congruence.
      - right. intros r [<-|[]]. right. eauto. }
  destruct (get_string doc "mailbox") as [mbox|] eqn:Hm.
  2:{ cbn. repeat split; auto.
      - exists doc. auto.
      - right. intros r [<-|[<-|[]]]; [right; eauto | left; reflexivity]. }
  assert (Hnot : ~ exists doc', Some doc = Some doc' /\
                                IsObject doc' = true /\
                                get_string doc' "mailbox" = None).
  { intros [doc' [[= <-] [_ E]]]. congruence. }
  destruct (IsArray (get_array doc "docs")); cbn [negb].
  2:{ cbn. repeat split; auto; try discriminate.
      - intros E. contradiction.
      - right. intros r [<-|[]]. right. eauto. }
  destruct (parse_docs' mbox (elements (get_array doc "docs")) srv)
    as [err srv'].
  destruct (is_error err); cbn.
  - repeat split; auto; try discriminate.
    + intros E. contradiction.
    + right. intros r [<-|[]]. right. eauto.
  - repeat split; auto; try discriminate.
    intros E. contradiction.
Qed.
End IndexRequest.

Lemma on_request_ok_means_written_witness :
  let srv' := snd (sample.on_request "two documents" example.server_up) in
  fst (sample.on_request "two documents" example.server_up) =
    [send_reply http_response.ok] /\
  exists (doc : sample.json) (mbox : string) (documents : list document.t),
    sample.Parse "two documents" = Some doc /\
    sample.IsObject doc = true /\
    sample.get_string doc "mailbox" = Some mbox /\
    sample.IsArray (sample.get_array doc "docs") = true /\
    sample.elements (sample.get_array doc "docs") <> [] /\
    length documents =
      length (sample.elements (sample.get_array doc "docs")) /\
    map (fun e => sample.entry_document mbox (fst e) (snd e) default_options)
      (on_index.numbered sample.json 0
         (sample.elements (sample.get_array doc "docs"))) =
      map Some documents /\
    history srv' =
      history example.server_up ++
      flat_map
        (fun doc =>
           [{| target := docs_store;
               batch := on_index.build_docs_batch example.id_digits doc;
               committed := true |};
            {| target := indexes_store;
               batch := on_index.build_indexes_batch doc;
               committed := true |}])
        (map (example.keys_in_place default_options) documents) /\
    m_db (m_db_docs srv') =
      {| cells :=
           fold_left apply_op
             (flat_map (on_index.build_docs_batch example.id_digits)
                (map (example.keys_in_place default_options) documents))
             ∅;
         health := kOk |} /\
    m_db (m_db_indexes srv') =
      {| cells :=
           fold_left apply_op
             (flat_map on_index.build_indexes_batch
                (map (example.keys_in_place default_options) documents))
             ∅;
         health := kOk |}.
Proof.
  apply (on_request_ok_means_written example.keys_in_place
           example.id_digits sample.json sample.IsObject sample.IsArray
           sample.IsString sample.GetString sample.elements
           sample.get_string sample.get_string_or sample.get_object
           sample.get_array sample.get_int64 sample.clock_gettime
           sample.hash sample.assign_id sample.get_indexes
           sample.new_document sample.Parse "two documents"
           example.server_up).
  left. reflexivity.
Defined.
